(** * Bank transaction analyzer: feature engineering, risk scoring, flagging

    A shallow embedding of the three core stages of the repository
    ([Models/feature_builder.py], [Models/risk_scorer.py],
    [Models/transaction_flagger.py]) together with the part of pandas
    they rely on, and the properties of the specification that concern
    them.  Around them stand the queries on the scored and on the
    flagged table, two steps of [Models/transaction_cleaner.py], the
    validation of [Models/data_manager.py] and the progress flags of
    [Controllers/controller.py], with properties read off the code.

    Modelling choices.
    - A pandas column is a typed list of cells.  int64 and float64
      columns are both [NumCol]; a cell is an exact rational or NaN
      ([None]).  Arithmetic is exact: floating-point rounding is not
      modelled.  bool columns are [BoolCol]; object columns hold strings.
    - A [DataFrame] is an ordered association list from column names to
      columns; the names are meant to be distinct, as they are in a table
      read from a file.  Rows are identified by their position; the
      pandas index, which the code never resets and which only serves to
      put a computed value back on the row it was computed for, is left
      implicit.
    - The schema the loader establishes is assumed where the code indexes
      by a column: [nameOrig] is an object column and the columns used in
      arithmetic are numeric.  On any other dtype the model raises
      [TypeError]; pandas itself may coerce there, so the theorems below
      state the columns they need as hypotheses.
    - The square root used by [Series.std] and [scipy.stats.zscore] is a
      parameter [sqrt : Q -> Q] of the scorer. *)

From Stdlib Require Import String Ascii Bool Arith ZArith QArith Qabs Qround
  Qminmax Lia Lqa List Permutation Sorted OrdersEx.
Import ListNotations.

Local Open Scope string_scope.
Local Open Scope list_scope.
Local Open Scope Q_scope.

(** ** The fragment of pandas used by the three stages *)

Module Pandas.

(** A numeric cell: [None] is NaN (a missing value). *)
Definition num := option Q.

Inductive column :=
| NumCol (xs : list num)
| BoolCol (bs : list bool)
| ObjCol (ss : list string).

Definition DataFrame := list (string * column).

Inductive exn :=
| KeyError (name : string)
| TypeError (name : string)
| ValueError (what : string).

Inductive result (A : Type) :=
| Ok (a : A)
| Raise (e : exn).
Arguments Ok {A} a.
Arguments Raise {A} e.

Definition rbind {A B} (r : result A) (k : A -> result B) : result B :=
  match r with
  | Ok a => k a
  | Raise e => Raise e
  end.

(** *** Cells and comparisons (a comparison with NaN is false) *)

Definition Qltb (a b : Q) : bool := negb (Qle_bool b a).

Definition num_gt (x : num) (c : Q) : bool :=
  match x with Some q => Qltb c q | None => false end.

Definition num_ge (x : num) (c : Q) : bool :=
  match x with Some q => Qle_bool c q | None => false end.

Definition num_lt (x : num) (c : Q) : bool :=
  match x with Some q => Qltb q c | None => false end.

Definition num_eq (x : num) (c : Q) : bool :=
  match x with Some q => Qeq_bool q c | None => false end.

Definition num_map (f : Q -> Q) (x : num) : num :=
  match x with Some q => Some (f q) | None => None end.

Definition num_map2 (f : Q -> Q -> Q) (x y : num) : num :=
  match x, y with Some a, Some b => Some (f a b) | _, _ => None end.

Definition Qofnat (n : nat) : Q := inject_Z (Z.of_nat n).

(** *** Reductions; all of them skip NaN, as pandas does by default *)

Fixpoint dropna (xs : list num) : list Q :=
  match xs with
  | [] => []
  | Some q :: r => q :: dropna r
  | None :: r => dropna r
  end.

Definition Qsum (xs : list Q) : Q := fold_right Qplus 0 xs.

Definition Qmean (xs : list Q) : Q := Qsum xs / Qofnat (length xs).

Fixpoint Qmaximum (x : Q) (xs : list Q) : Q :=
  match xs with
  | [] => x
  | y :: r => Qmax x (Qmaximum y r)
  end.

Fixpoint Qminimum (x : Q) (xs : list Q) : Q :=
  match xs with
  | [] => x
  | y :: r => Qmin x (Qminimum y r)
  end.

(** [count]: the number of non-missing cells. *)
Definition count (xs : list num) : nat := length (dropna xs).

(** [sum]: the sum of the non-missing cells, 0 when there is none. *)
Definition nansum (xs : list num) : Q := Qsum (dropna xs).

(** [mean]: NaN when no cell is present. *)
Definition nanmean (xs : list num) : num :=
  match dropna xs with
  | [] => None
  | v => Some (Qmean v)
  end.

Definition nanmax (xs : list num) : num :=
  match dropna xs with
  | [] => None
  | x :: r => Some (Qmaximum x r)
  end.

Definition nanmin (xs : list num) : num :=
  match dropna xs with
  | [] => None
  | x :: r => Some (Qminimum x r)
  end.

Definition fillna (d : Q) (xs : list num) : list Q :=
  map (fun x => match x with Some q => q | None => d end) xs.

(** Sum of squared deviations from the mean. *)
Definition sqdev (xs : list Q) : Q :=
  let m := Qmean xs in Qsum (map (fun x => (x - m) * (x - m)) xs).

(** *** Frames *)

Definition col_len (c : column) : nat :=
  match c with
  | NumCol xs => length xs
  | BoolCol bs => length bs
  | ObjCol ss => length ss
  end.

Definition columns (df : DataFrame) : list string := map fst df.

(** [len(df)] *)
Definition nrows (df : DataFrame) : nat :=
  match df with
  | [] => O
  | (_, c) :: _ => col_len c
  end.

Fixpoint lookup (name : string) (df : DataFrame) : option column :=
  match df with
  | [] => None
  | (n, c) :: r => if String.eqb n name then Some c else lookup name r
  end.

(** [name in df.columns] *)
Definition has_col (name : string) (df : DataFrame) : bool :=
  match lookup name df with Some _ => true | None => false end.

(** [df[name]] *)
Definition getitem (name : string) (df : DataFrame) : result column :=
  match lookup name df with
  | Some c => Ok c
  | None => Raise (KeyError name)
  end.

(** [df[name] = c]: an existing column is replaced where it stands, a
    new one is appended on the right. *)
Fixpoint setitem (name : string) (c : column) (df : DataFrame) : DataFrame :=
  match df with
  | [] => [(name, c)]
  | (n, c0) :: r =>
      if String.eqb n name then (n, c) :: r else (n, c0) :: setitem name c r
  end.

Definition as_num (name : string) (c : column) : result (list num) :=
  match c with
  | NumCol xs => Ok xs
  | _ => Raise (TypeError name)
  end.

Definition as_obj (name : string) (c : column) : result (list string) :=
  match c with
  | ObjCol ss => Ok ss
  | _ => Raise (TypeError name)
  end.

Definition get_num (name : string) (df : DataFrame) : result (list num) :=
  rbind (getitem name df) (as_num name).

Definition get_obj (name : string) (df : DataFrame) : result (list string) :=
  rbind (getitem name df) (as_obj name).

(** [df.select_dtypes(include=[np.number]).columns]: the int64 and
    float64 columns.  [np.bool_] is not a subtype of [np.number], so
    bool columns are not selected, and neither are object columns. *)
Definition is_number (c : column) : bool :=
  match c with NumCol _ => true | _ => false end.

Definition select_dtypes_number (df : DataFrame) : list string :=
  map fst (filter (fun p => is_number (snd p)) df).

(** *** groupby *)

(** The cells of [vals] on the rows whose key is [k]. *)
Fixpoint group_of {K V : Type} (eqb : K -> K -> bool) (k : K)
    (keys : list K) (vals : list V) : list V :=
  match keys, vals with
  | k' :: ks, v :: vs =>
      if eqb k' k then v :: group_of eqb k ks vs else group_of eqb k ks vs
  | _, _ => []
  end.

(** [groupby(keys)[vals].transform(f)]: every row receives [f] of its
    own group. *)
Definition transform {K V R : Type} (eqb : K -> K -> bool)
    (f : list V -> R) (keys : list K) (vals : list V) : list R :=
  map (fun k => f (group_of eqb k keys vals)) keys.

(** *** Ordering of keys and stable sorting *)

(** Strings compare byte by byte, which on UTF-8 text is the order of
    Python's [str]. *)
Definition str_leb (a b : string) : bool :=
  match String_as_OT.compare a b with Gt => false | _ => true end.

(** NaN sorts last ([na_position='last']). *)
Definition num_leb (x y : num) : bool :=
  match x, y with
  | Some a, Some b => Qle_bool a b
  | _, None => true
  | None, Some _ => false
  end.

Fixpoint insert_by {A : Type} (leb : A -> A -> bool) (x : A) (l : list A)
    : list A :=
  match l with
  | [] => [x]
  | y :: r => if leb x y then x :: y :: r else y :: insert_by leb x r
  end.

(** A stable sort: of two rows with equal keys the earlier stays first. *)
Definition sort_by {A : Type} (leb : A -> A -> bool) (l : list A) : list A :=
  fold_right (insert_by leb) [] l.

(** The sorted distinct keys, as [groupby] lists its groups. *)
Fixpoint dedup_sorted (l : list string) : list string :=
  match l with
  | [] => []
  | x :: r =>
      match r with
      | [] => [x]
      | y :: _ => if String.eqb x y then dedup_sorted r else x :: dedup_sorted r
      end
  end.

Definition unique_sorted (l : list string) : list string :=
  dedup_sorted (sort_by str_leb l).

(** Reindexing of a column by a list of row positions ([take]). *)
Definition take_rows {A : Type} (d : A) (idx : list nat) (l : list A) : list A :=
  map (fun i => nth i l d) idx.

Definition take_col (idx : list nat) (c : column) : column :=
  match c with
  | NumCol xs => NumCol (take_rows None idx xs)
  | BoolCol bs => BoolCol (take_rows false idx bs)
  | ObjCol ss => ObjCol (take_rows EmptyString idx ss)
  end.

Definition take_frame (idx : list nat) (df : DataFrame) : DataFrame :=
  map (fun p => (fst p, take_col idx (snd p))) df.

(** *** Rolling windows inside groups *)

(** [groupby(keys)[vals].rolling(w, min_periods=1)]: for every row, the
    cells of the last [w] rows of its group up to and including itself,
    most recent first.  [seen] holds the rows already passed, most
    recent first. *)
Fixpoint rolling_windows {V : Type} (w : nat) (seen rest : list (string * V))
    : list (list V) :=
  match rest with
  | [] => []
  | (k, v) :: rest' =>
      let seen' := (k, v) :: seen in
      firstn w (map snd (filter (fun p => String.eqb (fst p) k) seen'))
        :: rolling_windows w seen' rest'
  end.

Definition rolling {R : Type} (w : nat) (f : list num -> R)
    (keys : list string) (vals : list num) : list R :=
  map f (rolling_windows w [] (combine keys vals)).

(** *** Statements that change a table in place

    A statement of a method body, run against the table that an
    attribute such as [self.features] designates.  The table is changed
    in place: when a statement raises, the table stays as the statements
    before it left it. *)
Definition M (A : Type) : Type := DataFrame -> DataFrame * result A.

Definition ret {A} (a : A) : M A := fun df => (df, Ok a).

Definition bind {A B} (m : M A) (k : A -> M B) : M B :=
  fun df =>
    match m df with
    | (df', Ok a) => k a df'
    | (df', Raise e) => (df', Raise e)
    end.

Definition read {A} (f : DataFrame -> result A) : M A := fun df => (df, f df).

Definition assign (name : string) (c : column) : M unit :=
  fun df => (setitem name c df, Ok tt).

Definition modify (f : DataFrame -> DataFrame) : M unit :=
  fun df => (f df, Ok tt).

Notation "x <- m ;; k" := (bind m (fun x => k))
  (at level 61, m at next level, right associativity).
Notation "m ;;; k" := (bind m (fun _ => k))
  (at level 61, right associativity).

End Pandas.

(** ** [Models/feature_builder.py] *)

Module FeatureBuilder.
Import Pandas.

Definition map2 {A B C} (f : A -> B -> C) (xs : list A) (ys : list B) : list C :=
  map (fun p => f (fst p) (snd p)) (combine xs ys).

(** [np.where(old > 0, amount / old, 0)] on one row. *)
Definition balance_ratio (old amount : num) : num :=
  if num_gt old 0 then num_map2 Qdiv amount old else Some 0.

(** [(old > 0) & (new == 0)] on one row. *)
Definition full_drain (old new : num) : bool :=
  num_gt old 0 && num_eq new 0.

(** [s // 24] and [s % 24] (floor division and its remainder). *)
Definition floordiv24 (s : Q) : Q := inject_Z (Qfloor (s / 24)).
Definition mod24 (s : Q) : Q := s - 24 * floordiv24 s.

Definition _add_transaction_features : M unit :=
  old <- read (get_num "oldbalanceOrg") ;;
  amount <- read (get_num "amount") ;;
  assign "balance_ratio_orig" (NumCol (map2 balance_ratio old amount)) ;;;
  old <- read (get_num "oldbalanceOrg") ;;
  new <- read (get_num "newbalanceOrig") ;;
  assign "is_full_drain" (BoolCol (map2 full_drain old new)) ;;;
  step <- read (get_num "step") ;;
  assign "hour_of_day" (NumCol (map (num_map mod24) step)).

Definition _add_customer_features : M unit :=
  names <- read (get_obj "nameOrig") ;;
  amount <- read (get_num "amount") ;;
  assign "trns_count_customer"
    (NumCol (transform String.eqb (fun g => Some (Qofnat (count g))) names amount)) ;;;
  assign "trns_total_customer"
    (NumCol (transform String.eqb (fun g => Some (nansum g)) names amount)) ;;;
  assign "trns_avg_customer"
    (NumCol (transform String.eqb nanmean names amount)) ;;;
  assign "trns_max_customer"
    (NumCol (transform String.eqb nanmax names amount)).

(** Two rows fall in the same [(nameOrig, day)] group when both keys
    agree; a row whose day is NaN is in no group. *)
Definition day_key_eqb (a b : string * num) : bool :=
  match snd a, snd b with
  | Some x, Some y => String.eqb (fst a) (fst b) && Qeq_bool x y
  | _, _ => false
  end.

Definition daily_count (names : list string) (day amount : list num) : list num :=
  let keys := combine names day in
  map (fun k =>
         match snd k with
         | None => None
         | Some _ => Some (Qofnat (count (group_of day_key_eqb k keys amount)))
         end) keys.

Definition _add_velocity_features : M unit :=
  step <- read (get_num "step") ;;
  assign "day" (NumCol (map (num_map floordiv24) step)) ;;;
  names <- read (get_obj "nameOrig") ;;
  day <- read (get_num "day") ;;
  amount <- read (get_num "amount") ;;
  assign "daily_trns_velocity" (NumCol (daily_count names day amount)).

(** The order of [sort_values(['nameOrig', 'step'])]. *)
Definition key_leb (a b : string * num) : bool :=
  match String_as_OT.compare (fst a) (fst b) with
  | Lt => true
  | Gt => false
  | Eq => num_leb (snd a) (snd b)
  end.

(** The row positions in sorted order. *)
Definition argsort (keys : list (string * num)) : list nat :=
  map snd
    (sort_by (fun a b => key_leb (fst a) (fst b))
       (combine keys (seq 0 (length keys)))).

Definition rolling_window : nat := 5.

Definition _add_rolling_features : M unit :=
  names <- read (get_obj "nameOrig") ;;
  step <- read (get_num "step") ;;
  modify (take_frame (argsort (combine names step))) ;;;
  names <- read (get_obj "nameOrig") ;;
  amount <- read (get_num "amount") ;;
  assign "rolling_mean_amount"
    (NumCol (rolling rolling_window nanmean names amount)) ;;;
  names <- read (get_obj "nameOrig") ;;
  amount <- read (get_num "amount") ;;
  assign "rolling_max_amount"
    (NumCol (rolling rolling_window nanmax names amount)).

(** Tables live in a store and are passed by reference. *)
Definition ref := nat.
Definition heap := ref -> DataFrame.

Definition update (h : heap) (r : ref) (df : DataFrame) : heap :=
  fun r' => if Nat.eqb r' r then df else h r'.

Record FeatureBuilder := { features : option ref }.

Definition __init__ : FeatureBuilder := {| features := None |}.

Inductive message :=
| Built (records : nat)
| Error (e : exn).

Definition body : M unit :=
  _add_transaction_features ;;;
  _add_customer_features ;;;
  _add_velocity_features ;;;
  _add_rolling_features.

(** [self.features = cleaned_data] binds the very table the caller
    passed, and every later statement works on it. *)
Definition build_features (self : FeatureBuilder) (cleaned_data : ref) (h : heap)
    : FeatureBuilder * heap * (bool * message) :=
  let self' := {| features := Some cleaned_data |} in
  match body (h cleaned_data) with
  | (df, Ok _) => (self', update h cleaned_data df, (true, Built (nrows df)))
  | (df, Raise e) => (self', update h cleaned_data df, (false, Error e))
  end.

Definition get_features (self : FeatureBuilder) : option ref := features self.

End FeatureBuilder.

(** ** [Models/risk_scorer.py] *)

Module RiskScorer.
Import Pandas.

Section Scorer.

(** The square root of numpy, used by [Series.std] and by
    [scipy.stats.zscore]. *)
Variable sqrt : Q -> Q.

Record RiskScorer := {
  risk_scores : option DataFrame;
  z_score_threshold : Q;
  risk_bands : list (string * (Q * Q));
  _risk_features : list string
}.

Definition default_z_score_threshold : Q := 2.

Definition __init__ (z_score_threshold : Q) : RiskScorer :=
  {| risk_scores := None;
     z_score_threshold := z_score_threshold;
     risk_bands :=
       [ ("Low", (0, 25)); ("Medium", (25, 50));
         ("High", (50, 75)); ("Critical", (75, 100)) ];
     _risk_features :=
       [ "amount"; "balance_ratio_orig"; "is_full_drain";
         "trns_count_customer"; "trns_total_customer"; "trns_avg_customer";
         "trns_max_customer"; "daily_trns_velocity";
         "rolling_mean_amount"; "rolling_max_amount" ] |}.

Definition set_risk_scores (self : RiskScorer) (df : DataFrame) : RiskScorer :=
  {| risk_scores := Some df;
     z_score_threshold := z_score_threshold self;
     risk_bands := risk_bands self;
     _risk_features := _risk_features self |}.

Inductive message :=
| NoFeatures
| Scored (customers high_risk : nat)
| Error (e : exn).

(** *** Step 1: aggregation to customer level *)

Inductive aggfunc := AggSum | AggMean.

Definition agg (how : aggfunc) (g : list num) : num :=
  match how with
  | AggSum => Some (nansum g)
  | AggMean => nanmean g
  end.

Definition mem (s : string) (l : list string) : bool := existsb (String.eqb s) l.

Fixpoint mapM {A B} (f : A -> result B) (l : list A) : result (list B) :=
  match l with
  | [] => Ok []
  | a :: r => rbind (f a) (fun b => rbind (mapM f r) (fun bs => Ok (b :: bs)))
  end.

(** [df.groupby(key).agg(agg_dict).reset_index()]: one row per distinct
    key, keys ascending; the key column comes first, then the
    aggregated columns in the order of [agg_dict].  An empty [agg_dict]
    makes pandas raise. *)
Definition groupby_agg (key : string) (agg_dict : list (string * aggfunc))
    (df : DataFrame) : result DataFrame :=
  rbind (get_obj key df) (fun keys =>
    match agg_dict with
    | [] => Raise (ValueError "No objects to concatenate")
    | _ =>
        let groups := unique_sorted keys in
        rbind
          (mapM (fun ch =>
                   rbind (get_num (fst ch) df) (fun xs =>
                     Ok (fst ch,
                         NumCol (map (fun k =>
                                        agg (snd ch) (group_of String.eqb k keys xs))
                                     groups))))
                agg_dict)
          (fun cols => Ok ((key, ObjCol groups) :: cols))
    end).

Definition sum_columns : list string :=
  [ "is_full_drain"; "trns_count_customer"; "daily_trns_velocity" ].

Definition _aggregate_to_customer (features : DataFrame) : result DataFrame :=
  if negb (has_col "nameOrig" features) then Ok features
  else
    let numeric_cols := select_dtypes_number features in
    let agg_dict :=
      map (fun col => (col, if mem col sum_columns then AggSum else AggMean))
          numeric_cols in
    groupby_agg "nameOrig" agg_dict features.

(** *** Step 2: the features that can be scored *)

(** [Series.std()]: the sample standard deviation (ddof=1) of the
    non-missing cells, NaN when fewer than two are present. *)
Definition std (xs : list num) : num :=
  let v := dropna xs in
  if (length v <? 2)%nat then None
  else Some (sqrt (sqdev v / Qofnat (length v - 1))).

Definition eligible (df : DataFrame) (feature : string) : bool :=
  mem feature (select_dtypes_number df) &&
  match lookup feature df with
  | Some (NumCol xs) => num_gt (std xs) 0
  | _ => false
  end.

Definition _get_available_features (self : RiskScorer) (df : DataFrame)
    : list string :=
  filter (eligible df) (_risk_features self).

(** *** Step 3: z-scores *)

(** [scipy.stats.zscore(a)] with its default [ddof=0]: the population
    standard deviation.  With a zero deviation every cell equals the
    mean and the quotient 0/0 is NaN. *)
Definition pstd (a : list Q) : Q := sqrt (sqdev a / Qofnat (length a)).

Definition zscore (a : list Q) : list num :=
  let m := Qmean a in
  let s := pstd a in
  if Qeq_bool s 0 then map (fun _ => None) a
  else map (fun x => Some ((x - m) / s)) a.

Fixpoint _compute_z_scores (features : list string) : M unit :=
  match features with
  | [] => ret tt
  | feature :: rest =>
      col <- read (get_num feature) ;;
      let col_data := fillna 0 col in
      assign (feature ++ "_zscore") (NumCol (zscore col_data)) ;;;
      _compute_z_scores rest
  end.

(** *** Step 4: composite score and risk score *)

(** [c.endswith(suffix)] *)
Definition endswith (suffix c : string) : bool :=
  let n := String.length c in
  let m := String.length suffix in
  (m <=? n)%nat && String.eqb (substring (n - m) m c) suffix.

(** The cells of row [i] in the given columns. *)
Definition row_of (cols : list (list num)) (i : nat) : list num :=
  map (fun c => nth i c None) cols.

(** [df[z_cols].abs().mean(axis=1)] *)
Definition abs_row_mean (cols : list (list num)) (n : nat) : list num :=
  map (fun i => nanmean (map (num_map Qabs) (row_of cols i))) (seq 0 n).

Definition num_gtn (x y : num) : bool :=
  match x, y with Some a, Some b => Qltb b a | _, _ => false end.

Definition rescale (min_val max_val : num) (c : num) : num :=
  num_map2 Qmult
    (num_map2 Qdiv (num_map2 Qminus c min_val) (num_map2 Qminus max_val min_val))
    (Some 100).

Definition _compute_final_score : M unit :=
  fun df =>
    let z_cols := filter (endswith "_zscore") (columns df) in
    let n := nrows df in
    match z_cols with
    | [] =>
        (assign "composite_zscore" (NumCol (repeat (Some 0) n)) ;;;
         assign "risk_score" (NumCol (repeat (Some 0) n))) df
    | _ =>
        (zs <- read (fun df => mapM (fun c => get_num c df) z_cols) ;;
         assign "composite_zscore" (NumCol (abs_row_mean zs n)) ;;;
         composite <- read (get_num "composite_zscore") ;;
         let min_val := nanmin composite in
         let max_val := nanmax composite in
         if num_gtn max_val min_val then
           assign "risk_score" (NumCol (map (rescale min_val max_val) composite))
         else
           assign "risk_score" (NumCol (repeat (Some 50) n))) df
    end.

(** *** Step 5: risk bands *)

(** The first band, in the order of the dictionary, whose half-open
    interval holds the score; [Critical] when none does. *)
Fixpoint get_band (bands : list (string * (Q * Q))) (score : num) : string :=
  match bands with
  | [] => "Critical"
  | (band, (low, high)) :: rest =>
      if num_ge score low && num_lt score high then band
      else get_band rest score
  end.

Definition _assign_risk_bands (self : RiskScorer) : M unit :=
  risk <- read (get_num "risk_score") ;;
  assign "risk_band" (ObjCol (map (get_band (risk_bands self)) risk)).

(** *** Step 6: anomalies *)

Definition _flag_anomalies (self : RiskScorer) : M unit :=
  composite <- read (get_num "composite_zscore") ;;
  assign "is_anomaly"
    (NumCol (map (fun c => Some (if num_gt c (z_score_threshold self)
                                 then 1 else 0)) composite)).

Definition scoring (self : RiskScorer) (available_features : list string)
    : M nat :=
  _compute_z_scores available_features ;;;
  _compute_final_score ;;;
  _assign_risk_bands self ;;;
  _flag_anomalies self ;;;
  bands <- read (get_obj "risk_band") ;;
  ret (length (filter (fun b => mem b ["High"; "Critical"]) bands)).

Definition compute_risk_scores (self : RiskScorer) (features : DataFrame)
    : RiskScorer * (bool * message) :=
  match _aggregate_to_customer features with
  | Raise e => (self, (false, Error e))
  | Ok customer_data =>
      let self1 := set_risk_scores self customer_data in
      match _get_available_features self1 customer_data with
      | [] => (self1, (false, NoFeatures))
      | available_features =>
          match scoring self1 available_features customer_data with
          | (df, Ok high_risk_count) =>
              (set_risk_scores self df,
               (true, Scored (nrows df) high_risk_count))
          | (df, Raise e) => (set_risk_scores self df, (false, Error e))
          end
      end
  end.

Definition project (names : list string) (df : DataFrame) : DataFrame :=
  flat_map (fun c => match lookup c df with
                     | Some col => [(c, col)]
                     | None => []
                     end) names.

Definition get_risk_scores (self : RiskScorer) : option DataFrame :=
  match risk_scores self with
  | None => None
  | Some df =>
      Some (project [ "nameOrig"; "composite_zscore"; "risk_score";
                      "risk_band"; "is_anomaly" ] df)
  end.

Definition get_full_data (self : RiskScorer) : option DataFrame :=
  risk_scores self.

End Scorer.

End RiskScorer.

(** ** [Models/transaction_flagger.py] *)

Module TransactionFlagger.
Import Pandas.

Record Summary := {
  total_transactions : nat;
  flagged_transactions : nat;
  flagged_percentage : Q;
  by_risk_band : list (string * nat);
  risk_threshold_used : Q;
  anomalies : Z
}.

(** [_summary] is [None] for the empty dictionary the object starts
    with. *)
Record TransactionFlagger := {
  flagged_data : option DataFrame;
  risk_threshold : Q;
  _summary : option Summary;
  _is_flagged : bool
}.

Definition default_risk_threshold : Q := 50.

Definition __init__ (risk_threshold : Q) : TransactionFlagger :=
  {| flagged_data := None;
     risk_threshold := risk_threshold;
     _summary := None;
     _is_flagged := false |}.

Inductive message :=
| Flagged (flagged_count total : nat)
| Error (e : exn).

(** *** Python dictionaries keyed by strings *)

Definition dict (V : Type) : Type := list (string * V).

Fixpoint dict_set {V} (k : string) (v : V) (d : dict V) : dict V :=
  match d with
  | [] => [(k, v)]
  | (k', v') :: r =>
      if String.eqb k' k then (k', v) :: r else (k', v') :: dict_set k v r
  end.

Fixpoint dict_get {V} (k : string) (d : dict V) : option V :=
  match d with
  | [] => None
  | (k', v) :: r => if String.eqb k' k then Some v else dict_get k r
  end.

(** [dict(zip(keys, vals))]: a later pair overrides an earlier one with
    the same key. *)
Definition dict_zip {V} (keys : list string) (vals : list V) : dict V :=
  fold_left (fun d kv => dict_set (fst kv) (snd kv) d) (combine keys vals) [].

(** [names.map(d).fillna(default)] for a numeric and for an object
    column: a name the dictionary lacks gives a missing value, which
    [fillna] then replaces. *)
Definition map_fillna_num (d : dict num) (default : Q) (names : list string)
    : list num :=
  map (fun n => match dict_get n d with
                | Some (Some q) => Some q
                | _ => Some default
                end) names.

Definition map_fillna_obj (d : dict string) (default : string)
    (names : list string) : list string :=
  map (fun n => match dict_get n d with
                | Some s => s
                | None => default
                end) names.

(** [round(x, 2)], ties to even, and [int(x)], towards zero. *)
Definition round_half_even (q : Q) : Z :=
  let f := Qfloor q in
  match Qcompare (q - inject_Z f) (1 # 2) with
  | Lt => f
  | Gt => (f + 1)%Z
  | Eq => if Z.even f then f else (f + 1)%Z
  end.

Definition round2 (q : Q) : Q := inject_Z (round_half_even (q * 100)) / 100.

Definition int (q : Q) : Z := Z.quot (Qnum q) (Zpos (Qden q)).

Definition count_true (bs : list bool) : nat := length (filter (fun b => b) bs).

Definition count_eq (s : string) (ss : list string) : nat :=
  length (filter (String.eqb s) ss).

Definition flagging (self : TransactionFlagger) (risk_scores : DataFrame)
    : M Summary :=
  ids <- read (fun _ => get_obj "nameOrig" risk_scores) ;;
  scores <- read (fun _ => get_num "risk_score" risk_scores) ;;
  let score_map := dict_zip ids scores in
  ids <- read (fun _ => get_obj "nameOrig" risk_scores) ;;
  bands <- read (fun _ => get_obj "risk_band" risk_scores) ;;
  let band_map := dict_zip ids bands in
  ids <- read (fun _ => get_obj "nameOrig" risk_scores) ;;
  anoms <- read (fun _ => get_num "is_anomaly" risk_scores) ;;
  let anomaly_map := dict_zip ids anoms in
  names <- read (get_obj "nameOrig") ;;
  assign "risk_score" (NumCol (map_fillna_num score_map 0 names)) ;;;
  names <- read (get_obj "nameOrig") ;;
  assign "risk_band" (ObjCol (map_fillna_obj band_map "Low" names)) ;;;
  names <- read (get_obj "nameOrig") ;;
  assign "is_anomaly" (NumCol (map_fillna_num anomaly_map 0 names)) ;;;
  risk <- read (get_num "risk_score") ;;
  assign "is_flagged"
    (BoolCol (map (fun r => num_ge r (risk_threshold self)) risk)) ;;;
  total <- read (fun df => Ok (nrows df)) ;;
  flags <- read (fun df => rbind (getitem "is_flagged" df)
                             (fun c => match c with
                                       | BoolCol bs => Ok bs
                                       | _ => Raise (TypeError "is_flagged")
                                       end)) ;;
  let flagged_count := count_true flags in
  band <- read (get_obj "risk_band") ;;
  anomaly <- read (get_num "is_anomaly") ;;
  ret {| total_transactions := total;
         flagged_transactions := flagged_count;
         flagged_percentage :=
           if (0 <? total)%nat
           then round2 (Qofnat flagged_count / Qofnat total * 100)
           else 0;
         by_risk_band :=
           [ ("Critical", count_eq "Critical" band);
             ("High", count_eq "High" band);
             ("Medium", count_eq "Medium" band) ];
         risk_threshold_used := risk_threshold self;
         anomalies := int (nansum anomaly) |}.

Definition flag_transactions (self : TransactionFlagger)
    (transactions risk_scores : DataFrame)
    : TransactionFlagger * (bool * message) :=
  match flagging self risk_scores transactions with
  | (df, Ok summary) =>
      ({| flagged_data := Some df;
          risk_threshold := risk_threshold self;
          _summary := Some summary;
          _is_flagged := true |},
       (true, Flagged (flagged_transactions summary) (total_transactions summary)))
  | (df, Raise e) =>
      ({| flagged_data := Some df;
          risk_threshold := risk_threshold self;
          _summary := _summary self;
          _is_flagged := false |},
       (false, Error e))
  end.

Definition is_flagged (self : TransactionFlagger) : bool := _is_flagged self.

Definition get_flag_summary (self : TransactionFlagger) : option Summary :=
  _summary self.

End TransactionFlagger.

(** ** Row selection: boolean masks, [head], descending sort *)

Module Selection.
Import Pandas.

(** [s[mask]]: the cells on the rows where the mask holds. *)
Definition mask_rows {A : Type} (mask : list bool) (l : list A) : list A :=
  map snd (filter fst (combine mask l)).

(** An operation on rows, applied to every column of a table. *)
Definition on_cells (f : forall A : Type, list A -> list A) (c : column)
    : column :=
  match c with
  | NumCol xs => NumCol (f _ xs)
  | BoolCol bs => BoolCol (f _ bs)
  | ObjCol ss => ObjCol (f _ ss)
  end.

Definition on_rows (f : forall A : Type, list A -> list A) (df : DataFrame)
    : DataFrame :=
  map (fun p => (fst p, on_cells f (snd p))) df.

(** [df[mask]] *)
Definition mask_frame (mask : list bool) (df : DataFrame) : DataFrame :=
  on_rows (fun A => mask_rows mask) df.

(** [df.head(n)]: the first [n] rows, and all rows but the last [-n]
    when [n] is negative. *)
Definition head_count (n : Z) (len : nat) : nat :=
  if (n <? 0)%Z then len - Z.to_nat (- n) else Z.to_nat n.

Definition head (n : Z) (df : DataFrame) : DataFrame :=
  on_rows (fun A => firstn (head_count n (nrows df))) df.

(** The order of [sort_values(..., ascending=False)]: larger values
    first, NaN last. *)
Definition desc_leb (x y : num) : bool :=
  match x, y with
  | Some a, Some b => Qle_bool b a
  | _, None => true
  | None, Some _ => false
  end.

(** The row positions in descending order of [xs].  pandas does not
    say in which order it leaves rows with equal values; here they keep
    the order they had. *)
Definition argsort_desc (xs : list num) : list nat :=
  map snd
    (sort_by (fun a b => desc_leb (fst a) (fst b))
       (combine xs (seq 0 (length xs)))).

End Selection.

(** ** [Models/risk_scorer.py]: what is read off the customer table *)

Module RiskReports.
Import Pandas Selection.

Definition high_bands : list string := [ "High"; "Critical" ].

(** [get_high_risk_customers]: the customers in band High or Critical,
    by descending risk score; an empty table before any run. *)
Definition get_high_risk_customers (self : RiskScorer.RiskScorer)
    : result DataFrame :=
  match RiskScorer.risk_scores self with
  | None => Ok []
  | Some df =>
      rbind (get_obj "risk_band" df) (fun bands =>
        let mask := map (fun b => RiskScorer.mem b high_bands) bands in
        let high := mask_frame mask df in
        rbind (get_num "risk_score" high) (fun risk =>
          Ok (take_frame (argsort_desc risk) high)))
  end.

Record BandEntry := {
  count : nat;
  percent : Q
}.

Record RiskSummary := {
  total_customers : nat;
  anomalies : Z;
  bands : list (string * BandEntry)
}.

Definition band_names : list string := [ "Low"; "Medium"; "High"; "Critical" ].

(** [get_risk_summary]: [None] stands for the empty dictionary returned
    before any run. *)
Definition get_risk_summary (self : RiskScorer.RiskScorer)
    : result (option RiskSummary) :=
  match RiskScorer.risk_scores self with
  | None => Ok None
  | Some df =>
      let total := nrows df in
      rbind (get_obj "risk_band" df) (fun risk_band =>
        rbind (get_num "is_anomaly" df) (fun is_anomaly =>
          Ok (Some
            {| total_customers := total;
               anomalies := TransactionFlagger.int (nansum is_anomaly);
               bands :=
                 map (fun band =>
                        let n := TransactionFlagger.count_eq band risk_band in
                        (band,
                         {| count := n;
                            percent :=
                              if (0 <? total)%nat
                              then TransactionFlagger.round2
                                     (Qofnat n / Qofnat total * 100)
                              else 0 |}))
                     band_names |})))
  end.

End RiskReports.

(** ** [Models/transaction_flagger.py]: what is read off the flagged table *)

Module FlaggedRows.
Import Pandas Selection TransactionFlagger.

(** [column == 1]: on a bool column the cells that are [True]. *)
Definition eq_one (c : column) : list bool :=
  match c with
  | BoolCol bs => bs
  | NumCol xs => map (fun x => num_eq x 1) xs
  | ObjCol ss => map (fun _ => false) ss
  end.

Definition default_max_rows : Z := 10000.

(** [get_flagged_transactions]: [None] before any run; the flagged
    rows, cut to [max_rows] when there are more. *)
Definition get_flagged_transactions (self : TransactionFlagger) (max_rows : Z)
    : result (option DataFrame) :=
  match flagged_data self with
  | None => Ok None
  | Some df =>
      rbind (getitem "is_flagged" df) (fun c =>
        let flagged := mask_frame (eq_one c) df in
        if (max_rows <? Z.of_nat (nrows flagged))%Z
        then Ok (Some (head max_rows flagged))
        else Ok (Some flagged))
  end.

Definition get_flagged_count (self : TransactionFlagger) : result Z :=
  match flagged_data self with
  | None => Ok 0%Z
  | Some df =>
      rbind (getitem "is_flagged" df) (fun c =>
        match c with
        | BoolCol bs => Ok (Z.of_nat (count_true bs))
        | NumCol xs => Ok (int (nansum xs))
        | ObjCol _ => Raise (TypeError "is_flagged")
        end)
  end.

End FlaggedRows.

(** ** [Models/transaction_cleaner.py] *)

Module TransactionCleaner.
Import Pandas Selection.

(** The three counters of a cleaner. *)
Record Counters := {
  missing_value_count : Z;
  duplicate_count : Z;
  invalid_value_count : Z
}.

Definition __init__ : Counters :=
  {| missing_value_count := 0;
     duplicate_count := 0;
     invalid_value_count := 0 |}.

(** One cell of a row, whatever the dtype of its column. *)
Inductive cell :=
| CNum (x : num)
| CBool (b : bool)
| CObj (s : string).

Definition cell_at (c : column) (i : nat) : cell :=
  match c with
  | NumCol xs => CNum (nth i xs None)
  | BoolCol bs => CBool (nth i bs false)
  | ObjCol ss => CObj (nth i ss EmptyString)
  end.

Definition row (df : DataFrame) (i : nat) : list cell :=
  map (fun p => cell_at (snd p) i) df.

(** Two cells are duplicates of each other when they hold the same
    value; two missing values count as the same. *)
Definition cell_eqb (a b : cell) : bool :=
  match a, b with
  | CNum (Some x), CNum (Some y) => Qeq_bool x y
  | CNum None, CNum None => true
  | CBool x, CBool y => Bool.eqb x y
  | CObj x, CObj y => String.eqb x y
  | _, _ => false
  end.

Fixpoint row_eqb (r r' : list cell) : bool :=
  match r, r' with
  | [], [] => true
  | a :: t, b :: t' => cell_eqb a b && row_eqb t t'
  | _, _ => false
  end.

(** [df.duplicated()]: a row is marked when an earlier row equals it. *)
Definition duplicated (df : DataFrame) : list bool :=
  map (fun i => existsb (fun j => row_eqb (row df j) (row df i)) (seq 0 i))
      (seq 0 (nrows df)).

(** [df.drop_duplicates()]: the first row of every set of equal rows. *)
Definition drop_duplicates (df : DataFrame) : DataFrame :=
  mask_frame (map negb (duplicated df)) df.

(** [_remove_duplicates]: the counter is set, not added to. *)
Definition _remove_duplicates (self : Counters) : M Counters :=
  fun df =>
    let initial_count := nrows df in
    let df' := drop_duplicates df in
    (df',
     Ok {| missing_value_count := missing_value_count self;
           duplicate_count := Z.of_nat initial_count - Z.of_nat (nrows df');
           invalid_value_count := invalid_value_count self |}).

(** [_handle_invalid_values]: a negative amount becomes 0; the counter
    is added to, so it runs on from one cleaning to the next. *)
Definition _handle_invalid_values (self : Counters) : M Counters :=
  fun df =>
    if has_col "amount" df then
      (amount <- read (get_num "amount") ;;
       let negative_mask := map (fun x => num_lt x 0) amount in
       let negative_count := TransactionFlagger.count_true negative_mask in
       let self' :=
         {| missing_value_count := missing_value_count self;
            duplicate_count := duplicate_count self;
            invalid_value_count :=
              invalid_value_count self + Z.of_nat negative_count |} in
       if (0 <? negative_count)%nat then
         assign "amount"
           (NumCol (map (fun x => if num_lt x 0 then Some 0 else x) amount)) ;;;
         ret self'
       else ret self') df
    else (df, Ok self).

End TransactionCleaner.

(** ** [Models/data_manager.py] *)

Module DataManager.
Import Pandas.

Record DataManager := {
  raw_data : option DataFrame;
  is_loaded : bool;
  required_columns : list string;
  _validation_errors : list string
}.

Definition __init__ : DataManager :=
  {| raw_data := None;
     is_loaded := false;
     required_columns :=
       [ "step"; "type"; "amount"; "nameOrig";
         "oldbalanceOrg"; "newbalanceOrig"; "nameDest";
         "oldbalanceDest"; "newbalanceDest"; "isFraud";
         "isFlaggedFraud" ];
     _validation_errors := [] |}.

Definition set_errors (self : DataManager) (errors : list string) : DataManager :=
  {| raw_data := raw_data self;
     is_loaded := is_loaded self;
     required_columns := required_columns self;
     _validation_errors := errors |}.

Definition is_nil {A : Type} (l : list A) : bool :=
  match l with [] => true | _ => false end.

Definition validate_data (self : DataManager)
    : DataManager * (bool * list string) :=
  match is_loaded self, raw_data self with
  | true, Some df =>
      let missing_columns :=
        filter (fun col => negb (has_col col df)) (required_columns self) in
      let errors1 :=
        if is_nil missing_columns then []
        else [ ("Missing required columns: "
                ++ String.concat ", " missing_columns)%string ] in
      let errors :=
        if (nrows df =? 0)%nat then errors1 ++ [ "Dataset is empty" ]
        else errors1 in
      (set_errors self errors, (is_nil errors, errors))
  | _, _ =>
      let errors := [ "No data loaded" ] in
      (set_errors self errors, (false, errors))
  end.

End DataManager.

(** ** [Controllers/controller.py]: the progress flags

    The controller keeps a dictionary of five flags and updates it from
    the outcome of each stage.  What the stage itself does to the tables
    is the business of the modules above; here the outcome of a stage
    call, success or failure, is an input. *)

Module MainController.
Import Pandas.

Definition State := TransactionFlagger.dict bool.

Definition initial_state : State :=
  [ ("data_loaded", false);
    ("data_cleaned", false);
    ("features_built", false);
    ("customers_scored", false);
    ("transactions_flagged", false) ].

(** [self.state[key]] *)
Definition flag (key : string) (st : State) : bool :=
  match TransactionFlagger.dict_get key st with
  | Some b => b
  | None => false
  end.

Definition order : list string :=
  [ "data_loaded"; "data_cleaned"; "features_built";
    "customers_scored"; "transactions_flagged" ].

(** [order.index(x)], [None] where Python raises [ValueError]. *)
Fixpoint index (x : string) (l : list string) : option nat :=
  match l with
  | [] => None
  | y :: r =>
      if String.eqb y x then Some O
      else match index x r with
           | Some n => Some (S n)
           | None => None
           end
  end.

Definition _reset_downstream (from_state : string) (st : State) : State :=
  match index from_state order with
  | Some pos =>
      fold_left (fun st state => TransactionFlagger.dict_set state false st)
                (skipn (S pos) order) st
  | None => st
  end.

(** A stage that succeeded: its flag is raised and every later flag is
    lowered. *)
Definition done (stage : string) (st : State) : State :=
  _reset_downstream stage (TransactionFlagger.dict_set stage true st).

Definition load_dataset (success : bool) (st : State) : State :=
  if negb success then st else done "data_loaded" st.

Definition clean_data (success : bool) (st : State) : State :=
  if negb (flag "data_loaded" st) then st
  else if negb success then st
  else done "data_cleaned" st.

Definition build_features (success : bool) (st : State) : State :=
  if negb (flag "data_cleaned" st) then st
  else if negb success then st
  else done "features_built" st.

Definition score_customers (success : bool) (st : State) : State :=
  if negb (flag "features_built" st) then st
  else if negb success then st
  else done "customers_scored" st.

Definition flag_transactions (success : bool) (st : State) : State :=
  if negb (flag "customers_scored" st) then st
  else if negb success then st
  else TransactionFlagger.dict_set "transactions_flagged" true st.

(** Whether [export_reports] gets as far as generating the reports. *)
Definition export_reports (is_flagged : bool) (st : State) : bool :=
  if negb (flag "transactions_flagged" st) then false
  else if negb is_flagged then false
  else true.

(** A call of one of the stage methods, with the outcome of the stage. *)
Inductive call :=
| LoadDataset (success : bool)
| CleanData (success : bool)
| BuildFeatures (success : bool)
| ScoreCustomers (success : bool)
| FlagTransactions (success : bool).

Definition step (st : State) (c : call) : State :=
  match c with
  | LoadDataset ok => load_dataset ok st
  | CleanData ok => clean_data ok st
  | BuildFeatures ok => build_features ok st
  | ScoreCustomers ok => score_customers ok st
  | FlagTransactions ok => flag_transactions ok st
  end.

Definition run (calls : list call) : State := fold_left step calls initial_state.

End MainController.

(** ** Definitions used to state the properties *)

Module Spec.
Import Pandas.

(** The bands of a scorer as [RiskScorer.__init__] sets them. *)
Definition default_bands : list (string * (Q * Q)) :=
  RiskScorer.risk_bands (RiskScorer.__init__ RiskScorer.default_z_score_threshold).

(** A cell after [fillna(0)]. *)
Definition or0 (x : num) : Q := match x with Some q => q | None => 0 end.

Import FeatureBuilder.

(** The table a successful run leaves behind, given the columns it
    read from the table it was handed. *)
Definition with_row_features (names : list string)
    (steps amounts olds news : list num) (df : DataFrame) : DataFrame :=
  let day := map (num_map floordiv24) steps in
  setitem "daily_trns_velocity" (NumCol (daily_count names day amounts))
  (setitem "day" (NumCol day)
  (setitem "trns_max_customer" (NumCol (transform String.eqb nanmax names amounts))
  (setitem "trns_avg_customer" (NumCol (transform String.eqb nanmean names amounts))
  (setitem "trns_total_customer"
     (NumCol (transform String.eqb (fun g => Some (nansum g)) names amounts))
  (setitem "trns_count_customer"
     (NumCol (transform String.eqb (fun g => Some (Qofnat (count g))) names amounts))
  (setitem "hour_of_day" (NumCol (map (num_map mod24) steps))
  (setitem "is_full_drain" (BoolCol (map2 full_drain olds news))
  (setitem "balance_ratio_orig" (NumCol (map2 balance_ratio olds amounts))
     df)))))))).

Definition sorted_names (names : list string) (steps : list num) : list string :=
  take_rows EmptyString (argsort (combine names steps)) names.

Definition sorted_steps (names : list string) (steps : list num) : list num :=
  take_rows None (argsort (combine names steps)) steps.

Definition sorted_amounts (names : list string) (steps amounts : list num)
    : list num :=
  take_rows None (argsort (combine names steps)) amounts.

Definition feature_frame (names : list string)
    (steps amounts olds news : list num) (df : DataFrame) : DataFrame :=
  let names' := sorted_names names steps in
  let amounts' := sorted_amounts names steps amounts in
  setitem "rolling_max_amount"
    (NumCol (rolling rolling_window nanmax names' amounts'))
  (setitem "rolling_mean_amount"
    (NumCol (rolling rolling_window nanmean names' amounts'))
  (take_frame (argsort (combine names steps))
     (with_row_features names steps amounts olds news df))).

Definition sorted_pairs (keys : list (string * num))
    : list ((string * num) * nat) :=
  sort_by (fun a b => key_leb (fst a) (fst b))
    (combine keys (seq 0 (length keys))).

Definition key_le (a b : string * num) : Prop := key_leb a b = true.
Definition str_le (a b : string) : Prop := str_leb a b = true.

(** The amounts, most recent first, of the rows among the last [w] rows
    up to and including row [i] that belong to the originator of row
    [i]. *)
Definition trailing_window (w : nat) (names : list string)
    (amounts : list num) (i : nat) : list num :=
  map snd
    (filter (fun p => String.eqb (fst p) (nth i names EmptyString))
       (firstn w (rev (firstn (S i) (combine names amounts))))).

(** What a successful [build_features] makes of the table [input]: the
    rows of [output] are those of [input] taken in another order, that
    order is ascending in (originator, step), and the two rolling
    columns hold the mean and the maximum of the trailing window. *)
Definition sorted_with_rolling (input output : DataFrame) : Prop :=
  exists names0 steps0 amounts0 idx names steps amounts rmean rmax,
    lookup "nameOrig" input = Some (ObjCol names0) /\
    lookup "step" input = Some (NumCol steps0) /\
    lookup "amount" input = Some (NumCol amounts0) /\
    lookup "nameOrig" output = Some (ObjCol names) /\
    lookup "step" output = Some (NumCol steps) /\
    lookup "amount" output = Some (NumCol amounts) /\
    lookup "rolling_mean_amount" output = Some (NumCol rmean) /\
    lookup "rolling_max_amount" output = Some (NumCol rmax) /\
    Permutation idx (seq 0 (length (combine names0 steps0))) /\
    names = take_rows EmptyString idx names0 /\
    steps = take_rows None idx steps0 /\
    amounts = take_rows None idx amounts0 /\
    StronglySorted key_le (combine names steps) /\
    length rmean = length names /\
    length rmax = length names /\
    forall i, (i < length names)%nat ->
      nth_error rmean i
        = Some (nanmean (trailing_window rolling_window names amounts i)) /\
      nth_error rmax i
        = Some (nanmax (trailing_window rolling_window names amounts i)).

(** Reading one cell of a table. *)
Definition num_at (df : DataFrame) (name : string) (i : nat) : num :=
  match lookup name df with
  | Some (NumCol xs) => nth i xs None
  | _ => None
  end.

Definition obj_at (df : DataFrame) (name : string) (i : nat) : option string :=
  match lookup name df with
  | Some (ObjCol ss) => nth_error ss i
  | _ => None
  end.

Definition cell_is (x : num) (q : Q) : Prop :=
  match x with Some v => v == q | None => False end.

(** What every row of a feature table satisfies: the rolling maximum is
    at least the amount of the row and at least the rolling mean.  A row
    whose amount is missing either has both rolling values missing (no
    amount is present in its window) or has both, the mean at most the
    maximum. *)
Definition rolling_bounds (output : DataFrame) : Prop :=
  exists amounts rmean rmax,
    lookup "amount" output = Some (NumCol amounts) /\
    lookup "rolling_mean_amount" output = Some (NumCol rmean) /\
    lookup "rolling_max_amount" output = Some (NumCol rmax) /\
    length rmean = length amounts /\
    length rmax = length amounts /\
    (forall i a, nth_error amounts i = Some (Some a) ->
       exists m mu,
         nth_error rmax i = Some (Some m) /\
         nth_error rmean i = Some (Some mu) /\
         a <= m /\ mu <= m) /\
    (forall i, (i < length amounts)%nat ->
       (nth_error rmax i = Some None /\ nth_error rmean i = Some None) \/
       (exists m mu,
          nth_error rmax i = Some (Some m) /\
          nth_error rmean i = Some (Some mu) /\ mu <= m)).

(** The columns [build_features] adds. *)
Definition derived_columns : list string :=
  [ "balance_ratio_orig"; "is_full_drain"; "hour_of_day";
    "trns_count_customer"; "trns_total_customer"; "trns_avg_customer";
    "trns_max_customer"; "day"; "daily_trns_velocity";
    "rolling_mean_amount"; "rolling_max_amount" ].

(** The number of flagged rows in a band. *)
Definition flagged_in_band (band : string) (flags : list bool)
    (bands : list string) : nat :=
  length (filter (fun p => fst p && String.eqb band (snd p))
            (combine flags bands)).

(** *** Scoring *)

(** The name of the z-score column of a feature. *)
Definition zname (feature : string) : string := (feature ++ "_zscore")%string.

(** The columns [_compute_final_score] averages. *)
Definition zcols (df : DataFrame) : list string :=
  filter (RiskScorer.endswith "_zscore") (columns df).

(** Every column whose name ends in [_zscore] is numeric. *)
Definition numeric_z (df : DataFrame) : Prop :=
  forall c col, lookup c df = Some col ->
    RiskScorer.endswith "_zscore" c = true -> is_number col = true.

(** The risk scores computed from the composite scores of [n] rows. *)
Definition risk_of (composite : list num) (n : nat) : list num :=
  let min_val := nanmin composite in
  let max_val := nanmax composite in
  if RiskScorer.num_gtn max_val min_val
  then map (RiskScorer.rescale min_val max_val) composite
  else repeat (Some 50) n.

(** The table at the end of a scoring run that computed the z-score
    columns [zs] on the table [df1]. *)
Definition scored_frame (self : RiskScorer.RiskScorer) (df1 : DataFrame)
    (zs : list (list num)) : DataFrame :=
  let n := nrows df1 in
  let composite := RiskScorer.abs_row_mean zs n in
  let risk := risk_of composite n in
  setitem "is_anomaly"
    (NumCol (map (fun c => Some (if num_gt c (RiskScorer.z_score_threshold self)
                                 then 1 else 0)) composite))
  (setitem "risk_band"
    (ObjCol (map (RiskScorer.get_band (RiskScorer.risk_bands self)) risk))
  (setitem "risk_score" (NumCol risk)
  (setitem "composite_zscore" (NumCol composite) df1))).

Definition is_min (lo : Q) (xs : list num) : Prop :=
  In (Some lo) xs /\ forall c, In (Some c) xs -> lo <= c.

Definition is_max (hi : Q) (xs : list num) : Prop :=
  In (Some hi) xs /\ forall c, In (Some c) xs -> c <= hi.

(** The risk scores are the min-max rescaling of the composite scores:
    with two different composite scores in the population every
    customer gets [(composite - min) / (max - min) * 100], which is 0 at
    the minimum and 100 at the maximum; with a single composite score
    everybody gets 50. *)
Definition minmax_rescaled (composite risk : list num) : Prop :=
  length risk = length composite /\
  ((exists a b, In (Some a) composite /\ In (Some b) composite /\ ~ a == b) ->
   exists lo hi,
     is_min lo composite /\ is_max hi composite /\ lo < hi /\
     forall i c, nth_error composite i = Some (Some c) ->
       exists r, nth_error risk i = Some (Some r) /\
         r == (c - lo) / (hi - lo) * 100 /\
         0 <= r <= 100 /\
         (c == lo -> r == 0) /\ (c == hi -> r == 100)) /\
  ((forall a b, In (Some a) composite -> In (Some b) composite -> a == b) ->
   forall r, In r risk -> r = Some 50).

(** *** Z-scores *)

(** What the scorer needs of the square root: it is positive exactly on
    the positive numbers. *)
Definition sqrt_positive (sqrt : Q -> Q) : Prop :=
  forall x, 0 < sqrt x <-> 0 < x.

(** The variance of a whole population: the squared deviations are
    divided by the number of values (ddof=0), not by one less. *)
Definition population_variance (xs : list Q) : Q :=
  sqdev xs / Qofnat (length xs).

(** The z-score of the [i]-th value of a population. *)
Definition population_zscore (sqrt : Q -> Q) (xs : list Q) (i : nat) : Q :=
  (nth i xs 0 - Qmean xs) / sqrt (population_variance xs).

(** The values of a feature over the customers, missing ones counted
    as 0. *)
Definition feature_values (df : DataFrame) (feature : string) : list Q :=
  match lookup feature df with
  | Some (NumCol xs) => fillna 0 xs
  | _ => []
  end.

(** The candidate features as [RiskScorer.__init__] lists them. *)
Definition default_features : list string :=
  RiskScorer._risk_features
    (RiskScorer.__init__ RiskScorer.default_z_score_threshold).

(** The customer table [df] of a run that scored the features [fs]:
    every feature in [fs] has a z-score column holding the population
    z-scores of its values (missing values first replaced by 0), with a
    positive deviation, and the composite score of a customer is the
    mean of the absolute values of that customer's z-scores. *)
Definition zscored (sqrt : Q -> Q) (fs : list string) (df : DataFrame) : Prop :=
  fs <> [] /\
  (forall f, In f fs ->
     exists raw zs,
       lookup f df = Some (NumCol raw) /\
       length raw = nrows df /\
       lookup (zname f) df = Some (NumCol zs) /\
       length zs = nrows df /\
       0 < sqrt (population_variance (fillna 0 raw)) /\
       forall i, (i < nrows df)%nat ->
         nth_error zs i
         = Some (Some (population_zscore sqrt (fillna 0 raw) i))) /\
  exists composite,
    lookup "composite_zscore" df = Some (NumCol composite) /\
    length composite = nrows df /\
    forall i, (i < nrows df)%nat ->
      nth_error composite i
      = Some (Some (Qmean
                      (map (fun f => Qabs (population_zscore sqrt
                                             (feature_values df f) i)) fs))).

End Spec.

(** ** Definitions used to state the properties of the rest of the code *)

Module Props.
Import Pandas.

(** Every column of the table has as many cells as the table has rows,
    as in any table pandas holds. *)
Definition rectangular (df : DataFrame) : bool :=
  forallb (fun p => Nat.eqb (col_len (snd p)) (nrows df)) df.

(** All columns have [n] cells. *)
Definition uniform (n : nat) (df : DataFrame) : Prop :=
  Forall (fun p => col_len (snd p) = n) df.

(** *** Feature building *)

(** The columns [build_features] reads from the table it is handed. *)
Definition numeric_inputs : list string :=
  [ "oldbalanceOrg"; "amount"; "newbalanceOrig"; "step" ].

Definition inputs : list string := numeric_inputs ++ [ "nameOrig" ].

(** The dtypes the loader gives these columns, where they are present. *)
Definition schema (df : DataFrame) : bool :=
  forallb (fun c => match lookup c df with
                    | Some (NumCol _) | None => true
                    | Some _ => false
                    end) numeric_inputs &&
  match lookup "nameOrig" df with
  | Some (ObjCol _) | None => true
  | Some _ => false
  end.

(** The ratio of a transfer to the balance it is taken from: the
    quotient when the balance is positive (missing when the amount is),
    and 0 when the balance is zero, negative or missing. *)
Definition ratio_of (old amount r : num) : Prop :=
  match old with
  | Some o =>
      (0 < o ->
       match amount with
       | Some a => r = Some (a / o)
       | None => r = None
       end) /\
      (o <= 0 -> r = Some 0)
  | None => r = Some 0
  end.

(** A transfer that empties a positive balance. *)
Definition drained (old new : num) : Prop :=
  exists o n, old = Some o /\ new = Some n /\ 0 < o /\ n == 0.

Definition balance_features (out : DataFrame) : Prop :=
  exists olds news amounts ratio drain,
    lookup "oldbalanceOrg" out = Some (NumCol olds) /\
    lookup "newbalanceOrig" out = Some (NumCol news) /\
    lookup "amount" out = Some (NumCol amounts) /\
    lookup "balance_ratio_orig" out = Some (NumCol ratio) /\
    lookup "is_full_drain" out = Some (BoolCol drain) /\
    length ratio = nrows out /\
    length drain = nrows out /\
    forall i old new amount,
      nth_error olds i = Some old ->
      nth_error news i = Some new ->
      nth_error amounts i = Some amount ->
      exists r d,
        nth_error ratio i = Some r /\
        nth_error drain i = Some d /\
        ratio_of old amount r /\
        (d = true <-> drained old new).

(** The step of a row splits into whole days and an hour of the day. *)
Definition clock_features (out : DataFrame) : Prop :=
  exists steps day hour,
    lookup "step" out = Some (NumCol steps) /\
    lookup "day" out = Some (NumCol day) /\
    lookup "hour_of_day" out = Some (NumCol hour) /\
    length day = nrows out /\
    length hour = nrows out /\
    forall i s, nth_error steps i = Some s ->
      match s with
      | Some q =>
          exists d h,
            nth_error day i = Some (Some (inject_Z d)) /\
            nth_error hour i = Some (Some h) /\
            q == 24 * inject_Z d + h /\
            0 <= h < 24
      | None =>
          nth_error day i = Some None /\ nth_error hour i = Some None
      end.

(** The amounts on the rows of originator [name]. *)
Definition amounts_of (name : string) (names : list string)
    (amounts : list num) : list num :=
  group_of String.eqb name names amounts.

(** The amounts on the rows of originator [name] that fall on day [d]. *)
Definition amounts_on (name : string) (d : Q) (names : list string)
    (day amounts : list num) : list num :=
  group_of FeatureBuilder.day_key_eqb (name, Some d) (combine names day) amounts.


(** The daily velocity of a row is the number of amounts present on the
    rows of the same originator and day; it is at least 1 on a row that
    has an amount, and never more than the originator's count.  A row
    without a step has no velocity. *)
Definition velocity_features (out : DataFrame) : Prop :=
  exists names amounts day cnt velocity,
    lookup "nameOrig" out = Some (ObjCol names) /\
    lookup "amount" out = Some (NumCol amounts) /\
    lookup "day" out = Some (NumCol day) /\
    lookup "trns_count_customer" out = Some (NumCol cnt) /\
    lookup "daily_trns_velocity" out = Some (NumCol velocity) /\
    forall i name d, nth_error names i = Some name -> nth_error day i = Some d ->
      match d with
      | Some q =>
          let v := count (amounts_on name q names day amounts) in
          let k := count (amounts_of name names amounts) in
          nth_error velocity i = Some (Some (Qofnat v)) /\
          nth_error cnt i = Some (Some (Qofnat k)) /\
          (v <= k)%nat /\
          (forall a, nth_error amounts i = Some (Some a) -> (1 <= v)%nat)
      | None => nth_error velocity i = Some None
      end.

(** *** Scoring *)

(** The number of customers in band High or Critical, as the message of
    [compute_risk_scores] reports it. *)
Definition high_count (bands : list string) : nat :=
  length (filter (fun b => RiskScorer.mem b [ "High"; "Critical" ]) bands).

(** The anomaly mark of a customer is 1 when the composite z-score is
    strictly above the threshold and 0 otherwise, also when the
    composite score is missing. *)
Definition anomaly_marks (threshold : Q) (composite anomaly : list num) : Prop :=
  length anomaly = length composite /\
  forall i c, nth_error composite i = Some c ->
    match c with
    | Some q =>
        (threshold < q -> nth_error anomaly i = Some (Some 1)) /\
        (q <= threshold -> nth_error anomaly i = Some (Some 0))
    | None => nth_error anomaly i = Some (Some 0)
    end.

(** The cell of a customer in the aggregated column [c], from the cells
    [g] of that column on the customer's rows: the sum for the columns
    listed as counts, the mean for the others. *)
Definition customer_cell (c : string) (g : list num) : num :=
  if RiskScorer.mem c RiskScorer.sum_columns then Some (nansum g) else nanmean g.

(** Descending order of scores, missing ones last. *)
Definition desc_le (x y : num) : Prop := Selection.desc_leb x y = true.

(** The columns [get_risk_scores] shows. *)
Definition score_columns : list string :=
  [ "nameOrig"; "composite_zscore"; "risk_score"; "risk_band"; "is_anomaly" ].

(** *** Flagging *)

(** The columns of the customer risk table that [flag_transactions]
    reads. *)
Definition risk_columns : list string :=
  [ "nameOrig"; "risk_score"; "risk_band"; "is_anomaly" ].

(** The score of a transfer: that of its originator in the customer
    table, 0 when the table has none. *)
Definition joined_scores (ids : list string) (scores : list num)
    (names : list string) : list num :=
  TransactionFlagger.map_fillna_num (TransactionFlagger.dict_zip ids scores) 0 names.

Definition joined_bands (ids bands names : list string) : list string :=
  TransactionFlagger.map_fillna_obj (TransactionFlagger.dict_zip ids bands)
    "Low" names.

(** The flags under a threshold. *)
Definition flags_under (threshold : Q) (risk : list num) : list bool :=
  map (fun r => num_ge r threshold) risk.

(** The table [flag_transactions] leaves. *)
Definition flagged_frame (threshold : Q) (ids bands : list string)
    (scores anoms : list num) (names : list string) (transactions : DataFrame)
    : DataFrame :=
  setitem "is_flagged"
    (BoolCol (flags_under threshold (joined_scores ids scores names)))
  (setitem "is_anomaly" (NumCol (joined_scores ids anoms names))
  (setitem "risk_band" (ObjCol (joined_bands ids bands names))
  (setitem "risk_score" (NumCol (joined_scores ids scores names))
     transactions))).

(** *** Cleaning *)

(** What [_handle_invalid_values] makes of one amount. *)
Definition cleaned_amount (x : num) : num :=
  if num_lt x 0 then Some 0 else x.

(** The number of negative amounts. *)
Definition negatives (amount : list num) : nat :=
  TransactionFlagger.count_true (map (fun x => num_lt x 0) amount).

(** The positions, counted from [s], at which a mask holds. *)
Fixpoint positions (mask : list bool) (s : nat) : list nat :=
  match mask with
  | [] => []
  | m :: r => if m then s :: positions r (S s) else positions r (S s)
  end.

(** Two rows hold the same values. *)
Definition same_row (df : DataFrame) (i : nat) (df' : DataFrame) (j : nat)
    : Prop :=
  TransactionCleaner.row_eqb (TransactionCleaner.row df i)
    (TransactionCleaner.row df' j) = true.

(** No two rows of the table hold the same values. *)
Definition distinct_rows (df : DataFrame) : Prop :=
  forall i j, (i < j)%nat -> (j < nrows df)%nat -> ~ same_row df i df j.

(** *** The progress flags of the controller *)

(** No stage is marked as done unless the stage before it is. *)
Definition in_order (st : MainController.State) : Prop :=
  (MainController.flag "transactions_flagged" st = true ->
   MainController.flag "customers_scored" st = true) /\
  (MainController.flag "customers_scored" st = true ->
   MainController.flag "features_built" st = true) /\
  (MainController.flag "features_built" st = true ->
   MainController.flag "data_cleaned" st = true) /\
  (MainController.flag "data_cleaned" st = true ->
   MainController.flag "data_loaded" st = true).

End Props.

(** ** Concrete tables used by the examples below *)

Module Examples.
Import Pandas.

Definition z (n : Z) : num := Some (inject_Z n).

(** A square root that is exact on the squares of rationals and rounds
    down elsewhere. *)
Definition sqrt_floor (x : Q) : Q :=
  Z.sqrt (Qnum x * Zpos (Qden x)) # Qden x.

(** Originator C1 with six transfers on one day, shuffled among the
    transfers of two other originators. *)
Definition cleaned : DataFrame :=
  [ ("step", NumCol [z 3; z 1; z 30; z 2; z 6; z 5; z 2; z 4]);
    ("amount", NumCol [z 300; z 100; z 7; z 200; z 600; z 500; z 50; z 400]);
    ("nameOrig", ObjCol ["C1"; "C1"; "B"; "C1"; "C1"; "C1"; "A"; "C1"]);
    ("oldbalanceOrg",
     NumCol [z 300; z 0; z 7; z 200; z 600; z 500; z 10; z 400]);
    ("newbalanceOrig", NumCol [z 0; z 0; z 7; z 0; z 0; z 5; z 0; z 0]) ].

Definition store : FeatureBuilder.heap := fun _ => cleaned.

Definition built :=
  FeatureBuilder.build_features FeatureBuilder.__init__ 0%nat store.

Definition feature_table : DataFrame := snd (fst built) 0%nat.

(** The rows of C1 in [feature_table]. *)
Definition c1_rows : list nat := [2; 3; 4; 5; 6; 7]%nat.

(** The scenario of the specification, read off [feature_table]: rows 2
    to 7 are the six transfers of C1 in step order, all on day 0; each
    has a daily velocity of 6, and the sixth has a rolling mean of 400
    and a rolling maximum of 600. *)
Definition scenario : Prop :=
  Pandas.nrows feature_table = 8%nat /\
  map (Spec.obj_at feature_table "nameOrig") (seq 0 8)
    = map Some ["A"; "B"; "C1"; "C1"; "C1"; "C1"; "C1"; "C1"] /\
  Forall2 Spec.cell_is
    (map (Spec.num_at feature_table "step") c1_rows) [1; 2; 3; 4; 5; 6] /\
  Forall2 Spec.cell_is
    (map (Spec.num_at feature_table "amount") c1_rows)
    [100; 200; 300; 400; 500; 600] /\
  Forall (fun i => Spec.cell_is (Spec.num_at feature_table "day" i) 0)
    c1_rows /\
  Forall (fun i => Spec.cell_is
                     (Spec.num_at feature_table "daily_trns_velocity" i) 6)
    c1_rows /\
  Spec.cell_is (Spec.num_at feature_table "rolling_mean_amount" 7) 400 /\
  Spec.cell_is (Spec.num_at feature_table "rolling_max_amount" 7) 600.

(** A customer risk table with two customers, and three transfers of
    which the second comes from an originator the table does not know. *)
Definition risk_table : DataFrame :=
  [ ("nameOrig", ObjCol ["A"; "B"]);
    ("composite_zscore", NumCol [Some (1 # 2); Some (5 # 2)]);
    ("risk_score", NumCol [z 30; z 80]);
    ("risk_band", ObjCol ["Medium"; "Critical"]);
    ("is_anomaly", NumCol [z 0; z 1]) ].

Definition transactions : DataFrame :=
  [ ("nameOrig", ObjCol ["A"; "Z"; "B"]);
    ("amount", NumCol [z 10; z 20; z 30]) ].

Definition flagger : TransactionFlagger.TransactionFlagger :=
  TransactionFlagger.__init__ TransactionFlagger.default_risk_threshold.

Definition flagged :=
  TransactionFlagger.flag_transactions flagger transactions risk_table.

(** A table of scores to be banded. *)
Definition scored : DataFrame :=
  [ ("risk_score", NumCol [z 0; z 10; z 25; z 60; z 75; z 100; None]) ].

(** A feature table without an originator column. *)
Definition no_id_table : DataFrame :=
  [ ("amount", NumCol [z 1; z 2; z 6]) ].

(** Scoring the feature table of the scenario. *)
Definition scorer : RiskScorer.RiskScorer :=
  RiskScorer.__init__ RiskScorer.default_z_score_threshold.

Definition scoring_run :=
  RiskScorer.compute_risk_scores sqrt_floor scorer feature_table.

Definition feature_ids : list string :=
  ["A"; "B"; "C1"; "C1"; "C1"; "C1"; "C1"; "C1"].

(** The customer table of the scenario. *)
Definition customer_table : DataFrame :=
  match RiskScorer._aggregate_to_customer feature_table with
  | Ok customer_data => customer_data
  | Raise _ => []
  end.

End Examples.

(** ** Further tables used by the examples *)

Module Cases.
Import Pandas.

(** The cleaned table of the scenario with its originator column
    taken out. *)
Definition anonymous : DataFrame :=
  filter (fun p => negb (String.eqb (fst p) "nameOrig")) Examples.cleaned.

Definition anonymous_store : FeatureBuilder.heap := fun _ => anonymous.

(** Four transfers of three originators, and the scoring of them: the
    mean amounts 1, 2 and 6 of A, B and C are the one feature that is
    scored. *)
Definition transfer_ids : list string := ["B"; "A"; "C"; "A"].

Definition transfers : DataFrame :=
  [ ("nameOrig", ObjCol transfer_ids);
    ("amount", NumCol [Examples.z 2; Examples.z 1; Examples.z 6; Examples.z 1]) ].

Definition scored_transfers : RiskScorer.RiskScorer :=
  fst (RiskScorer.compute_risk_scores Examples.sqrt_floor Examples.scorer
         transfers).

(** What [get_risk_scores] shows after scoring the table that has no
    originator column. *)
Definition anonymous_scores : DataFrame :=
  match RiskScorer.get_risk_scores
          (fst (RiskScorer.compute_risk_scores Examples.sqrt_floor
                  Examples.scorer Examples.no_id_table)) with
  | Some view => view
  | None => []
  end.

(** Amounts with two negative entries and a missing one. *)
Definition raw_amounts : DataFrame :=
  [ ("nameOrig", ObjCol ["A"; "B"; "C"; "D"]);
    ("amount", NumCol [Examples.z 5; Examples.z (-3); None; Some (-1 # 2)]) ].

(** A customer risk table that lists originator A twice. *)
Definition repeated_risk_table : DataFrame :=
  [ ("nameOrig", ObjCol ["A"; "B"; "A"]);
    ("risk_score", NumCol [Examples.z 30; Examples.z 80; Examples.z 90]);
    ("risk_band", ObjCol ["Medium"; "Critical"; "Critical"]);
    ("is_anomaly", NumCol [Examples.z 0; Examples.z 1; Examples.z 1]) ].

(** A raw table whose third row repeats the first. *)
Definition raw_repeated : DataFrame :=
  [ ("nameOrig", ObjCol ["A"; "B"; "A"; "A"]);
    ("amount", NumCol [Examples.z 5; Examples.z 5; Some (10 # 2); None]);
    ("isFraud", BoolCol [false; false; false; false]) ].

(** A loaded table with the eleven required columns and two rows. *)
Definition raw_table : DataFrame :=
  [ ("step", NumCol [Examples.z 1; Examples.z 2]);
    ("type", ObjCol ["TRANSFER"; "PAYMENT"]);
    ("amount", NumCol [Examples.z 100; Examples.z 20]);
    ("nameOrig", ObjCol ["A"; "B"]);
    ("oldbalanceOrg", NumCol [Examples.z 100; Examples.z 50]);
    ("newbalanceOrig", NumCol [Examples.z 0; Examples.z 30]);
    ("nameDest", ObjCol ["M1"; "M2"]);
    ("oldbalanceDest", NumCol [Examples.z 0; Examples.z 0]);
    ("newbalanceDest", NumCol [Examples.z 100; Examples.z 20]);
    ("isFraud", NumCol [Examples.z 1; Examples.z 0]);
    ("isFlaggedFraud", NumCol [Examples.z 0; Examples.z 0]) ].

Definition loaded : DataManager.DataManager :=
  {| DataManager.raw_data := Some raw_table;
     DataManager.is_loaded := true;
     DataManager.required_columns :=
       DataManager.required_columns DataManager.__init__;
     DataManager._validation_errors := [] |}.

(** A session in which the features are built and the table is then
    loaded again. *)
Definition session : list MainController.call :=
  [ MainController.LoadDataset true; MainController.CleanData true;
    MainController.BuildFeatures true; MainController.ScoreCustomers false;
    MainController.LoadDataset true; MainController.FlagTransactions true ].

End Cases.

(** * Properties *)

Import Pandas Spec.

(** ** Association-list and monad lemmas *)

Lemma lookup_setitem_eq name c df :
  lookup name (setitem name c df) = Some c.
Proof.
  induction df as [|[n c0] r IH]; simpl.
  - now rewrite String.eqb_refl.
  - destruct (String.eqb n name) eqn:E; simpl; rewrite E; auto.
Qed.

Lemma lookup_setitem_ne name name' c df :
  name <> name' -> lookup name' (setitem name c df) = lookup name' df.
Proof.
  intros Hne. induction df as [|[n c0] r IH]; simpl.
  - destruct (String.eqb_spec name name'); congruence.
  - destruct (String.eqb_spec n name) as [->|Hn]; simpl.
    + destruct (String.eqb_spec name name'); congruence.
    + now rewrite IH.
Qed.

Lemma bind_ok {A B} (m : M A) (k : A -> M B) df df' b :
  bind m k df = (df', Ok b) ->
  exists df1 a, m df = (df1, Ok a) /\ k a df1 = (df', Ok b).
Proof.
  unfold bind. destruct (m df) as [df1 [a|e]]; intros H.
  - now exists df1, a.
  - discriminate.
Qed.

Lemma read_ok {A} (f : DataFrame -> result A) df df' a :
  read f df = (df', Ok a) -> df' = df /\ f df = Ok a.
Proof. unfold read. intros H. inversion H. auto. Qed.

Lemma assign_ok name c df df' u :
  assign name c df = (df', Ok u) -> df' = setitem name c df.
Proof. unfold assign. intros H. now inversion H. Qed.

Lemma get_num_ok name df xs :
  get_num name df = Ok xs <-> lookup name df = Some (NumCol xs).
Proof.
  unfold get_num, getitem. destruct (lookup name df) as [[ys|bs|ss]|]; simpl;
    split; intros H; inversion H; auto.
Qed.

Lemma get_obj_ok name df ss :
  get_obj name df = Ok ss <-> lookup name df = Some (ObjCol ss).
Proof.
  unfold get_obj, getitem. destruct (lookup name df) as [[ys|bs|xs]|]; simpl;
    split; intros H; inversion H; auto.
Qed.

Lemma Qltb_lt a b : Qltb a b = true <-> a < b.
Proof.
  unfold Qltb. rewrite negb_true_iff. split; intros H.
  - apply Qnot_le_lt. intros Hle. apply Qle_bool_iff in Hle. congruence.
  - destruct (Qle_bool b a) eqn:E; auto.
    apply Qle_bool_iff in E. exfalso. apply (Qlt_not_le _ _ H E).
Qed.

Lemma Qltb_ge a b : Qltb a b = false <-> b <= a.
Proof.
  unfold Qltb. rewrite negb_false_iff. apply Qle_bool_iff.
Qed.

Lemma Qle_bool_gt a b : Qle_bool a b = false <-> b < a.
Proof.
  rewrite <- Qltb_lt. unfold Qltb. now rewrite negb_true_iff.
Qed.

(** Turns the boolean comparisons of the context into propositions. *)
Ltac reflect_cmp :=
  repeat match goal with
  | H : Qle_bool _ _ = true |- _ => apply Qle_bool_iff in H
  | H : Qle_bool _ _ = false |- _ => apply Qle_bool_gt in H
  | H : Qltb _ _ = true |- _ => apply Qltb_lt in H
  | H : Qltb _ _ = false |- _ => apply Qltb_ge in H
  | H : Qeq_bool _ _ = true |- _ => apply Qeq_bool_iff in H
  | H : Qeq_bool _ _ = false |- _ => apply Qeq_bool_neq in H
  end.

(** ** Risk bands *)

Section RiskBands.
Import RiskScorer.

Ltac band_case :=
  reflect_cmp; repeat split; intros;
  repeat match goal with H : _ /\ _ |- _ => destruct H end;
  try discriminate; try lra; auto; try (exfalso; lra).

Lemma get_band_intervals q :
  let b := get_band default_bands (Some q) in
  (b = "Low" <-> 0 <= q < 25) /\
  (b = "Medium" <-> 25 <= q < 50) /\
  (b = "High" <-> 50 <= q < 75) /\
  (75 <= q < 100 -> b = "Critical") /\
  (100 <= q -> b = "Critical").
Proof.
  cbn -[Qle_bool Qltb].
  destruct (Qle_bool 0 q) eqn:E0, (Qltb q 25) eqn:E25; cbn -[Qle_bool Qltb];
    [ band_case | .. ];
    (destruct (Qle_bool 25 q) eqn:F25, (Qltb q 50) eqn:E50; cbn -[Qle_bool Qltb];
     [ band_case | .. ]);
    (destruct (Qle_bool 50 q) eqn:F50, (Qltb q 75) eqn:E75; cbn -[Qle_bool Qltb];
     [ band_case | .. ]);
    (destruct (Qle_bool 75 q && Qltb q 100); band_case).
Qed.

(** A missing score falls through every interval. *)
Lemma get_band_nan : get_band default_bands None = "Critical".
Proof. reflexivity. Qed.

(** C5.  The band of a customer is a function of the customer's risk
    score alone: [_assign_risk_bands] cannot fail on a table that has
    a numeric [risk_score] column, it writes a [risk_band] column with one
    band per customer, and the band is Low exactly on [0,25), Medium
    exactly on [25,50), High exactly on [50,75), and Critical on [75,100)
    and on every score of 100 or more. *)
Theorem risk_band_partition (self : RiskScorer) (df : DataFrame) (risk : list num) :
  risk_bands self = default_bands ->
  lookup "risk_score" df = Some (NumCol risk) ->
  exists bands,
    _assign_risk_bands self df = (setitem "risk_band" (ObjCol bands) df, Ok tt) /\
    bands = map (get_band default_bands) risk /\
    forall i q, nth_error risk i = Some (Some q) ->
      exists b, nth_error bands i = Some b /\
        (b = "Low" <-> 0 <= q < 25) /\
        (b = "Medium" <-> 25 <= q < 50) /\
        (b = "High" <-> 50 <= q < 75) /\
        (75 <= q < 100 -> b = "Critical") /\
        (100 <= q -> b = "Critical").
Proof.
  intros Hb Hl. exists (map (get_band default_bands) risk). split; [|split]; auto.
  - unfold _assign_risk_bands, bind, read, assign.
    apply get_num_ok in Hl. rewrite Hl, Hb. reflexivity.
  - intros i q Hi. exists (get_band default_bands (Some q)). split.
    + now rewrite nth_error_map, Hi.
    + apply get_band_intervals.
Qed.

Lemma risk_band_partition_witness :
  _assign_risk_bands (__init__ default_z_score_threshold) Examples.scored
  = (setitem "risk_band"
       (ObjCol ["Low"; "Low"; "Medium"; "High"; "Critical"; "Critical"; "Critical"])
       Examples.scored, Ok tt).
Proof.
  destruct (risk_band_partition (__init__ default_z_score_threshold)
              Examples.scored
              [Examples.z 0; Examples.z 10; Examples.z 25; Examples.z 60;
               Examples.z 75; Examples.z 100; None]
              eq_refl eq_refl) as (bands & Hrun & Hbands & _).
  rewrite Hrun, Hbands. reflexivity.
Defined.

End RiskBands.

(** ** Symbolic execution of statements *)

Lemma bind_read {A B} (f : DataFrame -> result A) (k : A -> M B) df :
  bind (read f) k df =
  match f df with Ok a => k a df | Raise e => (df, Raise e) end.
Proof. unfold bind, read. now destruct (f df). Qed.

Lemma bind_assign {B} name c (k : unit -> M B) df :
  bind (assign name c) k df = k tt (setitem name c df).
Proof. reflexivity. Qed.

Lemma bind_modify {B} f (k : unit -> M B) df :
  bind (modify f) k df = k tt (f df).
Proof. reflexivity. Qed.

Lemma bind_ret {A B} (a : A) (k : A -> M B) df : bind (ret a) k df = k a df.
Proof. reflexivity. Qed.

Lemma bind_bind {A B C} (m : M A) (k : A -> M B) (k' : B -> M C) df :
  bind (bind m k) k' df = bind m (fun a => bind (k a) k') df.
Proof. unfold bind. destruct (m df) as [df1 [a|e]]; auto. Qed.

(** Looks a column up through the assignments made to other columns. *)
Ltac lookup_through :=
  repeat first
    [ rewrite lookup_setitem_eq
    | rewrite lookup_setitem_ne by discriminate ].

(** ** Flagging *)

Section Flagging.
Import TransactionFlagger.

Lemma dict_get_set {V} k k' (v : V) d :
  dict_get k (dict_set k' v d) = if String.eqb k' k then Some v else dict_get k d.
Proof.
  induction d as [|[k0 v0] r IH]; simpl.
  - reflexivity.
  - destruct (String.eqb_spec k0 k') as [->|Hk0]; simpl.
    + destruct (String.eqb k' k); reflexivity.
    + rewrite IH. destruct (String.eqb_spec k0 k) as [->|Hk]; auto.
      destruct (String.eqb_spec k' k); congruence.
Qed.

Lemma dict_get_fold_absent {V} k (l : list (string * V)) d :
  ~ In k (map fst l) ->
  dict_get k (fold_left (fun d kv => dict_set (fst kv) (snd kv) d) l d)
  = dict_get k d.
Proof.
  revert d. induction l as [|[k0 v0] r IH]; simpl; intros d Hn; auto.
  rewrite IH by tauto. rewrite dict_get_set.
  destruct (String.eqb_spec k0 k); auto. tauto.
Qed.

Lemma dict_get_fold_present {V} k (v : V) (l : list (string * V)) d :
  NoDup (map fst l) -> In (k, v) l ->
  dict_get k (fold_left (fun d kv => dict_set (fst kv) (snd kv) d) l d)
  = Some v.
Proof.
  revert d. induction l as [|[k0 v0] r IH]; simpl; intros d Hnd Hin.
  - contradiction.
  - inversion Hnd as [|? ? Hk0 Hr]; subst. destruct Hin as [E|Hin].
    + inversion E; subst. rewrite dict_get_fold_absent by assumption.
      rewrite dict_get_set. now rewrite String.eqb_refl.
    + now apply IH.
Qed.

Lemma map_fst_combine_incl {A B} (l : list A) (l' : list B) x :
  In x (map fst (combine l l')) -> In x l.
Proof.
  revert l'. induction l as [|a r IH]; intros [|b r']; simpl; auto.
  - contradiction.
  - intros [E|H]; eauto.
Qed.

Lemma NoDup_map_fst_combine {A B} (l : list A) (l' : list B) :
  NoDup l -> NoDup (map fst (combine l l')).
Proof.
  revert l'. induction l as [|a r IH]; intros [|b r'] Hnd; simpl;
    try constructor.
  - inversion Hnd; subst. intros Hin. apply map_fst_combine_incl in Hin. tauto.
  - inversion Hnd; subst. now apply IH.
Qed.

Lemma nth_error_combine_In {A B} (l : list A) (l' : list B) p a b :
  nth_error l p = Some a -> nth_error l' p = Some b -> In (a, b) (combine l l').
Proof.
  revert l l'. induction p as [|p IH]; intros [|x r] [|y r']; simpl;
    try discriminate.
  - intros E1 E2. inversion E1; inversion E2; subst. now left.
  - intros E1 E2. right. eauto.
Qed.

Lemma dict_zip_miss {V} k ids (vals : list V) :
  ~ In k ids -> dict_get k (dict_zip ids vals) = None.
Proof.
  intros Hn. unfold dict_zip. rewrite dict_get_fold_absent; auto.
  intros Hin. apply map_fst_combine_incl in Hin. tauto.
Qed.

Lemma dict_zip_hit {V} k ids (vals : list V) p v :
  NoDup ids -> nth_error ids p = Some k -> nth_error vals p = Some v ->
  dict_get k (dict_zip ids vals) = Some v.
Proof.
  intros Hnd Hk Hv. unfold dict_zip. apply dict_get_fold_present.
  - now apply NoDup_map_fst_combine.
  - eapply nth_error_combine_In; eauto.
Qed.

(** What a run of [flag_transactions] produces when both tables have
    the columns the method reads: the four joined columns, and a summary
    whose per-band entries count the rows of each band in the whole
    table. *)
Lemma flag_transactions_run
    (self : TransactionFlagger) (transactions risk_scores : DataFrame)
    (names ids bands : list string) (scores anoms : list num) :
  lookup "nameOrig" transactions = Some (ObjCol names) ->
  lookup "nameOrig" risk_scores = Some (ObjCol ids) ->
  lookup "risk_score" risk_scores = Some (NumCol scores) ->
  lookup "risk_band" risk_scores = Some (ObjCol bands) ->
  lookup "is_anomaly" risk_scores = Some (NumCol anoms) ->
  let rs := map_fillna_num (dict_zip ids scores) 0 names in
  let bs := map_fillna_obj (dict_zip ids bands) "Low" names in
  let ans := map_fillna_num (dict_zip ids anoms) 0 names in
  let fl := map (fun r => num_ge r (risk_threshold self)) rs in
  exists df summary,
    flag_transactions self transactions risk_scores
      = ({| flagged_data := Some df;
            risk_threshold := risk_threshold self;
            _summary := Some summary;
            _is_flagged := true |},
         (true, Flagged (count_true fl) (total_transactions summary))) /\
    lookup "risk_score" df = Some (NumCol rs) /\
    lookup "risk_band" df = Some (ObjCol bs) /\
    lookup "is_anomaly" df = Some (NumCol ans) /\
    lookup "is_flagged" df = Some (BoolCol fl) /\
    flagged_transactions summary = count_true fl /\
    by_risk_band summary
      = [ ("Critical", count_eq "Critical" bs);
          ("High", count_eq "High" bs);
          ("Medium", count_eq "Medium" bs) ].
Proof.
  intros Hn Hi Hs Hb Ha rs bs ans fl.
  apply get_obj_ok in Hi. apply get_num_ok in Hs.
  apply get_obj_ok in Hb. apply get_num_ok in Ha.
  unfold flag_transactions, flagging.
  repeat (rewrite bind_read; cbv beta; rewrite ?Hi, ?Hs, ?Hb, ?Ha).
  assert (Hn0 := Hn). apply get_obj_ok in Hn0. rewrite Hn0.
  rewrite bind_assign.
  rewrite bind_read.
  replace (get_obj "nameOrig" _) with (Ok (A := list string) names)
    by (symmetry; apply get_obj_ok; lookup_through; exact Hn).
  rewrite bind_assign, bind_read.
  replace (get_obj "nameOrig" _) with (Ok (A := list string) names)
    by (symmetry; apply get_obj_ok; lookup_through; exact Hn).
  rewrite bind_assign, bind_read.
  fold rs bs ans.
  replace (get_num "risk_score" _) with (Ok (A := list num) rs)
    by (symmetry; apply get_num_ok; lookup_through; reflexivity).
  rewrite bind_assign. fold fl.
  set (df := setitem "is_flagged" (BoolCol fl) _).
  rewrite bind_read. cbv beta. rewrite bind_read.
  assert (Hfl : lookup "is_flagged" df = Some (BoolCol fl))
    by (unfold df; lookup_through; reflexivity).
  assert (Hrs : lookup "risk_score" df = Some (NumCol rs))
    by (unfold df; lookup_through; reflexivity).
  assert (Hbs : lookup "risk_band" df = Some (ObjCol bs))
    by (unfold df; lookup_through; reflexivity).
  assert (Hans : lookup "is_anomaly" df = Some (NumCol ans))
    by (unfold df; lookup_through; reflexivity).
  unfold getitem. rewrite Hfl. cbn [rbind].
  rewrite bind_read. apply get_obj_ok in Hbs. rewrite Hbs.
  rewrite bind_read. apply get_num_ok in Hans. rewrite Hans.
  unfold ret. do 2 eexists. split; [reflexivity|].
  apply get_obj_ok in Hbs. apply get_num_ok in Hans.
  repeat (split; [eassumption|]). split; reflexivity.
Qed.

(** C6.  A transaction whose originator is absent from the customer
    risk table does not make [flag_transactions] fail: as soon as both
    tables have the columns the method reads, the call succeeds; such a
    row receives risk score 0, band Low, anomaly 0, and is not flagged
    under the default threshold of 50.  The other rows do not feel the
    miss: a row whose originator is in the (duplicate-free) customer
    table receives that customer's score, band and anomaly mark. *)
Theorem flag_transactions_missing_originator
    (self : TransactionFlagger) (transactions risk_scores : DataFrame)
    (names ids bands : list string) (scores anoms : list num) :
  lookup "nameOrig" transactions = Some (ObjCol names) ->
  lookup "nameOrig" risk_scores = Some (ObjCol ids) ->
  lookup "risk_score" risk_scores = Some (NumCol scores) ->
  lookup "risk_band" risk_scores = Some (ObjCol bands) ->
  lookup "is_anomaly" risk_scores = Some (NumCol anoms) ->
  exists self' df flagged_count total rs bs ans fl,
    flag_transactions self transactions risk_scores
      = (self', (true, Flagged flagged_count total)) /\
    flagged_data self' = Some df /\
    lookup "risk_score" df = Some (NumCol rs) /\
    lookup "risk_band" df = Some (ObjCol bs) /\
    lookup "is_anomaly" df = Some (NumCol ans) /\
    lookup "is_flagged" df = Some (BoolCol fl) /\
    (forall i name,
        nth_error names i = Some name -> ~ In name ids ->
        nth_error rs i = Some (Some 0) /\
        nth_error bs i = Some "Low" /\
        nth_error ans i = Some (Some 0) /\
        (risk_threshold self == default_risk_threshold ->
         nth_error fl i = Some false)) /\
    (forall i name p s b a,
        nth_error names i = Some name -> NoDup ids ->
        nth_error ids p = Some name -> nth_error scores p = Some s ->
        nth_error bands p = Some b -> nth_error anoms p = Some a ->
        nth_error rs i = Some (Some (or0 s)) /\
        nth_error bs i = Some b /\
        nth_error ans i = Some (Some (or0 a)) /\
        nth_error fl i = Some (Qle_bool (risk_threshold self) (or0 s))).
Proof.
  intros Hn Hi Hs Hb Ha.
  destruct (flag_transactions_run self transactions risk_scores names ids
              bands scores anoms Hn Hi Hs Hb Ha)
    as (df & summary & Hrun & Hrs & Hbs & Hans & Hfl & _).
  do 8 eexists. split; [exact Hrun|]. split; [reflexivity|].
  repeat (split; [eassumption|]). split.
  - intros i name Hname Hmiss.
    unfold map_fillna_num, map_fillna_obj.
    rewrite !nth_error_map, Hname. cbn [option_map].
    rewrite !dict_zip_miss by assumption. repeat split.
    intros Hthr. cbn [num_ge]. f_equal.
    destruct (Qle_bool (risk_threshold self) 0) eqn:E; auto.
    reflect_cmp. unfold default_risk_threshold in Hthr. lra.
  - intros i name p s b a Hname Hnd Hp Hsp Hbp Hap.
    unfold map_fillna_num, map_fillna_obj.
    rewrite !nth_error_map, Hname. cbn [option_map].
    rewrite (dict_zip_hit name ids scores p s),
            (dict_zip_hit name ids bands p b),
            (dict_zip_hit name ids anoms p a) by assumption.
    destruct s, a; repeat split.
Qed.

Lemma flag_transactions_missing_originator_witness :
  exists self' flagged_count total,
    flag_transactions Examples.flagger Examples.transactions Examples.risk_table
    = (self', (true, Flagged flagged_count total)).
Proof.
  destruct (flag_transactions_missing_originator
              Examples.flagger Examples.transactions Examples.risk_table
              ["A"; "Z"; "B"] ["A"; "B"] ["Medium"; "Critical"]
              [Examples.z 30; Examples.z 80] [Examples.z 0; Examples.z 1]
              eq_refl eq_refl eq_refl eq_refl eq_refl)
    as (self' & df & k & n & rs & bs & ans & fl & Hrun & _).
  exists self', k, n. exact Hrun.
Defined.

(** C8, evaluated.  The summary counts, for each band, every row of that
    band, flagged or not: in the example one transfer is in band Medium
    and is not flagged (its score of 30 is under the threshold of 50),
    and the summary still reports 1 for Medium. *)
Theorem flag_summary_counts_unflagged_rows :
  exists summary df flags bands,
    get_flag_summary (fst Examples.flagged) = Some summary /\
    flagged_data (fst Examples.flagged) = Some df /\
    lookup "is_flagged" df = Some (BoolCol flags) /\
    lookup "risk_band" df = Some (ObjCol bands) /\
    flags = [false; false; true] /\
    bands = ["Medium"; "Low"; "Critical"] /\
    by_risk_band summary = [("Critical", 1); ("High", 0); ("Medium", 1)]%nat /\
    flagged_in_band "Medium" flags bands = 0%nat /\
    flagged_transactions summary = 1%nat.
Proof.
  do 4 eexists. vm_compute. repeat split.
Qed.

End Flagging.

(** ** Reads through assignments *)

Lemma get_num_setitem_ne name name' c df :
  name <> name' -> get_num name' (setitem name c df) = get_num name' df.
Proof.
  intros H. unfold get_num, getitem. now rewrite lookup_setitem_ne.
Qed.

Lemma get_obj_setitem_ne name name' c df :
  name <> name' -> get_obj name' (setitem name c df) = get_obj name' df.
Proof.
  intros H. unfold get_obj, getitem. now rewrite lookup_setitem_ne.
Qed.

Lemma get_num_setitem_eq name xs df :
  get_num name (setitem name (NumCol xs) df) = Ok xs.
Proof. unfold get_num, getitem. now rewrite lookup_setitem_eq. Qed.

Lemma get_obj_setitem_eq name ss df :
  get_obj name (setitem name (ObjCol ss) df) = Ok ss.
Proof. unfold get_obj, getitem. now rewrite lookup_setitem_eq. Qed.

Lemma lookup_take_frame name idx df :
  lookup name (take_frame idx df) = option_map (take_col idx) (lookup name df).
Proof.
  induction df as [|[n c] r IH]; simpl; auto.
  destruct (String.eqb n name); auto.
Qed.

Lemma get_num_take_frame name idx df :
  get_num name (take_frame idx df)
  = rbind (get_num name df) (fun xs => Ok (take_rows None idx xs)).
Proof.
  unfold get_num, getitem. rewrite lookup_take_frame.
  destruct (lookup name df) as [[xs|bs|ss]|]; reflexivity.
Qed.

Lemma get_obj_take_frame name idx df :
  get_obj name (take_frame idx df)
  = rbind (get_obj name df) (fun ss => Ok (take_rows EmptyString idx ss)).
Proof.
  unfold get_obj, getitem. rewrite lookup_take_frame.
  destruct (lookup name df) as [[xs|bs|ss]|]; reflexivity.
Qed.

(** Runs the reads and assignments of a hypothesis [H : m df = (df', Ok _)]
    forward, naming what each read returns. *)
Ltac step_in H :=
  first
    [ rewrite bind_bind in H
    | rewrite bind_assign in H
    | rewrite bind_modify in H
    | rewrite bind_ret in H
    | rewrite bind_read in H;
      repeat first
        [ rewrite get_num_setitem_eq in H
        | rewrite get_obj_setitem_eq in H
        | rewrite get_num_setitem_ne in H by discriminate
        | rewrite get_obj_setitem_ne in H by discriminate
        | rewrite get_num_take_frame in H
        | rewrite get_obj_take_frame in H ];
      match type of H with
      | context [get_num ?n ?d] =>
          let E := fresh "E" in
          destruct (get_num n d) eqn:E; [cbn [rbind] in H | discriminate H]
      | context [get_obj ?n ?d] =>
          let E := fresh "E" in
          destruct (get_obj n d) eqn:E; [cbn [rbind] in H | discriminate H]
      | _ => cbn [rbind] in H
      end ].

(** ** Feature building *)

Section FeatureBuilding.
Import FeatureBuilder.

Lemma body_ok df df' u :
  body df = (df', Ok u) ->
  exists names steps amounts olds news,
    lookup "nameOrig" df = Some (ObjCol names) /\
    lookup "step" df = Some (NumCol steps) /\
    lookup "amount" df = Some (NumCol amounts) /\
    lookup "oldbalanceOrg" df = Some (NumCol olds) /\
    lookup "newbalanceOrig" df = Some (NumCol news) /\
    df' = feature_frame names steps amounts olds news df.
Proof.
  intros H.
  unfold body, _add_transaction_features, _add_customer_features,
    _add_velocity_features, _add_rolling_features in H.
  repeat step_in H.
  inversion H; subst; clear H.
  repeat match goal with
  | H : Ok _ = Ok _ |- _ => inversion H; subst; clear H
  end.
  repeat match goal with
  | H : get_num _ _ = Ok _ |- _ => apply get_num_ok in H
  | H : get_obj _ _ = Ok _ |- _ => apply get_obj_ok in H
  end.
  repeat match goal with
  | H1 : lookup ?n ?d = Some ?a, H2 : lookup ?n ?d = Some ?b |- _ =>
      rewrite H1 in H2; inversion H2; subst; clear H2
  end.
  do 5 eexists. repeat (split; [eassumption|]). reflexivity.
Qed.

(** *** The order of strings and of sort keys *)

Lemma str_leb_refl a : str_leb a a = true.
Proof.
  unfold str_leb. destruct (String_as_OT.compare_spec a a) as [_|H|H]; auto.
  exfalso. revert H. apply (StrictOrder_Irreflexive (R := String_as_OT.lt)).
Qed.

Lemma str_leb_false a b : str_leb a b = false -> String_as_OT.lt b a.
Proof.
  unfold str_leb. destruct (String_as_OT.compare_spec a b); try discriminate.
  auto.
Qed.

Lemma str_leb_true a b : str_leb a b = true -> a = b \/ String_as_OT.lt a b.
Proof.
  unfold str_leb. destruct (String_as_OT.compare_spec a b); try discriminate;
    auto.
Qed.

Lemma str_lt_leb a b : String_as_OT.lt a b -> str_leb a b = true.
Proof.
  intros H. destruct (str_leb a b) eqn:E; auto.
  apply str_leb_false in E. exfalso.
  apply (StrictOrder_Irreflexive (R := String_as_OT.lt) a).
  eapply (StrictOrder_Transitive (R := String_as_OT.lt)); eauto.
Qed.

Lemma str_leb_total a b : str_leb a b = false -> str_leb b a = true.
Proof. intros H. apply str_lt_leb. now apply str_leb_false. Qed.

Lemma str_leb_trans a b c :
  str_leb a b = true -> str_leb b c = true -> str_leb a c = true.
Proof.
  intros H1 H2. apply str_leb_true in H1, H2.
  destruct H1 as [->|H1], H2 as [->|H2]; try (now apply str_lt_leb).
  - apply str_leb_refl.
  - apply str_lt_leb.
    eapply (StrictOrder_Transitive (R := String_as_OT.lt)); eauto.
Qed.

Lemma str_leb_antisym a b :
  str_leb a b = true -> str_leb b a = true -> a = b.
Proof.
  intros H1 H2. apply str_leb_true in H1, H2.
  destruct H1 as [->|H1], H2 as [E|H2]; auto.
  exfalso. apply (StrictOrder_Irreflexive (R := String_as_OT.lt) a).
  eapply (StrictOrder_Transitive (R := String_as_OT.lt)); eauto.
Qed.

Lemma num_leb_total x y : num_leb x y = false -> num_leb y x = true.
Proof.
  destruct x as [a|], y as [b|]; simpl; intros H; try discriminate; auto.
  reflect_cmp. apply Qle_bool_iff. lra.
Qed.

Lemma num_leb_trans x y t :
  num_leb x y = true -> num_leb y t = true -> num_leb x t = true.
Proof.
  destruct x as [a|], y as [b|], t as [c|]; simpl; intros H1 H2;
    try discriminate; auto.
  reflect_cmp. apply Qle_bool_iff. lra.
Qed.

Lemma key_leb_names a b : key_leb a b = true -> str_leb (fst a) (fst b) = true.
Proof.
  unfold key_leb, str_leb.
  destruct (String_as_OT.compare (fst a) (fst b)); auto.
Qed.

Lemma compare_Eq_eq a b : String_as_OT.compare a b = Eq -> a = b.
Proof.
  intros H. destruct (String_as_OT.compare_spec a b); try discriminate; auto.
Qed.

Lemma compare_Lt_lt a b : String_as_OT.compare a b = Lt <-> String_as_OT.lt a b.
Proof. reflexivity. Qed.

Lemma compare_Gt_lt a b : String_as_OT.compare a b = Gt -> String_as_OT.lt b a.
Proof.
  intros H. destruct (String_as_OT.compare_spec a b); try discriminate; auto.
Qed.

Lemma key_leb_total a b : key_leb a b = false -> key_leb b a = true.
Proof.
  unfold key_leb.
  destruct (String_as_OT.compare (fst a) (fst b)) eqn:E; try discriminate.
  - apply compare_Eq_eq in E. rewrite E.
    destruct (String_as_OT.compare_spec (fst b) (fst b)) as [_|H|H];
      try (exfalso; revert H;
           apply (StrictOrder_Irreflexive (R := String_as_OT.lt))).
    apply num_leb_total.
  - intros _. apply compare_Gt_lt in E. apply compare_Lt_lt in E.
    now rewrite E.
Qed.

Lemma key_leb_trans a b c :
  key_leb a b = true -> key_leb b c = true -> key_leb a c = true.
Proof.
  unfold key_leb.
  destruct (String_as_OT.compare (fst a) (fst b)) eqn:E1; try discriminate;
  destruct (String_as_OT.compare (fst b) (fst c)) eqn:E2; try discriminate.
  - apply compare_Eq_eq in E1. rewrite E1, E2. apply num_leb_trans.
  - apply compare_Eq_eq in E1. rewrite E1, E2. auto.
  - apply compare_Eq_eq in E2. rewrite <- E2, E1. auto.
  - intros _ _.
    assert (H : String_as_OT.lt (fst a) (fst c))
      by (eapply (StrictOrder_Transitive (R := String_as_OT.lt)); eauto).
    apply compare_Lt_lt in H. now rewrite H.
Qed.

(** *** Stable insertion sort *)

Section Sorting.
Context {A : Type} (leb : A -> A -> bool).
Hypothesis leb_total : forall x y, leb x y = false -> leb y x = true.

Let R (x y : A) : Prop := leb x y = true.

Lemma insert_by_perm x l : Permutation (x :: l) (insert_by leb x l).
Proof.
  induction l as [|y r IH]; simpl; auto.
  destruct (leb x y); auto.
  eapply perm_trans; [apply perm_swap|]. now constructor.
Qed.

Lemma sort_by_perm l : Permutation l (sort_by leb l).
Proof.
  induction l as [|x r IH]; simpl; auto.
  eapply perm_trans; [|apply insert_by_perm]. now constructor.
Qed.

Lemma insert_by_sorted x l : Sorted R l -> Sorted R (insert_by leb x l).
Proof.
  induction 1 as [|y r Hs IH Hd]; simpl.
  - repeat constructor.
  - destruct (leb x y) eqn:E.
    + repeat constructor; auto.
    + constructor; auto.
      destruct r as [|t r']; simpl.
      * constructor. now apply leb_total.
      * destruct (leb x t); constructor.
        -- now apply leb_total.
        -- now inversion Hd.
Qed.

Lemma sort_by_sorted l : Sorted R (sort_by leb l).
Proof.
  induction l as [|x r IH]; simpl.
  - constructor.
  - now apply insert_by_sorted.
Qed.

End Sorting.

(** *** The permutation computed by [argsort] *)

Lemma In_combine_seq {K} (l : list K) s k i :
  In (k, i) (combine l (seq s (length l))) ->
  (s <= i)%nat /\ nth_error l (i - s) = Some k.
Proof.
  revert s. induction l as [|x r IH]; simpl; intros s H.
  - contradiction.
  - destruct H as [E|H].
    + inversion E; subst. rewrite Nat.sub_diag. auto.
    + apply IH in H. destruct H as [Hle Hn]. split; [lia|].
      replace (i - s)%nat with (S (i - S s)) by lia. exact Hn.
Qed.

Lemma map_snd_combine_seq {K} (l : list K) s :
  map snd (combine l (seq s (length l))) = seq s (length l).
Proof.
  revert s. induction l as [|x r IH]; simpl; intros s; auto.
  now rewrite IH.
Qed.

Lemma map_fst_combine_seq {K} (l : list K) s :
  map fst (combine l (seq s (length l))) = l.
Proof.
  revert s. induction l as [|x r IH]; simpl; intros s; auto.
  now rewrite IH.
Qed.

Lemma argsort_pairs keys : argsort keys = map snd (sorted_pairs keys).
Proof. reflexivity. Qed.

Lemma argsort_perm keys : Permutation (argsort keys) (seq 0 (length keys)).
Proof.
  rewrite argsort_pairs. rewrite <- (map_snd_combine_seq keys 0).
  apply Permutation_map, Permutation_sym, sort_by_perm.
Qed.

Lemma sorted_pairs_lookup keys p :
  In p (sorted_pairs keys) -> nth_error keys (snd p) = Some (fst p).
Proof.
  intros H. apply (Permutation_in _ (Permutation_sym (sort_by_perm _ _))) in H.
  destruct p as [k i]. apply In_combine_seq in H. simpl.
  destruct H as [_ H]. now rewrite Nat.sub_0_r in H.
Qed.

Lemma nth_error_combine {A B} (l : list A) (l' : list B) i a b :
  nth_error (combine l l') i = Some (a, b) ->
  nth_error l i = Some a /\ nth_error l' i = Some b.
Proof.
  revert l l'. induction i as [|i IH]; intros [|x r] [|y r']; simpl;
    try discriminate.
  - intros E. inversion E. auto.
  - apply IH.
Qed.

Lemma take_rows_names names steps :
  sorted_names names steps
  = map (fun p => fst (fst p)) (sorted_pairs (combine names steps)).
Proof.
  unfold sorted_names, take_rows. rewrite argsort_pairs, map_map.
  apply map_ext_in. intros [[a b] i] Hin. apply sorted_pairs_lookup in Hin.
  simpl in *. apply nth_error_combine in Hin. destruct Hin as [Ha _].
  now apply nth_error_nth.
Qed.

Lemma take_rows_steps names steps :
  sorted_steps names steps
  = map (fun p => snd (fst p)) (sorted_pairs (combine names steps)).
Proof.
  unfold sorted_steps, take_rows. rewrite argsort_pairs, map_map.
  apply map_ext_in. intros [[a b] i] Hin. apply sorted_pairs_lookup in Hin.
  simpl in *. apply nth_error_combine in Hin. destruct Hin as [_ Hb].
  now apply nth_error_nth.
Qed.

Lemma combine_map_fst_snd {A B C} (f : C -> A * B) (l : list C) :
  combine (map (fun p => fst (f p)) l) (map (fun p => snd (f p)) l) = map f l.
Proof.
  induction l as [|x r IH]; simpl; auto.
  rewrite IH. now destruct (f x).
Qed.

Lemma sorted_keys_pairs names steps :
  combine (sorted_names names steps) (sorted_steps names steps)
  = map fst (sorted_pairs (combine names steps)).
Proof.
  rewrite take_rows_names, take_rows_steps.
  apply (combine_map_fst_snd fst).
Qed.

Lemma Sorted_map {A B} (R : B -> B -> Prop) (f : A -> B) l :
  Sorted (fun x y => R (f x) (f y)) l -> Sorted R (map f l).
Proof.
  induction 1 as [|x r Hs IH Hd]; simpl; constructor; auto.
  destruct Hd; simpl; constructor; auto.
Qed.

Lemma sorted_keys names steps :
  StronglySorted key_le
    (combine (sorted_names names steps) (sorted_steps names steps)).
Proof.
  rewrite sorted_keys_pairs. apply Sorted_StronglySorted.
  - intros a b c. apply key_leb_trans.
  - apply Sorted_map. apply sort_by_sorted.
    intros x y. apply key_leb_total.
Qed.

Lemma sorted_keys_perm names steps :
  Permutation (combine (sorted_names names steps) (sorted_steps names steps))
              (combine names steps).
Proof.
  rewrite sorted_keys_pairs. unfold sorted_pairs.
  eapply perm_trans;
    [apply Permutation_map, Permutation_sym, sort_by_perm|].
  now rewrite map_fst_combine_seq.
Qed.

Lemma sorted_names_length names steps :
  length (sorted_names names steps) = length (combine names steps).
Proof.
  unfold sorted_names, take_rows. rewrite length_map.
  rewrite (Permutation_length (argsort_perm _)). apply length_seq.
Qed.

Lemma sorted_steps_length names steps :
  length (sorted_steps names steps) = length (combine names steps).
Proof.
  unfold sorted_steps, take_rows. rewrite length_map.
  rewrite (Permutation_length (argsort_perm _)). apply length_seq.
Qed.

Lemma sorted_amounts_length names steps amounts :
  length (sorted_amounts names steps amounts) = length (combine names steps).
Proof.
  unfold sorted_amounts, take_rows. rewrite length_map.
  rewrite (Permutation_length (argsort_perm _)). apply length_seq.
Qed.

Lemma StronglySorted_map_fst {A B} (R : A -> A -> Prop) (R' : A * B -> A * B -> Prop)
    (l : list (A * B)) :
  (forall x y, R' x y -> R (fst x) (fst y)) ->
  StronglySorted R' l -> StronglySorted R (map fst l).
Proof.
  intros HR. induction 1 as [|x r Hs IH Hd]; simpl; constructor; auto.
  apply Forall_map. eapply Forall_impl; [|exact Hd]. intros y. apply HR.
Qed.

Lemma map_fst_combine_same {A B} (l : list A) (l' : list B) :
  length l = length l' -> map fst (combine l l') = l.
Proof.
  revert l'. induction l as [|x r IH]; intros [|y r'] H; simpl in *;
    try discriminate; auto.
  f_equal. apply IH. lia.
Qed.

Lemma sorted_names_sorted names steps :
  StronglySorted str_le (sorted_names names steps).
Proof.
  rewrite <- (map_fst_combine_same (sorted_names names steps)
                (sorted_steps names steps))
    by (now rewrite sorted_names_length, sorted_steps_length).
  eapply StronglySorted_map_fst; [|apply sorted_keys].
  intros x y. apply key_leb_names.
Qed.

(** *** Rolling windows *)

Lemma rolling_windows_length {V} w seen (rest : list (string * V)) :
  length (rolling_windows w seen rest) = length rest.
Proof.
  revert seen. induction rest as [|[k v] r IH]; simpl; intros seen; auto.
Qed.

Lemma rolling_windows_nth {V} w (rest : list (string * V)) :
  forall seen i k v,
    nth_error rest i = Some (k, v) ->
    nth_error (rolling_windows w seen rest) i
    = Some (firstn w (map snd
              (filter (fun p => String.eqb (fst p) k)
                 (rev (firstn (S i) rest) ++ seen)))).
Proof.
  induction rest as [|[k0 v0] r IH]; intros seen [|i] k v H; simpl in H;
    try discriminate.
  - inversion H; subst. reflexivity.
  - cbn [rolling_windows nth_error]. rewrite (IH _ _ _ _ H).
    do 4 f_equal. cbn [firstn rev]. now rewrite <- app_assoc.
Qed.

Lemma firstn_S_nth {A} (l : list A) i x :
  nth_error l i = Some x -> firstn (S i) l = firstn i l ++ [x].
Proof.
  revert l. induction i as [|i IH]; intros [|y r] H; simpl in H;
    try discriminate.
  - now inversion H.
  - change (firstn (S (S i)) (y :: r)) with (y :: firstn (S i) r).
    rewrite (IH _ H). reflexivity.
Qed.

(** The window of a row starts with the row itself. *)
Lemma rolling_windows_head {V} w seen (rest : list (string * V)) i k v :
  nth_error rest i = Some (k, v) ->
  exists t, nth_error (rolling_windows (S w) seen rest) i = Some (v :: t).
Proof.
  intros H. rewrite (rolling_windows_nth _ _ _ _ _ _ H).
  rewrite (firstn_S_nth _ _ _ H), rev_app_distr. simpl.
  rewrite String.eqb_refl. simpl. eauto.
Qed.

Lemma In_firstn {A} (l : list A) n x : In x (firstn n l) -> In x l.
Proof.
  intros H. rewrite <- (firstn_skipn n l). apply in_or_app. now left.
Qed.

Lemma firstn_filter_prefix {A} (p : A -> bool) l :
  (forall l1 x l2, l = l1 ++ x :: l2 -> p x = true -> forallb p l1 = true) ->
  forall n, firstn n (filter p l) = filter p (firstn n l).
Proof.
  induction l as [|a r IH]; intros Hp [|n]; simpl; auto.
  destruct (p a) eqn:Ea; simpl.
  - f_equal. apply IH. intros l1 x l2 E Hx.
      specialize (Hp (a :: l1) x l2). simpl in Hp. rewrite E in Hp.
      specialize (Hp eq_refl Hx). now apply andb_true_iff in Hp.
  - assert (Hnone : forall x, In x r -> p x = false).
      { intros x Hin. destruct (p x) eqn:Ex; auto.
        apply in_split in Hin. destruct Hin as [l1 [l2 E]].
        specialize (Hp (a :: l1) x l2). simpl in Hp. rewrite E in Hp.
        specialize (Hp eq_refl Ex). rewrite Ea in Hp. discriminate. }
      assert (Hnil : forall l, incl l r -> filter p l = []).
      { intros l Hl. induction l as [|y l' IHl]; simpl; auto.
        rewrite (Hnone y) by (apply Hl; now left).
        apply IHl. intros t Ht. apply Hl. now right. }
      rewrite (Hnil r) by apply incl_refl.
      rewrite (Hnil (firstn n r)); [now destruct n|].
      intros t Ht. eapply In_firstn; eauto.
Qed.

Lemma StronglySorted_app {A} (R : A -> A -> Prop) l1 l2 :
  StronglySorted R (l1 ++ l2) ->
  StronglySorted R l1 /\ StronglySorted R l2 /\
  forall x y, In x l1 -> In y l2 -> R x y.
Proof.
  induction l1 as [|a r IH]; simpl; intros H.
  - repeat split; auto. constructor. intros x y [].
  - inversion H as [|? ? Hs Hf]; subst. destruct (IH Hs) as [H1 [H2 H3]].
    repeat split; auto.
    + constructor; auto. apply Forall_forall. intros x Hx.
      rewrite Forall_forall in Hf. apply Hf, in_or_app. now left.
    + intros x y [->|Hx] Hy; auto.
      rewrite Forall_forall in Hf. apply Hf, in_or_app. now right.
Qed.

(** In a table sorted by originator the rows of one originator are
    contiguous, so its last [w] rows up to row [i] are among the last
    [w] rows of the table up to row [i]. *)
Lemma rolling_sorted_nth {R} w (f : list num -> R) names amounts i :
  length names = length amounts ->
  StronglySorted str_le names ->
  (i < length names)%nat ->
  nth_error (rolling w f names amounts) i
  = Some (f (trailing_window w names amounts i)).
Proof.
  intros Hlen Hs Hi. unfold rolling, trailing_window.
  set (L := combine names amounts).
  assert (HL : map fst L = names) by now apply map_fst_combine_same.
  assert (HiL : (i < length L)%nat).
  { unfold L. rewrite length_combine. lia. }
  destruct (nth_error L i) as [[k v]|] eqn:E;
    [|apply nth_error_None in E; lia].
  assert (Hk : nth i names EmptyString = k).
  { apply nth_error_combine in E. destruct E as [E _].
    now apply nth_error_nth. }
  rewrite nth_error_map, (rolling_windows_nth _ _ _ _ _ _ E), app_nil_r.
  cbn [option_map]. rewrite Hk. do 2 f_equal.
  rewrite firstn_map. f_equal. apply firstn_filter_prefix.
  intros l1 x l2 El Hx. apply String.eqb_eq in Hx.
  apply forallb_forall. intros y Hy. apply String.eqb_eq.
  assert (Eprefix : firstn (S i) L = rev l2 ++ x :: rev l1).
  { rewrite <- (rev_involutive (firstn (S i) L)), El, rev_app_distr.
    simpl. now rewrite <- app_assoc. }
  assert (Hsp : StronglySorted str_le (map fst (firstn (S i) L))).
  { assert (Hsplit : names = map fst (firstn (S i) L) ++ map fst (skipn (S i) L))
      by (now rewrite <- map_app, firstn_skipn).
    rewrite Hsplit in Hs. now apply StronglySorted_app in Hs. }
  assert (Hlow : str_le (fst x) (fst y)).
  { rewrite Eprefix, map_app in Hsp. apply StronglySorted_app in Hsp.
    destruct Hsp as [_ [Hsp _]]. simpl in Hsp.
    apply StronglySorted_inv in Hsp. destruct Hsp as [_ Hf].
    rewrite Forall_forall in Hf.
    apply Hf, in_map, in_rev. now rewrite rev_involutive. }
  assert (Hup : str_le (fst y) k).
  { rewrite (firstn_S_nth _ _ _ E), map_app in Hsp.
    assert (Hin : In y (firstn (S i) L)).
    { rewrite Eprefix. apply in_or_app. right. right. now apply in_rev in Hy. }
    rewrite (firstn_S_nth _ _ _ E) in Hin. apply in_app_or in Hin.
    destruct Hin as [Hin|[<-|[]]].
    - apply StronglySorted_app in Hsp. destruct Hsp as [_ [_ Hc]].
      apply (Hc (fst y) k); [now apply in_map|now left].
    - apply str_leb_refl. }
  rewrite Hx in Hlow. now apply str_leb_antisym.
Qed.

(** *** Means and maxima *)

Lemma Qofnat_S n : Qofnat (S n) == Qofnat n + 1.
Proof.
  unfold Qofnat. rewrite Nat2Z.inj_succ, <- Z.add_1_r, inject_Z_plus.
  reflexivity.
Qed.

Lemma Qofnat_nonneg n : 0 <= Qofnat n.
Proof.
  induction n as [|n IH].
  - unfold Qle. simpl. lia.
  - rewrite Qofnat_S. lra.
Qed.

Lemma Qmaximum_head x r : x <= Qmaximum x r.
Proof. destruct r; simpl; [lra|apply Q.le_max_l]. Qed.

Lemma Qmaximum_ge x r y : In y r -> y <= Qmaximum x r.
Proof.
  revert x. induction r as [|z r IH]; simpl; intros x H; [contradiction|].
  eapply Qle_trans; [|apply Q.le_max_r].
  destruct H as [->|H]; [apply Qmaximum_head|now apply IH].
Qed.

Lemma Qsum_le_bound l m :
  (forall y, In y l -> y <= m) -> Qsum l <= Qofnat (length l) * m.
Proof.
  induction l as [|x r IH]; intros H.
  - unfold Qle. simpl. lia.
  - cbn [Qsum fold_right length]. rewrite Qofnat_S.
    assert (Hx : x <= m) by (apply H; now left).
    assert (Hr : Qsum r <= Qofnat (length r) * m)
      by (apply IH; intros y Hy; apply H; now right).
    unfold Qsum in Hr. lra.
Qed.

Lemma Qmean_le_maximum x r : Qmean (x :: r) <= Qmaximum x r.
Proof.
  unfold Qmean. apply Qle_shift_div_r.
  - cbn [length]. rewrite Qofnat_S. pose proof (Qofnat_nonneg (length r)). lra.
  - rewrite Qmult_comm. apply Qsum_le_bound.
    intros y [<-|Hy]; [apply Qmaximum_head|now apply Qmaximum_ge].
Qed.

(** *** The table left by a successful run *)

Lemma has_col_setitem n n' c df :
  has_col n (setitem n' c df) = String.eqb n' n || has_col n df.
Proof.
  unfold has_col. destruct (String.eqb_spec n' n) as [->|Hne].
  - now rewrite lookup_setitem_eq.
  - now rewrite lookup_setitem_ne.
Qed.

Lemma has_col_take_frame n idx df :
  has_col n (take_frame idx df) = has_col n df.
Proof.
  unfold has_col. rewrite lookup_take_frame. now destruct (lookup n df).
Qed.

Section FeatureFrame.
Variables (names : list string) (steps amounts olds news : list num).
Variable df : DataFrame.
Hypothesis Hnames : lookup "nameOrig" df = Some (ObjCol names).
Hypothesis Hsteps : lookup "step" df = Some (NumCol steps).
Hypothesis Hamounts : lookup "amount" df = Some (NumCol amounts).

Let out := feature_frame names steps amounts olds news df.

Lemma feature_frame_names :
  lookup "nameOrig" out = Some (ObjCol (sorted_names names steps)).
Proof.
  unfold out, feature_frame, with_row_features. lookup_through.
  rewrite lookup_take_frame. lookup_through. now rewrite Hnames.
Qed.

Lemma feature_frame_steps :
  lookup "step" out = Some (NumCol (sorted_steps names steps)).
Proof.
  unfold out, feature_frame, with_row_features. lookup_through.
  rewrite lookup_take_frame. lookup_through. now rewrite Hsteps.
Qed.

Lemma feature_frame_amounts :
  lookup "amount" out = Some (NumCol (sorted_amounts names steps amounts)).
Proof.
  unfold out, feature_frame, with_row_features. lookup_through.
  rewrite lookup_take_frame. lookup_through. now rewrite Hamounts.
Qed.

Lemma feature_frame_rolling_mean :
  lookup "rolling_mean_amount" out
  = Some (NumCol (rolling rolling_window nanmean (sorted_names names steps)
                    (sorted_amounts names steps amounts))).
Proof. unfold out, feature_frame. now lookup_through. Qed.

Lemma feature_frame_rolling_max :
  lookup "rolling_max_amount" out
  = Some (NumCol (rolling rolling_window nanmax (sorted_names names steps)
                    (sorted_amounts names steps amounts))).
Proof. unfold out, feature_frame. now lookup_through. Qed.

Lemma feature_frame_derived c :
  In c derived_columns -> has_col c out = true.
Proof.
  unfold out, feature_frame, with_row_features. intros H.
  rewrite !has_col_setitem, has_col_take_frame, !has_col_setitem.
  simpl in H.
  repeat (destruct H as [<-|H]; [reflexivity|]). contradiction.
Qed.

Lemma rolling_length {R} (f : list num -> R) :
  length (rolling rolling_window f (sorted_names names steps)
            (sorted_amounts names steps amounts))
  = length (sorted_names names steps).
Proof.
  unfold rolling. rewrite length_map, rolling_windows_length, length_combine.
  rewrite sorted_names_length, sorted_amounts_length. apply Nat.min_id.
Qed.

Lemma feature_frame_sorted_with_rolling : sorted_with_rolling df out.
Proof.
  exists names, steps, amounts, (argsort (combine names steps)),
    (sorted_names names steps), (sorted_steps names steps),
    (sorted_amounts names steps amounts).
  do 2 eexists.
  split; [exact Hnames|]. split; [exact Hsteps|]. split; [exact Hamounts|].
  split; [apply feature_frame_names|]. split; [apply feature_frame_steps|].
  split; [apply feature_frame_amounts|].
  split; [apply feature_frame_rolling_mean|].
  split; [apply feature_frame_rolling_max|].
  split; [apply argsort_perm|].
  do 3 (split; [reflexivity|]).
  split; [apply sorted_keys|].
  split; [apply rolling_length|]. split; [apply rolling_length|].
  intros i Hi.
  assert (Hlen : length (sorted_names names steps)
                 = length (sorted_amounts names steps amounts))
    by now rewrite sorted_names_length, sorted_amounts_length.
  split; apply rolling_sorted_nth; auto using sorted_names_sorted.
Qed.

Lemma feature_frame_rolling_bounds : rolling_bounds out.
Proof.
  do 3 eexists.
  split; [apply feature_frame_amounts|].
  split; [apply feature_frame_rolling_mean|].
  split; [apply feature_frame_rolling_max|].
  assert (Hlen : length (sorted_names names steps)
                 = length (sorted_amounts names steps amounts))
    by now rewrite sorted_names_length, sorted_amounts_length.
  split; [now rewrite rolling_length|]. split; [now rewrite rolling_length|].
  split.
  - intros i a Ha.
    assert (Hi : (i < length (sorted_names names steps))%nat).
    { rewrite Hlen. apply nth_error_Some. congruence. }
    destruct (nth_error (sorted_names names steps) i) as [k|] eqn:Ek;
      [|apply nth_error_None in Ek; lia].
    assert (E : nth_error (combine (sorted_names names steps)
                             (sorted_amounts names steps amounts)) i
                = Some (k, Some a)).
    { clear - Ek Ha. revert Ek Ha.
      generalize (sorted_names names steps) (sorted_amounts names steps amounts).
      induction i as [|i IH]; intros [|x r] [|y r']; simpl; try discriminate.
      - intros E1 E2. now inversion E1; inversion E2.
      - apply IH. }
    unfold rolling, rolling_window.
    destruct (rolling_windows_head 4 [] _ _ _ _ E) as [t Ht].
    rewrite !nth_error_map, Ht. cbn [option_map].
    unfold nanmax, nanmean. cbn [dropna].
    exists (Qmaximum a (dropna t)), (Qmean (a :: dropna t)).
    repeat split; [apply Qmaximum_head|apply Qmean_le_maximum].
  - intros i Hi. rewrite sorted_amounts_length in Hi.
    unfold rolling. rewrite !nth_error_map.
    destruct (nth_error
                (rolling_windows rolling_window []
                   (combine (sorted_names names steps)
                      (sorted_amounts names steps amounts))) i)
      as [w|] eqn:Ew.
    + cbn [option_map]. unfold nanmax, nanmean.
      destruct (dropna w) as [|x r]; [now left|right].
      exists (Qmaximum x r), (Qmean (x :: r)).
      repeat split. apply Qmean_le_maximum.
    + apply nth_error_None in Ew.
      rewrite rolling_windows_length, length_combine in Ew.
      rewrite sorted_names_length, sorted_amounts_length, Nat.min_id in Ew.
      lia.
Qed.

End FeatureFrame.

Lemma build_features_ok self r h self' h' msg :
  build_features self r h = (self', h', (true, msg)) ->
  exists names steps amounts olds news,
    lookup "nameOrig" (h r) = Some (ObjCol names) /\
    lookup "step" (h r) = Some (NumCol steps) /\
    lookup "amount" (h r) = Some (NumCol amounts) /\
    h' r = feature_frame names steps amounts olds news (h r).
Proof.
  unfold build_features. destruct (body (h r)) as [df [u|e]] eqn:E;
    intros H; inversion H; subst; clear H.
  apply body_ok in E.
  destruct E as (names & steps & amounts & olds & news & H1 & H2 & H3 & _ & _ & E).
  exists names, steps, amounts, olds, news. repeat split; auto.
  unfold update. now rewrite Nat.eqb_refl.
Qed.

(** C7.  After a successful [build_features] the rows of the table are
    those it was handed, reordered so that (originator, step) ascends,
    and on every row [rolling_mean_amount] and [rolling_max_amount] are
    the mean and the maximum of the amounts found among the last 5 rows
    up to the current one that belong to the row's originator (fewer at
    the start of the originator's run).  In the scenario of the
    specification, the six transfers 100, ..., 600 of C1 at steps 1..6,
    every row of C1 has a daily velocity of 6 and the sixth has rolling
    mean 400 and rolling maximum 600. *)
Theorem build_features_sorts_and_rolls :
  (forall self r h self' h' msg,
      build_features self r h = (self', h', (true, msg)) ->
      sorted_with_rolling (h r) (h' r)) /\
  Examples.scenario.
Proof.
  split.
  - intros self r h self' h' msg H. apply build_features_ok in H.
    destruct H as (names & steps & amounts & olds & news & H1 & H2 & H3 & E).
    rewrite E. now apply feature_frame_sorted_with_rolling.
  - unfold Examples.scenario.
    split; [reflexivity|]. split; [reflexivity|].
    repeat split; repeat constructor; vm_compute; reflexivity.
Qed.

Lemma build_features_sorts_and_rolls_witness :
  sorted_with_rolling (Examples.store 0%nat) Examples.feature_table.
Proof.
  apply (proj1 build_features_sorts_and_rolls
           FeatureBuilder.__init__ 0%nat Examples.store
           (fst (fst Examples.built)) (snd (fst Examples.built))
           (snd (snd Examples.built))).
  vm_compute. reflexivity.
Defined.

(** C10.  On every row of the table a successful [build_features]
    leaves, the rolling maximum is at least the amount of the row and at
    least the rolling mean: the window of a row always holds the row
    itself.  The first bound is stated for the rows whose amount is
    present; the second holds wherever the rolling values are present.
    (Arithmetic is exact here: the rounding of a running mean is outside
    the model.) *)
Theorem rolling_max_dominates self r h self' h' msg :
  build_features self r h = (self', h', (true, msg)) ->
  rolling_bounds (h' r).
Proof.
  intros H. apply build_features_ok in H.
  destruct H as (names & steps & amounts & olds & news & H1 & H2 & H3 & E).
  rewrite E. now apply feature_frame_rolling_bounds.
Qed.

Lemma rolling_max_dominates_witness : rolling_bounds Examples.feature_table.
Proof.
  apply (rolling_max_dominates
           FeatureBuilder.__init__ 0%nat Examples.store
           (fst (fst Examples.built)) (snd (fst Examples.built))
           (snd (snd Examples.built))).
  vm_compute. reflexivity.
Defined.

(** C9, as the code has it.  [build_features] works in place: the
    builder keeps the very table it was handed, that table becomes the
    feature table (after a successful call it carries the derived
    columns and its rows are reordered by originator and step), and no
    other table of the store is touched.  The table and the outcome
    depend on nothing but the content of the table handed in, so a run
    on the same content gives the same result. *)
Theorem build_features_in_place (self : FeatureBuilder) (r : ref) (h : heap) :
  let '(self', h', outcome) := build_features self r h in
  get_features self' = Some r /\
  h' r = fst (body (h r)) /\
  (forall r', r' <> r -> h' r' = h r') /\
  (fst outcome = true ->
     (forall c, In c derived_columns -> has_col c (h' r) = true) /\
     sorted_with_rolling (h r) (h' r)) /\
  (forall self2 r2 h2,
     h2 r2 = h r ->
     let '(_, h2', outcome2) := build_features self2 r2 h2 in
     h2' r2 = h' r /\ outcome2 = outcome).
Proof.
  destruct (build_features self r h) as [[self' h'] outcome] eqn:E.
  assert (Hrun : h' r = fst (body (h r)) /\ get_features self' = Some r /\
                 (forall r', r' <> r -> h' r' = h r') /\
                 outcome = match snd (body (h r)) with
                           | Ok _ => (true, Built (nrows (fst (body (h r)))))
                           | Raise e => (false, Error e)
                           end).
  { unfold build_features in E.
    destruct (body (h r)) as [df [u|e]]; inversion E; subst; simpl;
      unfold update; rewrite Nat.eqb_refl; repeat split; auto;
      intros r' Hr'; apply Nat.eqb_neq in Hr'; now rewrite Hr'. }
  destruct Hrun as (Hr & Hself & Hother & Hout).
  repeat split; auto.
  - destruct outcome as [b msg]. simpl in H. subst b.
    apply build_features_ok in E.
    destruct E as (names & steps & amounts & olds & news & H1 & H2 & H3 & E).
    rewrite E. now apply feature_frame_derived.
  - destruct outcome as [b msg]. simpl in H. subst b.
    apply build_features_ok in E.
    destruct E as (names & steps & amounts & olds & news & H1 & H2 & H3 & E).
    rewrite E. now apply feature_frame_sorted_with_rolling.
  - intros self2 r2 h2 Heq. unfold build_features. rewrite Heq.
    rewrite Hr, Hout.
    destruct (body (h r)) as [df [u|e]]; simpl; unfold update;
      rewrite Nat.eqb_refl; auto.
Qed.

Lemma build_features_in_place_witness :
  (forall c, In c derived_columns -> has_col c Examples.feature_table = true) /\
  sorted_with_rolling (Examples.store 0%nat) Examples.feature_table.
Proof.
  pose proof (build_features_in_place FeatureBuilder.__init__ 0%nat
                Examples.store) as H.
  change (build_features __init__ 0%nat Examples.store)
    with (fst (fst Examples.built), snd (fst Examples.built),
          (true, snd (snd Examples.built))) in H.
  cbv beta iota in H. destruct H as (_ & _ & _ & H & _).
  apply H. reflexivity.
Defined.

(** C9, as the specification has it, fails: the caller's table is not
    the same after the call.  In the example the call succeeds, the
    table has gained columns and the originators stand in another
    order. *)
Lemma build_features_changes_its_argument :
  let h' := snd (fst Examples.built) in
  fst (snd Examples.built) = true /\
  h' 0%nat <> Examples.store 0%nat /\
  columns (h' 0%nat) <> columns (Examples.store 0%nat) /\
  lookup "nameOrig" (h' 0%nat) <> lookup "nameOrig" (Examples.store 0%nat).
Proof.
  cbv zeta. split; [reflexivity|]. split; [|split].
  - intros H. apply (f_equal columns) in H. vm_compute in H. discriminate.
  - vm_compute. discriminate.
  - vm_compute. discriminate.
Qed.

End FeatureBuilding.

(** ** Risk scoring *)

Section Scoring.
Import RiskScorer.

(** *** Column names *)

Lemma length_append (f s : string) :
  String.length (f ++ s)%string = (String.length f + String.length s)%nat.
Proof. induction f as [|c f IH]; simpl; auto. Qed.

Lemma substring_full (s : string) : substring 0 (String.length s) s = s.
Proof. induction s as [|c s IH]; simpl; auto. now rewrite IH. Qed.

Lemma substring_skip (f s : string) m :
  substring (String.length f) m (f ++ s)%string = substring 0 m s.
Proof. induction f as [|c f IH]; simpl; auto. Qed.

Lemma endswith_append suffix f :
  endswith suffix (f ++ suffix)%string = true.
Proof.
  unfold endswith. rewrite length_append.
  replace (String.length f + String.length suffix - String.length suffix)%nat
    with (String.length f) by lia.
  rewrite substring_skip, substring_full, String.eqb_refl, andb_true_r.
  apply Nat.leb_le. lia.
Qed.

Lemma endswith_zname f : endswith "_zscore" (zname f) = true.
Proof. apply endswith_append. Qed.

(** *** Frames *)

Lemma lookup_In_columns n df c : lookup n df = Some c -> In n (columns df).
Proof.
  induction df as [|[k c0] r IH]; simpl; [discriminate|].
  destruct (String.eqb_spec k n); auto.
Qed.

Lemma In_columns_lookup n df : In n (columns df) -> exists c, lookup n df = Some c.
Proof.
  induction df as [|[k c0] r IH]; simpl; [contradiction|].
  destruct (String.eqb_spec k n) as [->|Hne]; eauto.
  intros [E|H]; [contradiction|auto].
Qed.

Lemma columns_setitem_incl n c df : incl (columns df) (columns (setitem n c df)).
Proof.
  induction df as [|[k c0] r IH]; simpl.
  - intros x [].
  - destruct (String.eqb k n); simpl.
    + apply incl_refl.
    + intros x [E|H]; [now left|right; now apply IH].
Qed.

Lemma In_columns_setitem n c df : In n (columns (setitem n c df)).
Proof. eapply lookup_In_columns, lookup_setitem_eq. Qed.

Lemma numeric_z_setitem n xs df :
  numeric_z df -> numeric_z (setitem n (NumCol xs) df).
Proof.
  intros H c col Hl He. destruct (String.eqb_spec n c) as [->|Hne].
  - rewrite lookup_setitem_eq in Hl. now inversion Hl.
  - rewrite lookup_setitem_ne in Hl by assumption. eauto.
Qed.

Lemma numeric_z_setitem_other n col df :
  endswith "_zscore" n = false ->
  numeric_z df -> numeric_z (setitem n col df).
Proof.
  intros Hn H c col' Hl He. destruct (String.eqb_spec n c) as [->|Hne].
  - congruence.
  - rewrite lookup_setitem_ne in Hl by assumption. eauto.
Qed.

Lemma lookup_num_setitem n xs c df :
  (exists ys, lookup c df = Some (NumCol ys)) ->
  exists ys, lookup c (setitem n (NumCol xs) df) = Some (NumCol ys).
Proof.
  intros [ys H]. destruct (String.eqb_spec n c) as [->|Hne].
  - rewrite lookup_setitem_eq. eauto.
  - rewrite lookup_setitem_ne by assumption. eauto.
Qed.

Lemma setitem_head k c0 r n c :
  k <> n -> setitem n c ((k, c0) :: r) = (k, c0) :: setitem n c r.
Proof.
  intros H. simpl. destruct (String.eqb_spec k n); congruence.
Qed.

Lemma mapM_ok {A B} (f : A -> result B) l :
  (forall a, In a l -> exists b, f a = Ok b) -> exists bs, mapM f l = Ok bs.
Proof.
  induction l as [|a r IH]; simpl; intros H; eauto.
  destruct (H a (or_introl eq_refl)) as [b Hb]. rewrite Hb. simpl.
  destruct IH as [bs Hbs]; [intros; apply H; now right|].
  rewrite Hbs. simpl. eauto.
Qed.

Lemma bind_eq {A B} (m : M A) (k : A -> M B) df df1 a :
  m df = (df1, Ok a) -> bind m k df = k a df1.
Proof. unfold bind. now intros ->. Qed.

(** *** The steps of a scoring run *)

Variable sqrt : Q -> Q.

Lemma compute_z_scores_inv fs : forall df df1 u,
  _compute_z_scores sqrt fs df = (df1, Ok u) ->
  incl (columns df) (columns df1) /\
  (forall f, In f fs -> In (zname f) (columns df1)) /\
  (numeric_z df -> numeric_z df1) /\
  (forall c, (forall f, In f fs -> c <> zname f) -> lookup c df1 = lookup c df).
Proof.
  induction fs as [|f r IH]; intros df df1 u H.
  - inversion H; subst. repeat split; auto using incl_refl. intros f [].
  - cbn [_compute_z_scores] in H. rewrite bind_read in H.
    destruct (get_num f df) as [xs|e] eqn:E; [|discriminate].
    cbv zeta in H. rewrite bind_assign in H. apply IH in H.
    destruct H as (H1 & H2 & H3 & H4). repeat split.
    + eapply incl_tran; [apply columns_setitem_incl|exact H1].
    + intros g [<-|Hg]; auto. apply H1, In_columns_setitem.
    + intros Hz. apply H3. now apply numeric_z_setitem.
    + intros c Hc. rewrite H4 by (intros g Hg; apply Hc; now right).
      apply lookup_setitem_ne. intros Heq. apply (Hc f); [now left|auto].
Qed.

Lemma compute_z_scores_ok fs : forall df,
  (forall f, In f fs -> exists xs, lookup f df = Some (NumCol xs)) ->
  exists df1, _compute_z_scores sqrt fs df = (df1, Ok tt).
Proof.
  induction fs as [|f r IH]; intros df H.
  - exists df. reflexivity.
  - destruct (H f (or_introl eq_refl)) as [xs Hxs].
    cbn [_compute_z_scores]. rewrite bind_read.
    apply get_num_ok in Hxs. rewrite Hxs. cbv zeta. rewrite bind_assign.
    apply IH. intros g Hg. apply lookup_num_setitem. apply H. now right.
Qed.

Lemma zcols_nonempty df c :
  In c (columns df) -> endswith "_zscore" c = true -> zcols df <> [].
Proof.
  intros Hin He Hnil. unfold zcols in Hnil.
  assert (H : In c (filter (endswith "_zscore") (columns df)))
    by (apply filter_In; auto).
  rewrite Hnil in H. inversion H.
Qed.

Lemma compute_final_score_inv df1 df3 u :
  _compute_final_score df1 = (df3, Ok u) ->
  zcols df1 <> [] ->
  exists zs,
    mapM (fun c => get_num c df1) (zcols df1) = Ok zs /\
    df3 = setitem "risk_score"
            (NumCol (risk_of (abs_row_mean zs (nrows df1)) (nrows df1)))
            (setitem "composite_zscore"
               (NumCol (abs_row_mean zs (nrows df1))) df1).
Proof.
  unfold _compute_final_score. fold (zcols df1). intros H Hne.
  destruct (zcols df1) as [|c0 cs] eqn:Ez; [contradiction|].
  rewrite bind_read in H.
  destruct (mapM (fun c => get_num c df1) (c0 :: cs)) as [zs|e] eqn:Em;
    [|discriminate].
  exists zs. split; auto.
  rewrite bind_assign, bind_read, get_num_setitem_eq in H. cbv zeta in H.
  unfold risk_of.
  destruct (num_gtn _ _); unfold assign in H; now inversion H.
Qed.

Lemma compute_final_score_ok df1 :
  zcols df1 <> [] -> numeric_z df1 ->
  exists df3, _compute_final_score df1 = (df3, Ok tt).
Proof.
  intros Hne Hz.
  destruct (mapM_ok (fun c => get_num c df1) (zcols df1)) as [zs Hzs].
  { intros c Hc. apply filter_In in Hc. destruct Hc as [Hin He].
    apply In_columns_lookup in Hin. destruct Hin as [col Hcol].
    specialize (Hz c col Hcol He). destruct col; try discriminate.
    exists xs. now apply get_num_ok. }
  unfold _compute_final_score. fold (zcols df1).
  destruct (zcols df1) as [|c0 cs] eqn:Ez; [contradiction|].
  rewrite bind_read, Hzs, bind_assign, bind_read, get_num_setitem_eq.
  cbv zeta. destruct (num_gtn _ _); unfold assign; eauto.
Qed.

Lemma scoring_inv self fs df df' k :
  scoring sqrt self fs df = (df', Ok k) -> fs <> [] ->
  exists df1 zs,
    _compute_z_scores sqrt fs df = (df1, Ok tt) /\
    mapM (fun c => get_num c df1) (zcols df1) = Ok zs /\
    df' = scored_frame self df1 zs.
Proof.
  unfold scoring. intros H Hfs.
  apply bind_ok in H. destruct H as (df1 & [] & Hz & H).
  apply bind_ok in H. destruct H as (df3 & u & Hf & H).
  assert (Hne : zcols df1 <> []).
  { destruct fs as [|f r]; [contradiction|].
    apply compute_z_scores_inv in Hz. destruct Hz as (_ & Hin & _).
    eapply zcols_nonempty; [apply (Hin f); now left|apply endswith_zname]. }
  apply (compute_final_score_inv _ _ _ Hf) in Hne.
  destruct Hne as (zs & Hzs & ->).
  exists df1, zs. repeat split; auto.
  unfold _assign_risk_bands, _flag_anomalies in H.
  repeat step_in H. inversion H; subst; clear H.
  repeat match goal with
  | H : Ok _ = Ok _ |- _ => inversion H; subst; clear H
  end.
  reflexivity.
Qed.

Lemma scoring_ok self fs df :
  fs <> [] ->
  (forall f, In f fs -> exists xs, lookup f df = Some (NumCol xs)) ->
  numeric_z df ->
  exists df' k, scoring sqrt self fs df = (df', Ok k).
Proof.
  intros Hfs Hnum Hz.
  destruct (compute_z_scores_ok fs df Hnum) as [df1 H1].
  assert (H1' := H1). apply compute_z_scores_inv in H1'.
  destruct H1' as (_ & Hin & Hz1 & _).
  assert (Hne : zcols df1 <> []).
  { destruct fs as [|f r]; [contradiction|].
    eapply zcols_nonempty; [apply (Hin f); now left|apply endswith_zname]. }
  destruct (compute_final_score_ok df1 Hne (Hz1 Hz)) as [df3 H3].
  destruct (compute_final_score_inv _ _ _ H3 Hne) as (zs & _ & E3).
  unfold scoring. rewrite (bind_eq _ _ _ _ _ H1), (bind_eq _ _ _ _ _ H3).
  subst df3. unfold _assign_risk_bands, _flag_anomalies.
  rewrite !bind_bind, bind_read, get_num_setitem_eq, bind_assign.
  rewrite !bind_bind, bind_read.
  rewrite !get_num_setitem_ne by discriminate.
  rewrite get_num_setitem_eq, bind_assign, bind_read.
  rewrite get_obj_setitem_ne by discriminate.
  rewrite get_obj_setitem_eq. unfold ret. eauto.
Qed.

Lemma compute_success self features self' msg :
  compute_risk_scores sqrt self features = (self', (true, msg)) ->
  exists agg df k,
    _aggregate_to_customer features = Ok agg /\
    _get_available_features sqrt self agg <> [] /\
    scoring sqrt (set_risk_scores self agg) (_get_available_features sqrt self agg) agg
      = (df, Ok k) /\
    self' = set_risk_scores self df /\
    msg = Scored (nrows df) k.
Proof.
  unfold compute_risk_scores.
  destruct (_aggregate_to_customer features) as [agg|e]; [|discriminate].
  change (_get_available_features sqrt (set_risk_scores self agg) agg)
    with (_get_available_features sqrt self agg).
  destruct (_get_available_features sqrt self agg) as [|f fs] eqn:Ef; [discriminate|].
  destruct (scoring sqrt (set_risk_scores self agg) (f :: fs) agg)
    as [df [k|e]] eqn:Es; [|discriminate].
  intros H. inversion H; subst. exists agg, df, k.
  rewrite Ef. repeat split; auto. discriminate.
Qed.

(** *** Minimum, maximum and the rescaling *)

Lemma In_dropna q xs : In q (dropna xs) <-> In (Some q) xs.
Proof.
  induction xs as [|[x|] r IH]; simpl.
  - tauto.
  - rewrite IH. split; intros [E|H]; auto; left; congruence.
  - rewrite IH. split; auto. intros [E|H]; [discriminate|auto].
Qed.

Lemma Qminimum_In x r : In (Qminimum x r) (x :: r).
Proof.
  revert x. induction r as [|y r IH]; intros x; simpl; auto.
  unfold Qmin, GenericMinMax.gmin.
  destruct (Qcompare x (Qminimum y r)); auto. right. apply IH.
Qed.

Lemma Qmaximum_In x r : In (Qmaximum x r) (x :: r).
Proof.
  revert x. induction r as [|y r IH]; intros x; simpl; auto.
  unfold Qmax, GenericMinMax.gmax.
  destruct (Qcompare x (Qmaximum y r)); auto; right; apply IH.
Qed.

Lemma Qminimum_le x r y : In y (x :: r) -> Qminimum x r <= y.
Proof.
  revert x. induction r as [|z r IH]; intros x.
  - intros [<-|[]]. simpl. lra.
  - intros H. cbn [Qminimum]. destruct H as [<-|H].
    + apply Q.le_min_l.
    + eapply Qle_trans; [apply Q.le_min_r|now apply IH].
Qed.

Lemma Qmaximum_bound x r y : In y (x :: r) -> y <= Qmaximum x r.
Proof.
  intros [<-|H]; [apply Qmaximum_head|now apply Qmaximum_ge].
Qed.

Lemma abs_row_mean_length zs n : length (abs_row_mean zs n) = n.
Proof. unfold abs_row_mean. now rewrite length_map, length_seq. Qed.

Lemma risk_of_minmax comp n :
  length comp = n -> minmax_rescaled comp (risk_of comp n).
Proof.
  intros Hlen. unfold minmax_rescaled, risk_of, nanmin, nanmax.
  destruct (dropna comp) as [|x r] eqn:Ev.
  - cbn [num_gtn]. split; [now rewrite repeat_length|]. split.
    + intros (a & b & Ha & _). apply In_dropna in Ha. rewrite Ev in Ha.
      contradiction.
    + intros _ q Hq. now apply repeat_spec in Hq.
  - set (lo := Qminimum x r). set (hi := Qmaximum x r).
    assert (Hlo : is_min lo comp).
    { split.
      - apply In_dropna. rewrite Ev. apply Qminimum_In.
      - intros c Hc. apply In_dropna in Hc. rewrite Ev in Hc.
        now apply Qminimum_le. }
    assert (Hhi : is_max hi comp).
    { split.
      - apply In_dropna. rewrite Ev. apply Qmaximum_In.
      - intros c Hc. apply In_dropna in Hc. rewrite Ev in Hc.
        now apply Qmaximum_bound. }
    cbn [num_gtn]. destruct (Qltb lo hi) eqn:Elt; reflect_cmp.
    + split; [now rewrite length_map|]. split.
      * intros _. exists lo, hi. repeat split; try apply Hlo; try apply Hhi; auto.
        intros i c Hc. exists ((c - lo) / (hi - lo) * 100).
        rewrite nth_error_map, Hc.
        assert (Hin : In (Some c) comp) by (eapply nth_error_In; eauto).
        assert (Hc1 : lo <= c) by now apply Hlo.
        assert (Hc2 : c <= hi) by now apply Hhi.
        assert (Hq1 : 0 <= (c - lo) / (hi - lo))
          by (apply Qle_shift_div_l; lra).
        assert (Hq2 : (c - lo) / (hi - lo) <= 1)
          by (apply Qle_shift_div_r; lra).
        split; [reflexivity|]. split; [reflexivity|].
        split; [split; lra|]. split.
        -- intros E. rewrite E. field. lra.
        -- intros E. rewrite E. field. lra.
      * intros Hall. exfalso.
        destruct Hlo as [Hlo _], Hhi as [Hhi _].
        specialize (Hall lo hi Hlo Hhi). lra.
    + split; [now rewrite repeat_length|]. split.
      * intros (a & b & Ha & Hb & Hab). exfalso.
        destruct Hlo as [_ Hlo], Hhi as [_ Hhi].
        pose proof (Hlo a Ha). pose proof (Hlo b Hb).
        pose proof (Hhi a Ha). pose proof (Hhi b Hb).
        apply Hab. lra.
      * intros _ q Hq. now apply repeat_spec in Hq.
Qed.

Lemma scored_frame_composite self df1 zs :
  lookup "composite_zscore" (scored_frame self df1 zs)
  = Some (NumCol (abs_row_mean zs (nrows df1))).
Proof. unfold scored_frame. now lookup_through. Qed.

Lemma scored_frame_risk self df1 zs :
  lookup "risk_score" (scored_frame self df1 zs)
  = Some (NumCol (risk_of (abs_row_mean zs (nrows df1)) (nrows df1))).
Proof. unfold scored_frame. now lookup_through. Qed.

(** C1.  In the customer table of a successful [compute_risk_scores]
    the risk score is the min-max rescaling of the composite z-score:
    when the population has two different composite scores, every
    customer gets [(composite - min) / (max - min) * 100], hence 0 at
    the minimum and 100 at the maximum; when all composite scores are
    the same, every customer gets exactly 50. *)
Theorem risk_score_is_minmax_rescaling self features self' msg :
  compute_risk_scores sqrt self features = (self', (true, msg)) ->
  exists df composite risk,
    risk_scores self' = Some df /\
    lookup "composite_zscore" df = Some (NumCol composite) /\
    lookup "risk_score" df = Some (NumCol risk) /\
    minmax_rescaled composite risk.
Proof.
  intros H. apply compute_success in H.
  destruct H as (agg & df & k & _ & Hne & Hs & -> & _).
  apply scoring_inv in Hs; auto. destruct Hs as (df1 & zs & _ & _ & ->).
  do 3 eexists. split; [reflexivity|].
  split; [apply scored_frame_composite|].
  split; [apply scored_frame_risk|].
  apply risk_of_minmax, abs_row_mean_length.
Qed.

(** *** Aggregation to customer level *)

Lemma mapM_inv {A B} (f : A -> result B) l bs :
  mapM f l = Ok bs -> Forall2 (fun a b => f a = Ok b) l bs.
Proof.
  revert bs. induction l as [|a r IH]; simpl; intros bs H.
  - inversion H. constructor.
  - destruct (f a) as [b|e] eqn:Ea; [|discriminate]. simpl in H.
    destruct (mapM f r) as [bs'|e] eqn:Er; [|discriminate]. simpl in H.
    inversion H; subst. constructor; auto.
Qed.

Lemma select_dtypes_number_incl df : incl (select_dtypes_number df) (columns df).
Proof.
  unfold select_dtypes_number, columns. intros x H.
  apply in_map_iff in H. destruct H as (p & <- & Hp).
  apply filter_In in Hp. apply in_map. tauto.
Qed.

Lemma aggregate_inv features ids agg :
  lookup "nameOrig" features = Some (ObjCol ids) ->
  _aggregate_to_customer features = Ok agg ->
  exists cols,
    agg = ("nameOrig", ObjCol (unique_sorted ids)) :: cols /\
    Forall (fun p => exists xs, snd p = NumCol xs /\
                       length xs = length (unique_sorted ids)) cols /\
    map fst cols = select_dtypes_number features.
Proof.
  intros Hid. unfold _aggregate_to_customer, has_col. rewrite Hid. cbn [negb].
  unfold groupby_agg. apply get_obj_ok in Hid. rewrite Hid. cbn [rbind].
  set (agg_dict := map _ (select_dtypes_number features)).
  assert (Hnames : map fst agg_dict = select_dtypes_number features).
  { unfold agg_dict. rewrite map_map. simpl. apply map_id. }
  destruct agg_dict as [|ch0 rest] eqn:Ed; [discriminate|]. rewrite <- Ed in *.
  destruct (mapM _ agg_dict) as [cols|e] eqn:Em; [|discriminate].
  cbn [rbind]. intros H. inversion H; subst agg. exists cols.
  split; [reflexivity|]. apply mapM_inv in Em. rewrite <- Hnames.
  clear - Em. induction Em as [|ch p l l' Hp _ IH]; simpl.
  - split; [constructor|reflexivity].
  - destruct (get_num (fst ch) features) as [xs|e]; [|discriminate].
    simpl in Hp. inversion Hp; subst p. destruct IH as [IH1 IH2].
    split.
    + constructor; auto. simpl. eexists. split; [reflexivity|].
      now rewrite length_map.
    + simpl. now rewrite IH2.
Qed.

Lemma aggregate_no_id features :
  has_col "nameOrig" features = false ->
  _aggregate_to_customer features = Ok features.
Proof. unfold _aggregate_to_customer. now intros ->. Qed.

(** *** The distinct originators *)

Lemma dedup_sorted_In x l : In x (dedup_sorted l) <-> In x l.
Proof.
  induction l as [|a [|b r] IH]; simpl in *; try tauto.
  destruct (String.eqb_spec a b) as [->|Hne]; simpl; rewrite IH; simpl; tauto.
Qed.

Lemma dedup_sorted_NoDup l : StronglySorted str_le l -> NoDup (dedup_sorted l).
Proof.
  induction 1 as [|a r Hs IH Hf].
  - constructor.
  - destruct r as [|b r']; [repeat constructor; intros []|].
    change (dedup_sorted (a :: b :: r'))
      with (if String.eqb a b then dedup_sorted (b :: r')
            else a :: dedup_sorted (b :: r')).
    destruct (String.eqb_spec a b) as [->|Hne]; auto.
    constructor; auto. rewrite dedup_sorted_In. intros Hin.
    rewrite Forall_forall in Hf. apply Hne. apply str_leb_antisym.
    + apply Hf. now left.
    + apply StronglySorted_inv in Hs. destruct Hs as [_ Hb].
      rewrite Forall_forall in Hb. destruct Hin as [->|Hin]; [apply str_leb_refl|].
      now apply Hb.
Qed.

Lemma sort_by_str_sorted l : StronglySorted str_le (sort_by str_leb l).
Proof.
  apply Sorted_StronglySorted.
  - intros a b c. apply str_leb_trans.
  - apply sort_by_sorted. apply str_leb_total.
Qed.

Lemma unique_sorted_NoDup l : NoDup (unique_sorted l).
Proof. apply dedup_sorted_NoDup, sort_by_str_sorted. Qed.

Lemma unique_sorted_In x l : In x (unique_sorted l) <-> In x l.
Proof.
  unfold unique_sorted. rewrite dedup_sorted_In. split; intros H.
  - eapply Permutation_in; [apply Permutation_sym, sort_by_perm|exact H].
  - eapply Permutation_in; [apply sort_by_perm|exact H].
Qed.

Lemma NoDup_all_equal_length {A} (l : list A) :
  NoDup l -> (forall a b, In a l -> In b l -> a = b) -> (length l <= 1)%nat.
Proof.
  intros Hnd Heq. destruct l as [|a [|b r]]; simpl; try lia.
  exfalso. inversion Hnd as [|? ? Ha _]; subst. apply Ha.
  rewrite (Heq a b); simpl; auto.
Qed.

Lemma unique_sorted_single l :
  (forall a b, In a l -> In b l -> a = b) -> (length (unique_sorted l) <= 1)%nat.
Proof.
  intros H. apply NoDup_all_equal_length; [apply unique_sorted_NoDup|].
  intros a b Ha Hb. apply H; now apply unique_sorted_In.
Qed.

(** *** Eligible features *)

Lemma dropna_length xs : (length (dropna xs) <= length xs)%nat.
Proof. induction xs as [|[x|] r IH]; simpl; lia. Qed.

Lemma eligible_numeric df f :
  eligible sqrt df f = true -> exists xs, lookup f df = Some (NumCol xs).
Proof.
  unfold eligible. intros H. apply andb_true_iff in H. destruct H as [_ H].
  destruct (lookup f df) as [[xs|bs|ss]|]; try discriminate. eauto.
Qed.

Lemma eligible_short df f xs :
  lookup f df = Some (NumCol xs) -> (length xs <= 1)%nat ->
  eligible sqrt df f = false.
Proof.
  intros Hl Hlen. unfold eligible. rewrite Hl. unfold std.
  pose proof (dropna_length xs).
  destruct (Nat.ltb_spec (length (dropna xs)) 2); [|lia].
  apply andb_false_r.
Qed.

Lemma lookup_In n df c : lookup n df = Some c -> In (n, c) df.
Proof.
  induction df as [|[k c0] r IH]; simpl; [discriminate|].
  destruct (String.eqb_spec k n) as [->|Hne]; intros H.
  - inversion H. now left.
  - right. auto.
Qed.

Lemma available_nil self df :
  (forall f, In f (_risk_features self) -> eligible sqrt df f = false) ->
  _get_available_features sqrt self df = [].
Proof.
  unfold _get_available_features. intros H.
  induction (_risk_features self) as [|f r IH]; simpl; auto.
  rewrite (H f) by now left. apply IH. intros g Hg. apply H. now right.
Qed.

Lemma available_eligible self df f :
  In f (_get_available_features sqrt self df) <->
  In f (_risk_features self) /\ eligible sqrt df f = true.
Proof. unfold _get_available_features. apply filter_In. Qed.

Lemma compute_no_features self features agg :
  _aggregate_to_customer features = Ok agg ->
  _get_available_features sqrt self agg = [] ->
  compute_risk_scores sqrt self features
  = (set_risk_scores self agg, (false, NoFeatures)).
Proof.
  unfold compute_risk_scores. intros -> H.
  change (_get_available_features sqrt (set_risk_scores self agg) agg)
    with (_get_available_features sqrt self agg).
  now rewrite H.
Qed.

Lemma compute_scored self features agg df k :
  _aggregate_to_customer features = Ok agg ->
  _get_available_features sqrt self agg <> [] ->
  scoring sqrt (set_risk_scores self agg)
    (_get_available_features sqrt self agg) agg = (df, Ok k) ->
  compute_risk_scores sqrt self features
  = (set_risk_scores self df, (true, Scored (nrows df) k)).
Proof.
  unfold compute_risk_scores. intros -> Hne Hs.
  change (_get_available_features sqrt (set_risk_scores self agg) agg)
    with (_get_available_features sqrt self agg).
  destruct (_get_available_features sqrt self agg) as [|f fs]; [contradiction|].
  now rewrite Hs.
Qed.

Lemma numeric_z_agg g cols :
  Forall (fun p : string * column =>
            exists xs, snd p = NumCol xs /\ length xs = length g) cols ->
  numeric_z (("nameOrig", ObjCol g) :: cols).
Proof.
  intros Hf c col Hl He. cbn [lookup] in Hl.
  destruct (String.eqb_spec "nameOrig" c) as [<-|Hne].
  - vm_compute in He. discriminate.
  - apply lookup_In in Hl. rewrite Forall_forall in Hf.
    destruct (Hf _ Hl) as (xs & E & _). simpl in E. now subst col.
Qed.

Lemma compute_z_scores_head fs : forall df df1 u k c0 r,
  _compute_z_scores sqrt fs df = (df1, Ok u) ->
  df = (k, c0) :: r -> endswith "_zscore" k = false ->
  exists r', df1 = (k, c0) :: r'.
Proof.
  induction fs as [|f fs IH]; intros df df1 u k c0 r H Hdf Hk.
  - inversion H; subst. eauto.
  - cbn [_compute_z_scores] in H. rewrite bind_read in H.
    destruct (get_num f df) as [xs|e]; [|discriminate].
    cbv zeta in H. rewrite bind_assign in H. subst df.
    rewrite setitem_head in H.
    + eapply IH; eauto.
    + intros E. pose proof (endswith_zname f) as Hz. fold (zname f) in E.
      rewrite <- E in Hz. congruence.
Qed.

Lemma single_customer_not_eligible features ids agg f :
  lookup "nameOrig" features = Some (ObjCol ids) ->
  (forall a b, In a ids -> In b ids -> a = b) ->
  _aggregate_to_customer features = Ok agg ->
  eligible sqrt agg f = false.
Proof.
  intros Hid Hone Hagg.
  destruct (aggregate_inv _ _ _ Hid Hagg) as (cols & -> & Hcols & _).
  destruct (lookup f (("nameOrig", ObjCol (unique_sorted ids)) :: cols))
    as [[xs|bs|ss]|] eqn:El;
    try (unfold eligible; rewrite El; apply andb_false_r).
  eapply eligible_short; eauto.
  cbn [lookup] in El. destruct (String.eqb "nameOrig" f); [discriminate|].
  apply lookup_In in El. rewrite Forall_forall in Hcols.
  destruct (Hcols _ El) as (ys & E & Hlen). simpl in E. inversion E; subst ys.
  rewrite Hlen. now apply unique_sorted_single.
Qed.

(** C2, as the code has it.  [compute_risk_scores] fails, reporting
    that no feature is available, whenever no candidate feature is
    numeric with a non-zero standard deviation in the customer table; it
    fails in particular on a dataset with a single originator.  A table
    without an originator column is not refused: it is scored as it
    stands, row by row, and the call succeeds as soon as one candidate
    is eligible there.  With an originator column and an eligible
    candidate the call succeeds and the customer table has one row per
    distinct originator. *)
Theorem compute_risk_scores_outcome (self : RiskScorer) (features : DataFrame) :
  let run := compute_risk_scores sqrt self features in
  (forall customer_data,
     _aggregate_to_customer features = Ok customer_data ->
     (forall f, In f (_risk_features self) ->
                eligible sqrt customer_data f = false) ->
     run = (set_risk_scores self customer_data, (false, NoFeatures))) /\
  (forall ids,
     lookup "nameOrig" features = Some (ObjCol ids) ->
     (forall a b, In a ids -> In b ids -> a = b) ->
     fst (snd run) = false) /\
  (has_col "nameOrig" features = false ->
   _aggregate_to_customer features = Ok features /\
   ((exists f, In f (_risk_features self) /\ eligible sqrt features f = true) ->
    numeric_z features ->
    fst (snd run) = true)) /\
  (forall ids customer_data,
     lookup "nameOrig" features = Some (ObjCol ids) ->
     _aggregate_to_customer features = Ok customer_data ->
     (exists f, In f (_risk_features self) /\
                eligible sqrt customer_data f = true) ->
     exists df high_risk,
       run = (set_risk_scores self df,
              (true, Scored (length (unique_sorted ids)) high_risk)) /\
       lookup "nameOrig" df = Some (ObjCol (unique_sorted ids)) /\
       nrows df = length (unique_sorted ids) /\
       NoDup (unique_sorted ids) /\
       (forall x, In x (unique_sorted ids) <-> In x ids)).
Proof.
  cbv zeta.
  assert (Hnone : forall agg,
             _aggregate_to_customer features = Ok agg ->
             (forall f, In f (_risk_features self) -> eligible sqrt agg f = false) ->
             fst (snd (compute_risk_scores sqrt self features)) = false).
  { intros agg Hagg Hel.
    now rewrite (compute_no_features _ _ _ Hagg (available_nil _ _ Hel)). }
  assert (Hraise : forall e,
             _aggregate_to_customer features = Raise e ->
             fst (snd (compute_risk_scores sqrt self features)) = false).
  { intros e He. unfold compute_risk_scores. now rewrite He. }
  assert (Hscore : forall agg f,
             _aggregate_to_customer features = Ok agg ->
             In f (_risk_features self) -> eligible sqrt agg f = true ->
             numeric_z agg ->
             exists df k,
               scoring sqrt (set_risk_scores self agg)
                 (_get_available_features sqrt self agg) agg = (df, Ok k) /\
               compute_risk_scores sqrt self features
               = (set_risk_scores self df, (true, Scored (nrows df) k))).
  { intros agg f Hagg Hf Hel Hz.
    assert (Hne : _get_available_features sqrt self agg <> []).
    { intros Hnil.
      assert (Hin : In f (_get_available_features sqrt self agg))
        by (apply available_eligible; auto).
      rewrite Hnil in Hin. inversion Hin. }
    destruct (scoring_ok (set_risk_scores self agg)
                (_get_available_features sqrt self agg) agg Hne) as (df & k & Hs);
      auto.
    { intros g Hg. apply available_eligible in Hg.
      now apply eligible_numeric. }
    exists df, k. split; auto. exact (compute_scored _ _ _ _ _ Hagg Hne Hs). }
  split; [|split; [|split]].
  - intros agg Hagg Hel.
    apply (compute_no_features _ _ _ Hagg (available_nil _ _ Hel)).
  - intros ids Hid Hone.
    destruct (_aggregate_to_customer features) as [agg|e] eqn:Hagg; eauto.
    apply (Hnone agg eq_refl). intros f _.
    eapply single_customer_not_eligible; eauto.
  - intros Hno. split; [now apply aggregate_no_id|].
    intros (f & Hf & Hel) Hz.
    destruct (Hscore features f (aggregate_no_id _ Hno) Hf Hel Hz)
      as (df & k & _ & ->).
    reflexivity.
  - intros ids agg Hid Hagg (f & Hf & Hel).
    destruct (aggregate_inv _ _ _ Hid Hagg) as (cols & E & Hcols & _).
    assert (Hz : numeric_z agg) by (subst agg; now apply numeric_z_agg).
    destruct (Hscore agg f Hagg Hf Hel Hz) as (df & k & Hs & Hrun).
    assert (Hne : _get_available_features sqrt self agg <> []).
    { intros Hnil.
      assert (Hin : In f (_get_available_features sqrt self agg))
        by (apply available_eligible; auto).
      rewrite Hnil in Hin. inversion Hin. }
    destruct (scoring_inv _ _ _ _ _ Hs Hne) as (df1 & zs & H1 & _ & Edf).
    destruct (compute_z_scores_head _ _ _ _ _ _ _ H1 E eq_refl) as (r' & E1).
    assert (Hrows : nrows df = length (unique_sorted ids))
      by (subst df df1; reflexivity).
    exists df, k. rewrite Hrun, Hrows. split; [reflexivity|].
    split; [subst df df1; reflexivity|]. split; [reflexivity|].
    split; [apply unique_sorted_NoDup|]. intros x. apply unique_sorted_In.
Qed.

(** *** Dispersion *)

Lemma Qsum_nonneg l : (forall x, In x l -> 0 <= x) -> 0 <= Qsum l.
Proof.
  induction l as [|a r IH]; intros H.
  - unfold Qle. simpl. lia.
  - cbn [Qsum fold_right].
    assert (0 <= a) by (apply H; now left).
    assert (0 <= Qsum r) by (apply IH; intros; apply H; now right).
    unfold Qsum in *. lra.
Qed.

Lemma Qsum_pos l x :
  (forall y, In y l -> 0 <= y) -> In x l -> 0 < x -> 0 < Qsum l.
Proof.
  induction l as [|a r IH]; intros Hnn Hin Hx; [contradiction|].
  cbn [Qsum fold_right].
  assert (Ha : 0 <= a) by (apply Hnn; now left).
  assert (Hr : 0 <= Qsum r) by (apply Qsum_nonneg; intros; apply Hnn; now right).
  destruct Hin as [->|Hin].
  - unfold Qsum in *. lra.
  - assert (0 < Qsum r) by (apply IH; auto; intros; apply Hnn; now right).
    unfold Qsum in *. lra.
Qed.

Lemma Qsum_all_zero l : (forall x, In x l -> x == 0) -> Qsum l == 0.
Proof.
  induction l as [|a r IH]; intros H.
  - reflexivity.
  - cbn [Qsum fold_right].
    assert (a == 0) by (apply H; now left).
    assert (Qsum r == 0) by (apply IH; intros; apply H; now right).
    unfold Qsum in *. lra.
Qed.

Lemma Qsum_all_eq l c :
  (forall x, In x l -> x == c) -> Qsum l == Qofnat (length l) * c.
Proof.
  induction l as [|a r IH]; intros H.
  - cbn. unfold Qofnat. simpl. ring.
  - cbn [Qsum fold_right length]. rewrite Qofnat_S.
    assert (a == c) by (apply H; now left).
    assert (Qsum r == Qofnat (length r) * c)
      by (apply IH; intros; apply H; now right).
    unfold Qsum in *. lra.
Qed.

Lemma Qofnat_pos n : (0 < n)%nat -> 0 < Qofnat n.
Proof.
  destruct n as [|n]; [lia|]. intros _. rewrite Qofnat_S.
  pose proof (Qofnat_nonneg n). lra.
Qed.

Lemma Qmean_all_eq l c :
  l <> [] -> (forall x, In x l -> x == c) -> Qmean l == c.
Proof.
  intros Hne H. unfold Qmean. rewrite (Qsum_all_eq l c H).
  assert (0 < Qofnat (length l))
    by (apply Qofnat_pos; destruct l; [contradiction|simpl; lia]).
  field. lra.
Qed.

Lemma Qsquare_nonneg d : 0 <= d * d.
Proof.
  destruct (Qlt_le_dec d 0) as [H|H].
  - setoid_replace (d * d) with ((- d) * (- d)) by ring.
    apply Qmult_le_0_compat; lra.
  - now apply Qmult_le_0_compat.
Qed.

Lemma Qsquare_pos d : ~ d == 0 -> 0 < d * d.
Proof.
  intros Hd. destruct (Qlt_le_dec d 0) as [H|H].
  - setoid_replace (d * d) with ((- d) * (- d)) by ring.
    apply Qmult_lt_0_compat; lra.
  - assert (0 < d).
    { apply Qle_lteq in H. destruct H as [H|H]; auto.
      exfalso. apply Hd. now symmetry. }
    now apply Qmult_lt_0_compat.
Qed.

Lemma sqdev_summands_nonneg l m x :
  In x (map (fun x => (x - m) * (x - m)) l) -> 0 <= x.
Proof.
  intros H. apply in_map_iff in H. destruct H as (y & <- & _).
  apply Qsquare_nonneg.
Qed.

Lemma sqdev_constant l c : (forall x, In x l -> x == c) -> sqdev l == 0.
Proof.
  intros H. destruct l as [|a r]; [reflexivity|].
  assert (Hm : Qmean (a :: r) == c) by (apply Qmean_all_eq; [discriminate|auto]).
  unfold sqdev. cbv zeta. apply Qsum_all_zero. intros x Hx.
  apply in_map_iff in Hx. destruct Hx as (y & <- & Hy).
  rewrite Hm, (H y Hy). ring.
Qed.

Lemma sqdev_pos l a b : In a l -> In b l -> ~ a == b -> 0 < sqdev l.
Proof.
  intros Ha Hb Hab. unfold sqdev. cbv zeta. set (m := Qmean l).
  assert (Hx : exists x, In x l /\ ~ x == m).
  { destruct (Qeq_dec a m) as [Ea|Ea]; [|eauto].
    exists b. split; auto. intros Eb. apply Hab. now rewrite Ea, Eb. }
  destruct Hx as (x & Hx & Hxm).
  apply (Qsum_pos _ ((x - m) * (x - m))).
  - intros y. apply sqdev_summands_nonneg.
  - apply in_map_iff. eauto.
  - apply Qsquare_pos. intros E. apply Hxm. lra.
Qed.

Lemma sqdev_pos_inv l : 0 < sqdev l -> exists a b, In a l /\ In b l /\ ~ a == b.
Proof.
  intros H. destruct l as [|c r].
  - exfalso. unfold sqdev in H. simpl in H. lra.
  - destruct (forallb (Qeq_bool c) r) eqn:E.
    + exfalso. rewrite forallb_forall in E.
      assert (Hc : sqdev (c :: r) == 0).
      { apply sqdev_constant with (c := c). intros x [<-|Hx]; [reflexivity|].
        symmetry. apply Qeq_bool_iff. auto. }
      lra.
    + assert (Hex : existsb (fun y => negb (Qeq_bool c y)) r = true).
      { clear - E. induction r as [|y r IH]; simpl in *; [discriminate|].
        destruct (Qeq_bool c y); simpl in *; auto. }
      apply existsb_exists in Hex. destruct Hex as (y & Hy & Hn).
      exists c, y. repeat split; [now left|now right|].
      apply negb_true_iff in Hn. now apply Qeq_bool_neq.
Qed.

Lemma Qdiv_pos a b : 0 < a -> 0 < b -> 0 < a / b.
Proof.
  intros Ha Hb. apply Qlt_shift_div_l; auto. lra.
Qed.

Lemma Qdiv_pos_inv a b : 0 < a / b -> 0 < b -> 0 < a.
Proof.
  intros H Hb. assert (E : a == a / b * b) by (field; lra).
  rewrite E. now apply Qmult_lt_0_compat.
Qed.

Lemma In_fillna q d xs : In (Some q) xs -> In q (fillna d xs).
Proof.
  intros H. unfold fillna. apply in_map_iff. exists (Some q). auto.
Qed.

Lemma fillna_length d xs : length (fillna d xs) = length xs.
Proof. apply length_map. Qed.

(** A feature whose sample deviation is positive has a positive
    population deviation once its missing values are filled in. *)
Lemma eligible_pstd df f xs :
  sqrt_positive sqrt ->
  eligible sqrt df f = true -> lookup f df = Some (NumCol xs) ->
  0 < pstd sqrt (fillna 0 xs).
Proof.
  intros Hsqrt Hel Hl. unfold eligible in Hel. rewrite Hl in Hel.
  apply andb_true_iff in Hel. destruct Hel as [_ Hstd]. unfold std in Hstd.
  destruct (Nat.ltb_spec (length (dropna xs)) 2) as [|Hlen]; [discriminate|].
  cbn [num_gt] in Hstd. reflect_cmp. apply (proj1 (Hsqrt _)) in Hstd.
  assert (Hv : 0 < sqdev (dropna xs)).
  { apply (Qdiv_pos_inv _ _ Hstd). apply Qofnat_pos. lia. }
  apply sqdev_pos_inv in Hv. destruct Hv as (a & b & Ha & Hb & Hab).
  apply In_dropna in Ha, Hb.
  unfold pstd. apply (proj2 (Hsqrt _)). apply Qdiv_pos.
  - apply (sqdev_pos _ a b); auto using In_fillna.
  - apply Qofnat_pos. rewrite fillna_length.
    pose proof (dropna_length xs). lia.
Qed.

(** *** The z-score columns *)

Lemma columns_setitem_new n c df :
  ~ In n (columns df) -> columns (setitem n c df) = columns df ++ [n].
Proof.
  induction df as [|[k c0] r IH]; simpl; intros H; auto.
  destruct (String.eqb_spec k n) as [->|Hne]; [tauto|].
  simpl. f_equal. apply IH. tauto.
Qed.

Lemma append_inj_l (f g s : string) : (f ++ s = g ++ s)%string -> f = g.
Proof.
  revert g. induction f as [|c f IH]; intros [|d g] H; auto.
  - apply (f_equal String.length) in H. simpl in H.
    rewrite length_append in H. lia.
  - apply (f_equal String.length) in H. simpl in H.
    rewrite length_append in H. lia.
  - simpl in H. inversion H. f_equal. auto.
Qed.

Lemma zname_inj f g : zname f = zname g -> f = g.
Proof. apply append_inj_l. Qed.

Lemma NoDup_map_zname fs : NoDup fs -> NoDup (map zname fs).
Proof.
  induction 1 as [|f r Hf Hr IH]; simpl; constructor; auto.
  intros Hin. apply in_map_iff in Hin. destruct Hin as (g & E & Hg).
  apply zname_inj in E. now subst g.
Qed.

Lemma compute_z_scores_exact fs : forall df df1 u,
  _compute_z_scores sqrt fs df = (df1, Ok u) ->
  NoDup (map zname fs) ->
  (forall f, In f fs -> ~ In (zname f) (columns df)) ->
  (forall f g, In f fs -> In g fs -> f <> zname g) ->
  columns df1 = columns df ++ map zname fs /\
  forall f, In f fs ->
    exists xs, lookup f df = Some (NumCol xs) /\
      lookup (zname f) df1 = Some (NumCol (zscore sqrt (fillna 0 xs))).
Proof.
  induction fs as [|f r IH]; intros df df1 u H Hnd Hnew Hcl.
  - inversion H; subst. split; [now rewrite app_nil_r|]. intros f [].
  - assert (Hall := H). cbn [_compute_z_scores] in H. rewrite bind_read in H.
    destruct (get_num f df) as [xs|e] eqn:E; [|discriminate].
    cbv zeta in H. rewrite bind_assign in H.
    fold (zname f) in H. inversion Hnd as [|? ? Hf Hr]; subst.
    assert (Hcols : columns (setitem (zname f)
                               (NumCol (zscore sqrt (fillna 0 xs))) df)
                    = columns df ++ [zname f])
      by (apply columns_setitem_new, Hnew; now left).
    destruct (IH _ _ _ H Hr) as [IH1 IH2].
    + intros g Hg. rewrite Hcols. intros Hin. apply in_app_or in Hin.
      destruct Hin as [Hin|[Eq|[]]].
      * apply (Hnew g); auto. now right.
      * apply Hf. rewrite Eq. now apply in_map.
    + intros g h Hg Hh. apply Hcl; now right.
    + split.
      * rewrite IH1, Hcols, <- app_assoc. reflexivity.
      * intros g [<-|Hg].
        -- exists xs. split; [now apply get_num_ok|].
           apply compute_z_scores_inv in H. destruct H as (_ & _ & _ & H4).
           rewrite H4, lookup_setitem_eq; auto.
           intros g Hg Eq. apply Hf. rewrite Eq. now apply in_map.
        -- destruct (IH2 g Hg) as (ys & Hy & Hz). exists ys. split; auto.
           rewrite lookup_setitem_ne in Hy; auto.
           intros Eq. apply (Hcl g f); [now right|now left|auto].
Qed.

Lemma filter_none {A} (p : A -> bool) l :
  (forall x, In x l -> p x = false) -> filter p l = [].
Proof.
  induction l as [|a r IH]; simpl; intros H; auto.
  rewrite (H a) by now left. apply IH. intros; apply H; now right.
Qed.

Lemma filter_all {A} (p : A -> bool) l :
  (forall x, In x l -> p x = true) -> filter p l = l.
Proof.
  induction l as [|a r IH]; simpl; intros H; auto.
  rewrite (H a) by now left. f_equal. apply IH. intros; apply H; now right.
Qed.

Lemma mapM_map_ok {A B C} (f : B -> result C) (g : A -> B) (h : A -> C) l cs :
  mapM f (map g l) = Ok cs ->
  (forall a, In a l -> f (g a) = Ok (h a)) ->
  cs = map h l.
Proof.
  revert cs. induction l as [|a r IH]; simpl; intros cs H Hh.
  - now inversion H.
  - rewrite (Hh a) in H by now left. simpl in H.
    destruct (mapM f (map g r)) as [cs'|e] eqn:E; [|discriminate].
    simpl in H. inversion H. f_equal. apply IH; auto.
Qed.

Lemma zscore_positive xs :
  0 < pstd sqrt xs ->
  zscore sqrt xs
  = map (fun x => Some ((x - Qmean xs) / sqrt (population_variance xs))) xs.
Proof.
  intros H. unfold zscore. cbv zeta.
  destruct (Qeq_bool (pstd sqrt xs) 0) eqn:E; [|reflexivity].
  reflect_cmp. lra.
Qed.

Lemma zscore_nth xs i :
  0 < pstd sqrt xs -> (i < length xs)%nat ->
  nth_error (zscore sqrt xs) i = Some (Some (population_zscore sqrt xs i)).
Proof.
  intros H Hi. rewrite zscore_positive by assumption.
  rewrite nth_error_map, (nth_error_nth' xs 0 Hi). reflexivity.
Qed.

Lemma zscore_length xs : length (zscore sqrt xs) = length xs.
Proof.
  unfold zscore. cbv zeta. destruct (Qeq_bool _ _); now rewrite length_map.
Qed.

Lemma dropna_map_Some {A} (h : A -> Q) l :
  dropna (map (fun a => Some (h a)) l) = map h l.
Proof. induction l as [|a r IH]; simpl; auto. now rewrite IH. Qed.

Lemma nanmean_map_Some {A} (h : A -> Q) l :
  l <> [] -> nanmean (map (fun a => Some (h a)) l) = Some (Qmean (map h l)).
Proof.
  intros H. unfold nanmean. rewrite dropna_map_Some.
  destruct l; [contradiction|reflexivity].
Qed.

Lemma default_features_names f :
  In f default_features ->
  endswith "_zscore" f = false /\
  f <> "nameOrig" /\ f <> "composite" /\ f <> "composite_zscore" /\
  f <> "risk_score" /\ f <> "risk_band" /\ f <> "is_anomaly".
Proof.
  unfold default_features. cbn [_risk_features __init__]. intros H.
  repeat (destruct H as [<-|H];
          [repeat split; try reflexivity; discriminate|]).
  contradiction.
Qed.

Lemma default_features_NoDup : NoDup default_features.
Proof.
  unfold default_features. cbn [_risk_features __init__].
  repeat (constructor; [cbn [In]; intuition discriminate|]). constructor.
Qed.

Lemma nth_error_seq_lt n i : (i < n)%nat -> nth_error (seq 0 n) i = Some i.
Proof.
  intros H. rewrite (nth_error_nth' _ O) by now rewrite length_seq.
  now rewrite seq_nth.
Qed.

(** C4.  In a successful run on a feature table that has an originator
    column and no column already named like a z-score, every eligible
    feature is standardised over the whole customer population: missing
    values are first replaced by 0, and the z-score column holds
    [(value - mean) / deviation], where the deviation is the population
    one (the squared deviations divided by the number of customers,
    ddof=0) and is positive.  The composite z-score of a customer is the
    arithmetic mean of the absolute values of that customer's z-scores,
    one per eligible feature. *)
Theorem zscores_and_composite self features ids self' msg :
  sqrt_positive sqrt ->
  _risk_features self = default_features ->
  lookup "nameOrig" features = Some (ObjCol ids) ->
  (forall c, In c (columns features) -> endswith "_zscore" c = false) ->
  compute_risk_scores sqrt self features = (self', (true, msg)) ->
  exists customer_data df,
    _aggregate_to_customer features = Ok customer_data /\
    risk_scores self' = Some df /\
    zscored sqrt (_get_available_features sqrt self customer_data) df.
Proof.
  intros Hsqrt Hfeat Hid Hnoz Hrun.
  apply compute_success in Hrun.
  destruct Hrun as (agg & df & k & Hagg & Hne & Hs & -> & _).
  destruct (aggregate_inv _ _ _ Hid Hagg) as (cols & E & Hcols & Hsel).
  assert (Hincl : incl (map fst cols) (columns features))
    by (rewrite Hsel; apply select_dtypes_number_incl).
  destruct (scoring_inv _ _ _ _ _ Hs Hne) as (df1 & zs & H1 & Hm & Edf).
  set (fs := _get_available_features sqrt self agg) in *.
  set (g := unique_sorted ids) in *.
  exists agg, df. split; [exact Hagg|]. split; [reflexivity|].
  (* the features that were scored *)
  assert (Hfs : forall f, In f fs ->
                  In f default_features /\ eligible sqrt agg f = true).
  { intros f Hf. apply available_eligible in Hf. now rewrite Hfeat in Hf. }
  assert (Hnd : NoDup fs).
  { unfold fs, _get_available_features. apply NoDup_filter.
    rewrite Hfeat. apply default_features_NoDup. }
  assert (Hplain : forall c, In c (columns agg) -> endswith "_zscore" c = false).
  { intros c Hc. subst agg. destruct Hc as [<-|Hc]; [reflexivity|].
    apply Hnoz, Hincl, Hc. }
  (* the z-score columns *)
  destruct (compute_z_scores_exact fs agg df1 tt H1) as [Hcolumns Hz].
  { now apply NoDup_map_zname. }
  { intros f Hf Hin. apply Hplain in Hin. rewrite endswith_zname in Hin.
    discriminate. }
  { intros f h Hf Hh Eq. destruct (Hfs f Hf) as [Hd _].
    apply default_features_names in Hd. destruct Hd as [Hd _].
    rewrite Eq, endswith_zname in Hd. discriminate. }
  assert (Hzcols : zcols df1 = map zname fs).
  { unfold zcols. rewrite Hcolumns, filter_app.
    rewrite (filter_none _ (columns agg)) by assumption.
    rewrite filter_all; [reflexivity|].
    intros c Hc. apply in_map_iff in Hc. destruct Hc as (f & <- & _).
    apply endswith_zname. }
  assert (Hzs : zs = map (fun f => zscore sqrt (feature_values agg f)) fs).
  { rewrite Hzcols in Hm. eapply mapM_map_ok; [exact Hm|].
    intros f Hf. destruct (Hz f Hf) as (xs & Hx & Hzx).
    unfold feature_values. rewrite Hx. now apply get_num_ok. }
  (* the rows *)
  destruct (compute_z_scores_head _ _ _ _ _ _ _ H1 E eq_refl) as (r' & E1).
  assert (Hrows1 : nrows df1 = length g) by (subst df1; reflexivity).
  assert (Hrows : nrows df = length g) by (subst df df1; reflexivity).
  (* what the columns of a scored feature are *)
  assert (Hraw : forall f, In f fs ->
            exists xs, lookup f agg = Some (NumCol xs) /\
                       length xs = length g /\
                       0 < pstd sqrt (fillna 0 xs) /\
                       lookup f df = Some (NumCol xs) /\
                       lookup (zname f) df
                       = Some (NumCol (zscore sqrt (fillna 0 xs)))).
  { intros f Hf. destruct (Hz f Hf) as (xs & Hx & Hzx).
    destruct (Hfs f Hf) as [Hd Hel].
    apply default_features_names in Hd.
    destruct Hd as (Hd0 & Hd1 & Hd2 & Hd3 & Hd4 & Hd5 & Hd6).
    exists xs. split; [exact Hx|]. split; [|split; [|split]].
    - assert (Hin : In (f, NumCol xs) cols).
      { subst agg. cbn [lookup] in Hx.
        destruct (String.eqb_spec "nameOrig" f); [congruence|].
        now apply lookup_In. }
      rewrite Forall_forall in Hcols. destruct (Hcols _ Hin) as (ys & Ey & Hl).
      simpl in Ey. now inversion Ey; subst.
    - eapply eligible_pstd; eauto.
    - rewrite Edf. unfold scored_frame.
      rewrite !lookup_setitem_ne by congruence.
      apply compute_z_scores_inv in H1. destruct H1 as (_ & _ & _ & H4).
      rewrite H4; auto. intros h Hh Eq. rewrite Eq, endswith_zname in Hd0.
      discriminate.
    - rewrite Edf. unfold scored_frame.
      assert (Hzn : endswith "_zscore" (zname f) = true) by apply endswith_zname.
      rewrite !lookup_setitem_ne; auto.
      + intros Eq. apply Hd2. apply zname_inj. now rewrite <- Eq.
      + intros Eq. rewrite <- Eq in Hzn. discriminate.
      + intros Eq. rewrite <- Eq in Hzn. discriminate.
      + intros Eq. rewrite <- Eq in Hzn. discriminate. }
  split; [exact Hne|]. split.
  - intros f Hf. destruct (Hraw f Hf) as (xs & Hx & Hlen & Hpos & Hdf & Hzdf).
    exists xs, (zscore sqrt (fillna 0 xs)).
    split; [exact Hdf|]. split; [congruence|]. split; [exact Hzdf|].
    split; [rewrite zscore_length, fillna_length; congruence|].
    split; [exact Hpos|].
    intros i Hi. apply zscore_nth; auto. rewrite fillna_length. lia.
  - exists (abs_row_mean zs (nrows df1)).
    split; [rewrite Edf; apply scored_frame_composite|].
    split; [rewrite abs_row_mean_length; congruence|].
    intros i Hi. unfold abs_row_mean.
    rewrite nth_error_map, nth_error_seq_lt by lia. cbn [option_map].
    f_equal. unfold row_of. rewrite Hzs, !map_map.
    rewrite <- (nanmean_map_Some
                  (fun f => Qabs (population_zscore sqrt (feature_values df f) i)))
      by exact Hne.
    f_equal. apply map_ext_in. intros f Hf.
    destruct (Hraw f Hf) as (xs & Hx & Hlen & Hpos & Hdf & _).
    unfold feature_values. rewrite Hx, Hdf.
    assert (Hn : nth_error (zscore sqrt (fillna 0 xs)) i
                 = Some (Some (population_zscore sqrt (fillna 0 xs) i))).
    { apply zscore_nth; auto. rewrite fillna_length. lia. }
    rewrite (nth_error_nth _ _ None Hn). reflexivity.
Qed.

End Scoring.

(** ** The scoring properties on the scenario *)

Section ScoringExamples.
Import RiskScorer.

Lemma sqrt_floor_positive : sqrt_positive Examples.sqrt_floor.
Proof.
  intros [n d]. unfold Examples.sqrt_floor, Qlt. simpl.
  rewrite !Z.mul_1_r. rewrite Z.sqrt_pos. split; intros H; nia.
Qed.

Lemma risk_score_is_minmax_rescaling_witness :
  exists df composite risk,
    risk_scores (fst Examples.scoring_run) = Some df /\
    lookup "composite_zscore" df = Some (NumCol composite) /\
    lookup "risk_score" df = Some (NumCol risk) /\
    minmax_rescaled composite risk.
Proof.
  apply (risk_score_is_minmax_rescaling Examples.sqrt_floor Examples.scorer
           Examples.feature_table (fst Examples.scoring_run)
           (snd (snd Examples.scoring_run))).
  vm_compute. reflexivity.
Defined.

Lemma zscores_and_composite_witness :
  exists customer_data df,
    _aggregate_to_customer Examples.feature_table = Ok customer_data /\
    risk_scores (fst Examples.scoring_run) = Some df /\
    zscored Examples.sqrt_floor
      (_get_available_features Examples.sqrt_floor Examples.scorer customer_data)
      df.
Proof.
  apply (zscores_and_composite Examples.sqrt_floor Examples.scorer
           Examples.feature_table Examples.feature_ids
           (fst Examples.scoring_run) (snd (snd Examples.scoring_run))).
  - apply sqrt_floor_positive.
  - reflexivity.
  - vm_compute. reflexivity.
  - intros c H. vm_compute in H.
    repeat (destruct H as [<-|H]; [reflexivity|]). contradiction.
  - vm_compute. reflexivity.
Defined.

(** C2, as the specification has it, fails: a feature table without an
    originator column is scored, successfully, one row per transfer. *)
Lemma missing_id_column_is_scored :
  has_col "nameOrig" Examples.no_id_table = false /\
  exists self' high_risk,
    compute_risk_scores Examples.sqrt_floor Examples.scorer Examples.no_id_table
    = (self', (true, Scored 3 high_risk)).
Proof.
  split; [reflexivity|]. do 2 eexists. vm_compute. reflexivity.
Qed.

Lemma compute_risk_scores_outcome_witness :
  exists df high_risk,
    Examples.scoring_run
    = (set_risk_scores Examples.scorer df, (true, Scored 3 high_risk)) /\
    lookup "nameOrig" df = Some (ObjCol ["A"; "B"; "C1"]) /\
    nrows df = 3%nat.
Proof.
  destruct (proj2 (proj2 (proj2
              (compute_risk_scores_outcome Examples.sqrt_floor Examples.scorer
                 Examples.feature_table)))
              Examples.feature_ids Examples.customer_table)
    as (df & high & Hrun & Hids & Hrows & _).
  - vm_compute. reflexivity.
  - vm_compute. reflexivity.
  - exists "amount". split; [vm_compute; tauto|vm_compute; reflexivity].
  - exists df, high. repeat split; assumption.
Defined.

(** C3, evaluated.  [build_features] makes [is_full_drain] a bool
    column, and bool is not a numeric dtype: the customer table has no
    [is_full_drain] column at all, although three transfers of C1 are
    full drains.  The two other count-like fields are summed (6 rows of
    count 6 give 36), the other numeric fields averaged. *)
Theorem aggregate_drops_is_full_drain :
  exists customer_data,
    _aggregate_to_customer Examples.feature_table = Ok customer_data /\
    lookup "is_full_drain" Examples.feature_table
      = Some (BoolCol [true; false; false; true; true; true; false; true]) /\
    lookup "nameOrig" customer_data = Some (ObjCol ["A"; "B"; "C1"]) /\
    lookup "is_full_drain" customer_data = None /\
    mem "is_full_drain" (select_dtypes_number Examples.feature_table) = false /\
    cell_is (num_at customer_data "trns_count_customer" 2) 36 /\
    cell_is (num_at customer_data "daily_trns_velocity" 2) 36 /\
    cell_is (num_at customer_data "amount" 2) 350.
Proof.
  eexists. split; [vm_compute; reflexivity|]. vm_compute. repeat split.
Qed.

End ScoringExamples.

(** ** The bool column that aggregation loses *)

Section BoolColumns.
Import RiskScorer.

Lemma in_select_dtypes n df :
  In n (select_dtypes_number df) -> exists xs, In (n, NumCol xs) df.
Proof.
  unfold select_dtypes_number. intros H. apply in_map_iff in H.
  destruct H as ([k c] & <- & Hp). apply filter_In in Hp.
  destruct Hp as [Hin Hnum]. destruct c; try discriminate. eauto.
Qed.

Lemma NoDup_columns_lookup n c df :
  NoDup (columns df) -> In (n, c) df -> lookup n df = Some c.
Proof.
  induction df as [|[k c0] r IH]; simpl; intros Hnd Hin; [contradiction|].
  inversion Hnd as [|? ? Hk Hr]; subst.
  destruct Hin as [E|Hin].
  - inversion E; subst. now rewrite String.eqb_refl.
  - destruct (String.eqb_spec k n) as [->|Hne]; auto.
    exfalso. apply Hk. apply (in_map fst) in Hin. exact Hin.
Qed.

Lemma lookup_not_in n df : ~ In n (columns df) -> lookup n df = None.
Proof.
  intros H. destruct (lookup n df) eqn:E; auto.
  apply lookup_In_columns in E. contradiction.
Qed.

(** With distinct column names, a bool column of the feature table has
    no counterpart in the customer table. *)
Lemma aggregate_drops_bool_column features name bs ids agg :
  NoDup (columns features) ->
  lookup name features = Some (BoolCol bs) ->
  lookup "nameOrig" features = Some (ObjCol ids) ->
  _aggregate_to_customer features = Ok agg ->
  lookup name agg = None.
Proof.
  intros Hnd Hb Hid Hagg.
  destruct (aggregate_inv _ _ _ Hid Hagg) as (cols & -> & _ & Hsel).
  apply lookup_not_in. unfold columns. cbn [map fst]. rewrite Hsel.
  intros [E|Hin].
  - subst name. congruence.
  - apply in_select_dtypes in Hin. destruct Hin as [xs Hin].
    apply (NoDup_columns_lookup _ _ _ Hnd) in Hin. congruence.
Qed.

Lemma columns_setitem_NoDup n c df :
  NoDup (columns df) -> NoDup (columns (setitem n c df)).
Proof.
  intros H. destruct (in_dec string_dec n (columns df)) as [Hin|Hin].
  - assert (E : columns (setitem n c df) = columns df); [|now rewrite E].
    clear H. induction df as [|[k c0] r IH]; simpl in *; [contradiction|].
    destruct (String.eqb_spec k n) as [->|Hne]; simpl; auto.
    f_equal. apply IH. destruct Hin; [contradiction|auto].
  - rewrite columns_setitem_new by assumption.
    apply NoDup_app; auto.
    + repeat constructor. intros [].
    + intros x Hx [<-|[]]. contradiction.
Qed.

Lemma columns_take_frame idx df : columns (take_frame idx df) = columns df.
Proof. unfold columns, take_frame. rewrite map_map. reflexivity. Qed.

(** The defect behind C3, in general: whatever the cleaned table (with
    distinct column names), the customer table aggregated from the
    feature table that [build_features] makes of it has no
    [is_full_drain] column. *)
Lemma built_features_lose_is_full_drain self r h self' h' msg agg :
  FeatureBuilder.build_features self r h = (self', h', (true, msg)) ->
  NoDup (columns (h r)) ->
  _aggregate_to_customer (h' r) = Ok agg ->
  lookup "is_full_drain" agg = None.
Proof.
  intros Hrun Hnd Hagg. apply build_features_ok in Hrun.
  destruct Hrun as (names & steps & amounts & olds & news & H1 & H2 & H3 & E).
  rewrite E in Hagg.
  eapply aggregate_drops_bool_column; [| |eapply feature_frame_names; eauto|eauto].
  - unfold feature_frame, with_row_features.
    repeat first [ apply columns_setitem_NoDup
                 | rewrite columns_take_frame ].
    exact Hnd.
  - unfold feature_frame, with_row_features. lookup_through.
    rewrite lookup_take_frame. lookup_through. reflexivity.
Qed.

End BoolColumns.

(** ** Population z-scores are standardised *)

Lemma Qsum_map_ext {A} (f g : A -> Q) l :
  (forall x, In x l -> f x == g x) -> Qsum (map f l) == Qsum (map g l).
Proof.
  induction l as [|a r IH]; intros H; [reflexivity|].
  cbn [map Qsum fold_right].
  assert (f a == g a) by (apply H; now left).
  assert (Qsum (map f r) == Qsum (map g r))
    by (apply IH; intros; apply H; now right).
  unfold Qsum in *. lra.
Qed.

Lemma Qsum_map_div {A} (f : A -> Q) s l :
  ~ s == 0 -> Qsum (map (fun x => f x / s) l) == Qsum (map f l) / s.
Proof.
  intros Hs. induction l as [|a r IH].
  - cbn. field. exact Hs.
  - cbn [map Qsum fold_right]. unfold Qsum in IH. rewrite IH. field. exact Hs.
Qed.

Lemma Qsum_map_minus m l :
  Qsum (map (fun x => x - m) l) == Qsum l - Qofnat (length l) * m.
Proof.
  induction l as [|a r IH].
  - cbn. unfold Qofnat. simpl. ring.
  - cbn [map Qsum fold_right length]. rewrite Qofnat_S.
    unfold Qsum in IH. rewrite IH. ring.
Qed.

(** When the square root is exact on the population variance, the
    z-scores of a population have mean 0 and population variance 1:
    their sum is 0 and the sum of their squares is the number of
    values.  (With the sample deviation the squares would add up to one
    less.) *)
Lemma population_zscores_standard (sqrt : Q -> Q) (xs : list Q) :
  let s := sqrt (population_variance xs) in
  let zs := map (fun x => (x - Qmean xs) / s) xs in
  0 < s -> s * s == population_variance xs ->
  Qsum zs == 0 /\
  Qsum (map (fun z => z * z) zs) == Qofnat (length xs).
Proof.
  cbv zeta. set (s := sqrt (population_variance xs)). intros Hs Hexact.
  assert (Hs0 : ~ s == 0) by lra.
  assert (Hpv : 0 < population_variance xs).
  { rewrite <- Hexact. now apply Qmult_lt_0_compat. }
  assert (Hn : 0 < Qofnat (length xs)).
  { destruct xs as [|x r]; [|apply Qofnat_pos; simpl; lia].
    exfalso. unfold population_variance, sqdev in Hpv. simpl in Hpv.
    unfold Qdiv in Hpv. rewrite Qmult_0_l in Hpv. lra. }
  assert (Hsq : 0 < sqdev xs).
  { unfold population_variance in Hpv. eapply Qdiv_pos_inv; eauto. }
  split.
  - rewrite (Qsum_map_div (fun x => x - Qmean xs)) by assumption.
    rewrite Qsum_map_minus. unfold Qmean. field. split; lra.
  - rewrite map_map.
    rewrite (Qsum_map_ext _ (fun x => (x - Qmean xs) * (x - Qmean xs) / (s * s)))
      by (intros x _; field; assumption).
    rewrite (Qsum_map_div (fun x => (x - Qmean xs) * (x - Qmean xs)))
      by (intros E; rewrite E in Hexact; lra).
    fold (sqdev xs). rewrite Hexact. unfold population_variance.
    field. split; lra.
Qed.
(** * Further properties of the code *)

Import Props.

(** ** The shape of a table *)

Lemma rectangular_uniform df : rectangular df = true <-> uniform (nrows df) df.
Proof.
  unfold rectangular, uniform. rewrite forallb_forall, Forall_forall.
  split; intros H p Hp; specialize (H p Hp).
  - now apply Nat.eqb_eq.
  - now apply Nat.eqb_eq.
Qed.

Lemma uniform_lookup n df name c :
  uniform n df -> lookup name df = Some c -> col_len c = n.
Proof.
  intros Hu Hl. apply lookup_In in Hl. unfold uniform in Hu.
  rewrite Forall_forall in Hu. exact (Hu _ Hl).
Qed.

Lemma uniform_nrows n df : uniform n df -> df <> [] -> nrows df = n.
Proof.
  intros Hu Hne. destruct df as [|[k c] r]; [contradiction|].
  inversion Hu; subst. reflexivity.
Qed.

Lemma uniform_setitem n name c df :
  uniform n df -> col_len c = n -> uniform n (setitem name c df).
Proof.
  intros Hu Hc. induction df as [|[k c0] r IH]; simpl.
  - repeat constructor. exact Hc.
  - inversion Hu; subst. destruct (String.eqb k name); constructor; auto.
    apply IH; assumption.
Qed.

Lemma setitem_nonempty name c df : setitem name c df <> [].
Proof.
  destruct df as [|[k c0] r]; simpl; [discriminate|].
  destruct (String.eqb k name); discriminate.
Qed.

Lemma take_rows_length {A} (d : A) idx l : length (take_rows d idx l) = length idx.
Proof. unfold take_rows. apply length_map. Qed.

Lemma take_col_len idx c : col_len (take_col idx c) = length idx.
Proof. destruct c; simpl; apply take_rows_length. Qed.

Lemma uniform_take_frame idx df : uniform (length idx) (take_frame idx df).
Proof.
  unfold uniform, take_frame. rewrite Forall_map. apply Forall_forall.
  intros p _. simpl. apply take_col_len.
Qed.

Lemma rectangular_lookup df name c :
  rectangular df = true -> lookup name df = Some c -> col_len c = nrows df.
Proof.
  intros Hr. apply uniform_lookup. now apply rectangular_uniform.
Qed.

Lemma uniform_rectangular n df : uniform n df -> rectangular df = true.
Proof.
  intros Hu. apply rectangular_uniform.
  destruct df as [|[k c] r]; [constructor|].
  rewrite (uniform_nrows n); auto. discriminate.
Qed.

(** ** Feature building: when it succeeds and when it fails *)

Section BuildOutcome.
Import FeatureBuilder.

Lemma body_run df names steps amounts olds news :
  lookup "nameOrig" df = Some (ObjCol names) ->
  lookup "step" df = Some (NumCol steps) ->
  lookup "amount" df = Some (NumCol amounts) ->
  lookup "oldbalanceOrg" df = Some (NumCol olds) ->
  lookup "newbalanceOrig" df = Some (NumCol news) ->
  body df = (feature_frame names steps amounts olds news df, Ok tt).
Proof.
  intros Hn Hs Ha Ho Hw.
  apply get_obj_ok in Hn. apply get_num_ok in Hs, Ha, Ho, Hw.
  unfold body, _add_transaction_features, _add_customer_features,
    _add_velocity_features, _add_rolling_features.
  repeat first
    [ rewrite bind_bind
    | rewrite bind_assign
    | rewrite bind_modify
    | rewrite bind_read;
      repeat first
        [ rewrite get_num_setitem_eq
        | rewrite get_obj_setitem_eq
        | rewrite get_num_setitem_ne by discriminate
        | rewrite get_obj_setitem_ne by discriminate
        | rewrite get_num_take_frame
        | rewrite get_obj_take_frame ];
      rewrite ?Hn, ?Hs, ?Ha, ?Ho, ?Hw; cbn [rbind] ].
  reflexivity.
Qed.

End BuildOutcome.

Section BuildShape.
Import FeatureBuilder.

Lemma argsort_length keys : length (argsort keys) = length keys.
Proof.
  rewrite (Permutation_length (argsort_perm keys)). apply length_seq.
Qed.

Lemma feature_frame_uniform names steps amounts olds news df :
  uniform (length (combine names steps))
    (feature_frame names steps amounts olds news df).
Proof.
  unfold feature_frame.
  assert (Hlen : length (sorted_names names steps) = length (combine names steps)).
  { unfold sorted_names. now rewrite take_rows_length, argsort_length. }
  repeat apply uniform_setitem.
  - rewrite <- (argsort_length (combine names steps)). apply uniform_take_frame.
  - cbn [col_len]. now rewrite rolling_length.
  - cbn [col_len]. now rewrite rolling_length.
Qed.

Lemma feature_frame_keeps names steps amounts olds news df c :
  has_col c df = true ->
  has_col c (feature_frame names steps amounts olds news df) = true.
Proof.
  intros H. unfold feature_frame, with_row_features.
  rewrite !has_col_setitem, has_col_take_frame, !has_col_setitem, H.
  now rewrite !orb_true_r.
Qed.

End BuildShape.

Section BuildOutcome2.
Import FeatureBuilder.

Lemma nrows_feature_frame names steps amounts olds news df :
  lookup "nameOrig" df = Some (ObjCol names) ->
  lookup "step" df = Some (NumCol steps) ->
  rectangular df = true ->
  nrows (feature_frame names steps amounts olds news df) = nrows df.
Proof.
  intros Hn Hs Hr.
  rewrite (uniform_nrows _ _ (feature_frame_uniform names steps amounts olds news df)).
  - rewrite length_combine.
    apply (rectangular_lookup _ _ _ Hr) in Hn, Hs. cbn [col_len] in Hn, Hs.
    rewrite Hn, Hs. apply Nat.min_id.
  - unfold feature_frame. apply setitem_nonempty.
Qed.

(** A cleaned table that has the five columns [build_features] reads is
    always built successfully.  The message reports the number of rows
    of the table; the table keeps that number of rows and every column
    it had, stays rectangular, and no other table of the store
    changes. *)
Theorem build_features_succeeds self r h names steps amounts olds news :
  lookup "nameOrig" (h r) = Some (ObjCol names) ->
  lookup "step" (h r) = Some (NumCol steps) ->
  lookup "amount" (h r) = Some (NumCol amounts) ->
  lookup "oldbalanceOrg" (h r) = Some (NumCol olds) ->
  lookup "newbalanceOrig" (h r) = Some (NumCol news) ->
  rectangular (h r) = true ->
  exists h',
    build_features self r h
    = ({| features := Some r |}, h', (true, Built (nrows (h r)))) /\
    nrows (h' r) = nrows (h r) /\
    rectangular (h' r) = true /\
    (forall c, has_col c (h r) = true -> has_col c (h' r) = true) /\
    (forall r', r' <> r -> h' r' = h r').
Proof.
  intros Hn Hs Ha Ho Hw Hr.
  exists (update h r (feature_frame names steps amounts olds news (h r))).
  unfold build_features. rewrite (body_run _ _ _ _ _ _ Hn Hs Ha Ho Hw).
  rewrite (nrows_feature_frame _ _ _ _ _ _ Hn Hs Hr).
  split; [reflexivity|]. unfold update. rewrite Nat.eqb_refl.
  split; [now apply nrows_feature_frame|].
  split; [eapply uniform_rectangular, feature_frame_uniform|].
  split; [intros c; apply feature_frame_keeps|].
  intros r' Hne. apply Nat.eqb_neq in Hne. now rewrite Hne.
Qed.

Lemma build_features_succeeds_witness :
  exists h',
    build_features __init__ 0%nat Examples.store
    = ({| features := Some 0%nat |}, h', (true, Built 8)) /\
    nrows (h' 0%nat) = 8%nat.
Proof.
  destruct (build_features_succeeds __init__ 0%nat Examples.store
              ["C1"; "C1"; "B"; "C1"; "C1"; "C1"; "A"; "C1"]
              (map Examples.z [3; 1; 30; 2; 6; 5; 2; 4]%Z)
              (map Examples.z [300; 100; 7; 200; 600; 500; 50; 400]%Z)
              (map Examples.z [300; 0; 7; 200; 600; 500; 10; 400]%Z)
              (map Examples.z [0; 0; 7; 0; 0; 5; 0; 0]%Z)
              eq_refl eq_refl eq_refl eq_refl eq_refl eq_refl)
    as (h' & Hrun & Hrows & _).
  exists h'. split; [exact Hrun|exact Hrows].
Defined.

Lemma schema_num df c :
  schema df = true -> In c numeric_inputs -> has_col c df = true ->
  exists xs, lookup c df = Some (NumCol xs).
Proof.
  unfold schema, has_col. intros Hs Hc Hh. apply andb_prop in Hs.
  destruct Hs as [Hs _]. rewrite forallb_forall in Hs. specialize (Hs c Hc).
  destruct (lookup c df) as [[xs|bs|ss]|]; try discriminate. eauto.
Qed.

Lemma schema_obj df :
  schema df = true -> has_col "nameOrig" df = true ->
  exists ss, lookup "nameOrig" df = Some (ObjCol ss).
Proof.
  unfold schema, has_col. intros Hs Hh. apply andb_prop in Hs.
  destruct Hs as [_ Hs].
  destruct (lookup "nameOrig" df) as [[xs|bs|ss]|]; try discriminate. eauto.
Qed.

(** On a table whose columns have the dtypes the loader gives them,
    [build_features] succeeds exactly when the table has the five
    columns it reads: the three balances and amounts, the step and the
    originator.  None of the other columns the loader requires is
    needed. *)
Theorem build_features_succeeds_iff self r h :
  schema (h r) = true ->
  (fst (snd (build_features self r h)) = true <->
   forall c, In c inputs -> has_col c (h r) = true).
Proof.
  intros Hs. split.
  - intros Hok. unfold build_features in Hok.
    destruct (body (h r)) as [df [u|e]] eqn:E; [|discriminate].
    apply body_ok in E.
    destruct E as (names & steps & amounts & olds & news
                   & H1 & H2 & H3 & H4 & H5 & _).
    intros c Hc. unfold has_col. simpl in Hc.
    repeat (destruct Hc as [<-|Hc];
            [match goal with H : lookup _ _ = _ |- _ => now rewrite H end|]).
    contradiction.
  - intros Hall.
    destruct (schema_obj _ Hs (Hall "nameOrig" ltac:(simpl; tauto)))
      as [names Hn].
    destruct (schema_num _ "step" Hs ltac:(simpl; tauto)
                (Hall "step" ltac:(simpl; tauto))) as [steps Hst].
    destruct (schema_num _ "amount" Hs ltac:(simpl; tauto)
                (Hall "amount" ltac:(simpl; tauto))) as [amounts Ha].
    destruct (schema_num _ "oldbalanceOrg" Hs ltac:(simpl; tauto)
                (Hall "oldbalanceOrg" ltac:(simpl; tauto))) as [olds Ho].
    destruct (schema_num _ "newbalanceOrig" Hs ltac:(simpl; tauto)
                (Hall "newbalanceOrig" ltac:(simpl; tauto))) as [news Hw].
    unfold build_features. now rewrite (body_run _ _ _ _ _ _ Hn Hst Ha Ho Hw).
Qed.

Lemma build_features_succeeds_iff_witness :
  fst (snd (build_features __init__ 0%nat Examples.store)) = true <->
  forall c, In c inputs -> has_col c Examples.cleaned = true.
Proof.
  apply (build_features_succeeds_iff __init__ 0%nat Examples.store).
  reflexivity.
Defined.

(** Without an originator column [build_features] fails with the
    [KeyError] of that column, but not before it has changed the table
    it was handed: the caller's table comes back with the three
    per-transfer columns added, its rows in the order they had. *)
Theorem build_features_without_originator self r h steps amounts olds news :
  lookup "step" (h r) = Some (NumCol steps) ->
  lookup "amount" (h r) = Some (NumCol amounts) ->
  lookup "oldbalanceOrg" (h r) = Some (NumCol olds) ->
  lookup "newbalanceOrig" (h r) = Some (NumCol news) ->
  lookup "nameOrig" (h r) = None ->
  build_features self r h
  = ({| features := Some r |},
     update h r
       (setitem "hour_of_day" (NumCol (map (num_map mod24) steps))
       (setitem "is_full_drain" (BoolCol (map2 full_drain olds news))
       (setitem "balance_ratio_orig" (NumCol (map2 balance_ratio olds amounts))
          (h r)))),
     (false, Error (KeyError "nameOrig"))).
Proof.
  intros Hs Ha Ho Hw Hn.
  assert (Hn' : forall df, lookup "nameOrig" df = None ->
                  get_obj "nameOrig" df = Raise (KeyError "nameOrig")).
  { intros df H. unfold get_obj, getitem. now rewrite H. }
  apply get_num_ok in Hs, Ha, Ho, Hw.
  unfold build_features, body, _add_transaction_features, _add_customer_features.
  repeat first
    [ rewrite bind_bind
    | rewrite bind_assign
    | rewrite bind_read;
      repeat first
        [ rewrite get_num_setitem_eq
        | rewrite get_num_setitem_ne by discriminate ];
      rewrite ?Hs, ?Ha, ?Ho, ?Hw; cbn [rbind] ].
  rewrite Hn'; [reflexivity|].
  lookup_through. exact Hn.
Qed.

Lemma build_features_without_originator_witness :
  snd (build_features __init__ 0%nat Cases.anonymous_store)
  = (false, Error (KeyError "nameOrig")) /\
  columns (snd (fst (build_features __init__ 0%nat Cases.anonymous_store)) 0%nat)
  = [ "step"; "amount"; "oldbalanceOrg"; "newbalanceOrig";
      "balance_ratio_orig"; "is_full_drain"; "hour_of_day" ].
Proof.
  rewrite (build_features_without_originator __init__ 0%nat
             Cases.anonymous_store
             (map Examples.z [3; 1; 30; 2; 6; 5; 2; 4]%Z)
             (map Examples.z [300; 100; 7; 200; 600; 500; 50; 400]%Z)
             (map Examples.z [300; 0; 7; 200; 600; 500; 10; 400]%Z)
             (map Examples.z [0; 0; 7; 0; 0; 5; 0; 0]%Z)
             eq_refl eq_refl eq_refl eq_refl eq_refl).
  split; reflexivity.
Defined.

End BuildOutcome2.

(** ** Feature building: the derived columns row by row *)

(** *** Rows taken in another order *)

Lemma nth_error_take_rows {A} (d : A) idx l p i :
  nth_error idx p = Some i -> (i < length l)%nat ->
  nth_error (take_rows d idx l) p = nth_error l i.
Proof.
  intros Hp Hi. unfold take_rows. rewrite nth_error_map, Hp. cbn [option_map].
  symmetry. now apply nth_error_nth'.
Qed.

Lemma map_nth_seq {A} (d : A) l :
  map (fun i => nth i l d) (seq 0 (length l)) = l.
Proof.
  induction l as [|a r IH]; simpl; auto.
  f_equal. rewrite <- seq_shift, map_map. exact IH.
Qed.

Lemma take_rows_perm {A} (d : A) idx l :
  Permutation idx (seq 0 (length l)) -> Permutation (take_rows d idx l) l.
Proof.
  intros H. unfold take_rows.
  eapply perm_trans; [apply Permutation_map, H|].
  now rewrite map_nth_seq.
Qed.

Lemma take_rows_combine {A B} (da : A) (db : B) idx la lb :
  length la = length lb ->
  Forall (fun i => (i < length la)%nat) idx ->
  combine (take_rows da idx la) (take_rows db idx lb)
  = take_rows (da, db) idx (combine la lb).
Proof.
  intros Hlen Hidx. unfold take_rows.
  induction Hidx as [|i r Hi _ IH]; simpl; auto.
  rewrite IH. f_equal. symmetry. now apply combine_nth.
Qed.

Lemma take_rows_combine_perm {A B} (da : A) (db : B) idx la lb n :
  length la = n -> length lb = n -> Permutation idx (seq 0 n) ->
  Permutation (combine (take_rows da idx la) (take_rows db idx lb))
              (combine la lb).
Proof.
  intros Ha Hb Hp. rewrite take_rows_combine.
  - apply take_rows_perm. now rewrite length_combine, Ha, Hb, Nat.min_id.
  - congruence.
  - apply Forall_forall. intros i Hi.
    apply (Permutation_in _ Hp) in Hi. apply in_seq in Hi. lia.
Qed.

Lemma take_rows_combine3_perm {A B C} (da : A) (db : B) (dc : C) idx la lb lc n :
  length la = n -> length lb = n -> length lc = n ->
  Permutation idx (seq 0 n) ->
  Permutation
    (combine (combine (take_rows da idx la) (take_rows db idx lb))
       (take_rows dc idx lc))
    (combine (combine la lb) lc).
Proof.
  intros Ha Hb Hc Hp.
  assert (Hbound : Forall (fun i => (i < n)%nat) idx).
  { apply Forall_forall. intros i Hi.
    apply (Permutation_in _ Hp) in Hi. apply in_seq in Hi. lia. }
  rewrite (take_rows_combine da db) by (rewrite ?Ha; congruence).
  apply (take_rows_combine_perm _ _ _ _ _ n); auto.
  now rewrite length_combine, Ha, Hb, Nat.min_id.
Qed.

Lemma perm_seq_bound idx n :
  Permutation idx (seq 0 n) -> Forall (fun i => (i < n)%nat) idx.
Proof.
  intros H. apply Forall_forall. intros i Hi.
  apply (Permutation_in _ H) in Hi. apply in_seq in Hi. lia.
Qed.

(** *** Groups *)

Lemma group_of_filter {K V} (eqb : K -> K -> bool) k keys (vals : list V) :
  group_of eqb k keys vals
  = map snd (filter (fun p => eqb (fst p) k) (combine keys vals)).
Proof.
  revert vals. induction keys as [|k' ks IH]; intros [|v vs]; simpl; auto.
  destruct (eqb k' k); simpl; now rewrite IH.
Qed.

Lemma dropna_perm l l' : Permutation l l' -> Permutation (dropna l) (dropna l').
Proof.
  induction 1 as [|x l l' _ IH|x y l|l l' l'' _ IH1 _ IH2]; simpl.
  - constructor.
  - destruct x; auto.
  - destruct x, y; auto using Permutation_refl. apply perm_swap.
  - eapply perm_trans; eauto.
Qed.

Lemma filter_perm {A} (p : A -> bool) l l' :
  Permutation l l' -> Permutation (filter p l) (filter p l').
Proof.
  induction 1 as [|x l l' _ IH|x y l|l l' l'' _ IH1 _ IH2]; simpl.
  - constructor.
  - destruct (p x); auto.
  - destruct (p x), (p y); auto using Permutation_refl. apply perm_swap.
  - eapply perm_trans; eauto.
Qed.

Lemma count_group_perm {K} (eqb : K -> K -> bool) k keys keys' vals vals' :
  Permutation (combine keys vals) (combine keys' vals') ->
  count (group_of eqb k keys vals) = count (group_of eqb k keys' vals').
Proof.
  intros H. unfold count. rewrite !group_of_filter.
  apply Permutation_length, dropna_perm, Permutation_map, filter_perm, H.
Qed.

Lemma nth_error_transform {K V R} (eqb : K -> K -> bool) (f : list V -> R)
    keys vals i k :
  nth_error keys i = Some k ->
  nth_error (transform eqb f keys vals) i = Some (f (group_of eqb k keys vals)).
Proof.
  intros H. unfold transform. now rewrite nth_error_map, H.
Qed.

Lemma group_of_own {K V} (eqb : K -> K -> bool) keys (vals : list V) i k v :
  nth_error keys i = Some k -> nth_error vals i = Some v -> eqb k k = true ->
  In v (group_of eqb k keys vals).
Proof.
  revert keys vals. induction i as [|i IH]; intros [|k' ks] [|v' vs];
    simpl; try discriminate.
  - intros E1 E2 Hk. inversion E1; inversion E2; subst. rewrite Hk. now left.
  - intros E1 E2 Hk. destruct (eqb k' k); [right|]; eapply IH; eauto.
Qed.

Lemma nth_error_map2 {A B C} (f : A -> B -> C) xs ys i x y :
  nth_error xs i = Some x -> nth_error ys i = Some y ->
  nth_error (FeatureBuilder.map2 f xs ys) i = Some (f x y).
Proof.
  unfold FeatureBuilder.map2. revert xs ys.
  induction i as [|i IH]; intros [|a r] [|b r']; simpl; try discriminate.
  - intros E1 E2. now inversion E1; inversion E2.
  - apply IH.
Qed.

Lemma dropna_In q xs : In q (dropna xs) <-> In (Some q) xs.
Proof.
  induction xs as [|[x|] r IH]; simpl; [tauto| |].
  - rewrite IH. split; intros [E|H]; auto; left; congruence.
  - rewrite IH. split; [auto|]. intros [E|H]; [discriminate|auto].
Qed.

Lemma count_pos a g : In (Some a) g -> (0 < count g)%nat.
Proof.
  intros H. apply dropna_In in H. unfold count.
  destruct (dropna g) as [|x r]; [destruct H|simpl; lia].
Qed.

Lemma map2_length {A B C} (f : A -> B -> C) xs ys :
  length (FeatureBuilder.map2 f xs ys) = Nat.min (length xs) (length ys).
Proof. unfold FeatureBuilder.map2. now rewrite length_map, length_combine. Qed.

Lemma transform_length {K V R} (eqb : K -> K -> bool) (f : list V -> R) keys vals :
  length (transform eqb f keys vals) = length keys.
Proof. unfold transform. apply length_map. Qed.

Lemma nth_error_combine_both {A B} (l : list A) (l' : list B) i a b :
  nth_error l i = Some a -> nth_error l' i = Some b ->
  nth_error (combine l l') i = Some (a, b).
Proof.
  revert l l'. induction i as [|i IH]; intros [|x r] [|y r']; simpl;
    try discriminate.
  - intros E1 E2. now inversion E1; inversion E2.
  - apply IH.
Qed.

Lemma nth_error_daily_count names day amounts i name d :
  nth_error names i = Some name -> nth_error day i = Some d ->
  nth_error (FeatureBuilder.daily_count names day amounts) i
  = Some match d with
         | None => None
         | Some _ =>
             Some (Qofnat (count (group_of FeatureBuilder.day_key_eqb (name, d)
                                    (combine names day) amounts)))
         end.
Proof.
  intros Hn Hd. unfold FeatureBuilder.daily_count. cbv zeta.
  rewrite nth_error_map.
  assert (E : nth_error (A := string * option Q) (combine names day) i
              = Some (name, d)) by now apply nth_error_combine_both.
  rewrite E. reflexivity.
Qed.

Lemma daily_count_length names day amounts :
  length (FeatureBuilder.daily_count names day amounts)
  = Nat.min (length names) (length day).
Proof.
  unfold FeatureBuilder.daily_count. cbv zeta.
  now rewrite length_map, length_combine.
Qed.

(** The rows of an originator on one day are among the rows of that
    originator. *)
Lemma count_day_le name q names day amounts :
  (count (group_of FeatureBuilder.day_key_eqb (name, Some q)
            (combine names day) amounts)
   <= count (group_of String.eqb name names amounts))%nat.
Proof.
  unfold count. revert day amounts.
  induction names as [|n ns IH]; intros [|d ds] [|a r]; simpl; try lia.
  specialize (IH ds r).
  change (FeatureBuilder.day_key_eqb (n, d) (name, Some q))
    with (match d with
          | Some x => String.eqb n name && Qeq_bool x q
          | None => false
          end).
  destruct (String.eqb n name), d as [x|]; cbn [andb];
    try destruct (Qeq_bool x q); destruct a; simpl; lia.
Qed.

Section RowFeatures.
Import FeatureBuilder.
Variables (names : list string) (steps amounts olds news : list num).
Variable df : DataFrame.
Hypothesis Hnames : lookup "nameOrig" df = Some (ObjCol names).
Hypothesis Hsteps : lookup "step" df = Some (NumCol steps).
Hypothesis Hamounts : lookup "amount" df = Some (NumCol amounts).
Hypothesis Holds : lookup "oldbalanceOrg" df = Some (NumCol olds).
Hypothesis Hnews : lookup "newbalanceOrig" df = Some (NumCol news).
Hypothesis Hrect : rectangular df = true.

Let idx := argsort (combine names steps).
Let out := feature_frame names steps amounts olds news df.
Let n := nrows df.
Let day := map (num_map floordiv24) steps.

Lemma len_names : length names = n.
Proof. exact (rectangular_lookup _ _ _ Hrect Hnames). Qed.

Lemma len_steps : length steps = n.
Proof. exact (rectangular_lookup _ _ _ Hrect Hsteps). Qed.

Lemma len_amounts : length amounts = n.
Proof. exact (rectangular_lookup _ _ _ Hrect Hamounts). Qed.

Lemma len_olds : length olds = n.
Proof. exact (rectangular_lookup _ _ _ Hrect Holds). Qed.

Lemma len_news : length news = n.
Proof. exact (rectangular_lookup _ _ _ Hrect Hnews). Qed.

Lemma len_day : length day = n.
Proof. unfold day. rewrite length_map. apply len_steps. Qed.

Lemma len_map2_amounts {C} (f : num -> num -> C) :
  length (map2 f olds amounts) = n.
Proof. rewrite map2_length, len_olds, len_amounts. apply Nat.min_id. Qed.

Lemma len_map2_news {C} (f : num -> num -> C) : length (map2 f olds news) = n.
Proof. rewrite map2_length, len_olds, len_news. apply Nat.min_id. Qed.

Lemma len_hour : length (map (num_map mod24) steps) = n.
Proof. rewrite length_map. apply len_steps. Qed.

Lemma len_transform {R} (f : list num -> R) :
  length (transform String.eqb f names amounts) = n.
Proof. rewrite transform_length. apply len_names. Qed.

Lemma len_daily : length (daily_count names day amounts) = n.
Proof. rewrite daily_count_length, len_names, len_day. apply Nat.min_id. Qed.

(** A row position of the table handed in lies inside each column. *)
Ltac bound Hi :=
  eapply Nat.lt_le_trans; [exact Hi|];
  apply Nat.eq_le_incl; symmetry;
  first [ apply len_names | apply len_steps | apply len_amounts
        | apply len_olds | apply len_news | apply len_day
        | apply len_map2_amounts | apply len_map2_news | apply len_hour
        | apply len_transform | apply len_daily ].

Lemma idx_perm : Permutation idx (seq 0 n).
Proof.
  unfold idx. replace n with (length (combine names steps)).
  - apply argsort_perm.
  - rewrite length_combine, len_names, len_steps. apply Nat.min_id.
Qed.

Lemma idx_bound : Forall (fun i => (i < n)%nat) idx.
Proof. apply perm_seq_bound, idx_perm. Qed.

Lemma idx_length : length idx = n.
Proof. rewrite (Permutation_length idx_perm). apply length_seq. Qed.

Lemma out_nrows : nrows out = n.
Proof. now apply nrows_feature_frame. Qed.

(** Row [p] of the feature table is row [i] of the table handed in. *)
Lemma origin {A} (d : A) l p x :
  nth_error (take_rows d idx l) p = Some x ->
  exists i, nth_error idx p = Some i /\ (i < n)%nat.
Proof.
  unfold take_rows. rewrite nth_error_map.
  destruct (nth_error idx p) as [i|] eqn:E; [|discriminate].
  intros _. exists i. split; auto.
  pose proof idx_bound as Hb. rewrite Forall_forall in Hb.
  apply Hb. eapply nth_error_In; eauto.
Qed.

Ltac out_lookup :=
  unfold out, feature_frame, with_row_features; lookup_through;
  rewrite lookup_take_frame; lookup_through;
  rewrite ?Hnames, ?Hsteps, ?Hamounts, ?Holds, ?Hnews; reflexivity.

Lemma out_names : lookup "nameOrig" out = Some (ObjCol (take_rows EmptyString idx names)).
Proof. out_lookup. Qed.

Lemma out_steps : lookup "step" out = Some (NumCol (take_rows None idx steps)).
Proof. out_lookup. Qed.

Lemma out_amounts : lookup "amount" out = Some (NumCol (take_rows None idx amounts)).
Proof. out_lookup. Qed.

Lemma out_olds : lookup "oldbalanceOrg" out = Some (NumCol (take_rows None idx olds)).
Proof. out_lookup. Qed.

Lemma out_news : lookup "newbalanceOrig" out = Some (NumCol (take_rows None idx news)).
Proof. out_lookup. Qed.

Lemma out_ratio :
  lookup "balance_ratio_orig" out
  = Some (NumCol (take_rows None idx (map2 balance_ratio olds amounts))).
Proof. out_lookup. Qed.

Lemma out_drain :
  lookup "is_full_drain" out
  = Some (BoolCol (take_rows false idx (map2 full_drain olds news))).
Proof. out_lookup. Qed.

Lemma out_hour :
  lookup "hour_of_day" out
  = Some (NumCol (take_rows None idx (map (num_map mod24) steps))).
Proof. out_lookup. Qed.

Lemma out_day : lookup "day" out = Some (NumCol (take_rows None idx day)).
Proof. out_lookup. Qed.

Lemma out_count :
  lookup "trns_count_customer" out
  = Some (NumCol (take_rows None idx
                    (transform String.eqb (fun g => Some (Qofnat (count g)))
                       names amounts))).
Proof. out_lookup. Qed.




Lemma out_velocity :
  lookup "daily_trns_velocity" out
  = Some (NumCol (take_rows None idx (daily_count names day amounts))).
Proof. out_lookup. Qed.

Lemma ratio_of_balance_ratio old amount :
  ratio_of old amount (balance_ratio old amount).
Proof.
  unfold ratio_of, balance_ratio. destruct old as [o|]; [|reflexivity].
  cbn [num_gt]. destruct (Qltb 0 o) eqn:E; reflect_cmp.
  - split; [|intros; lra]. intros _. now destruct amount.
  - split; [intros; lra|reflexivity].
Qed.

Lemma full_drain_drained old new : full_drain old new = true <-> drained old new.
Proof.
  unfold full_drain, drained. rewrite andb_true_iff. split.
  - intros [H1 H2]. destruct old as [o|], new as [w|]; try discriminate.
    cbn [num_gt num_eq] in *. reflect_cmp. now exists o, w.
  - intros (o & w & -> & -> & Ho & Hw). cbn [num_gt num_eq]. split.
    + now apply Qltb_lt.
    + now apply Qeq_bool_iff.
Qed.

Lemma feature_frame_balance : balance_features out.
Proof.
  exists (take_rows None idx olds), (take_rows None idx news),
    (take_rows None idx amounts),
    (take_rows None idx (map2 balance_ratio olds amounts)),
    (take_rows false idx (map2 full_drain olds news)).
  split; [apply out_olds|]. split; [apply out_news|].
  split; [apply out_amounts|]. split; [apply out_ratio|].
  split; [apply out_drain|].
  rewrite !take_rows_length, out_nrows, idx_length. do 2 (split; [reflexivity|]).
  intros p old new amount Ho Hw Ha.
  destruct (origin _ _ _ _ Ho) as (i & Ei & Hi).
  rewrite (nth_error_take_rows _ _ _ _ _ Ei) in Ho by bound Hi.
  rewrite (nth_error_take_rows _ _ _ _ _ Ei) in Hw by bound Hi.
  rewrite (nth_error_take_rows _ _ _ _ _ Ei) in Ha
    by bound Hi.
  exists (balance_ratio old amount), (full_drain old new).
  rewrite !(nth_error_take_rows _ _ _ _ _ Ei)
    by bound Hi.
  split; [now apply nth_error_map2|]. split; [now apply nth_error_map2|].
  split; [apply ratio_of_balance_ratio|apply full_drain_drained].
Qed.

Lemma feature_frame_clock : clock_features out.
Proof.
  exists (take_rows None idx steps), (take_rows None idx day),
    (take_rows None idx (map (num_map mod24) steps)).
  split; [apply out_steps|]. split; [apply out_day|]. split; [apply out_hour|].
  rewrite !take_rows_length, out_nrows, idx_length. do 2 (split; [reflexivity|]).
  intros p s Hs.
  destruct (origin _ _ _ _ Hs) as (i & Ei & Hi).
  rewrite (nth_error_take_rows _ _ _ _ _ Ei) in Hs by bound Hi.
  unfold day.
  rewrite !(nth_error_take_rows _ _ _ _ _ Ei)
    by bound Hi.
  rewrite !nth_error_map, Hs. cbn [option_map].
  destruct s as [q|]; [|split; reflexivity].
  exists (Qfloor (q / 24)), (mod24 q). cbn [num_map].
  split; [reflexivity|]. split; [reflexivity|].
  unfold mod24, floordiv24.
  pose proof (Qfloor_le (q / 24)) as H1.
  pose proof (Qlt_floor (q / 24)) as H2.
  rewrite inject_Z_plus in H2.
  change (inject_Z 1) with 1 in H2.
  assert (E : q == 24 * (q / 24)) by (field).
  split; [ring|]. split; lra.
Qed.

Lemma out_pairs_perm :
  Permutation (combine (take_rows EmptyString idx names)
                 (take_rows None idx amounts))
              (combine names amounts).
Proof.
  apply (take_rows_combine_perm _ _ _ _ _ n);
    [apply len_names|apply len_amounts|apply idx_perm].
Qed.

Lemma out_count_group name :
  count (amounts_of name (take_rows EmptyString idx names)
           (take_rows None idx amounts))
  = count (group_of String.eqb name names amounts).
Proof. apply count_group_perm, out_pairs_perm. Qed.


Lemma feature_frame_velocity : velocity_features out.
Proof.
  exists (take_rows EmptyString idx names), (take_rows None idx amounts),
    (take_rows None idx day).
  do 2 eexists.
  split; [apply out_names|]. split; [apply out_amounts|].
  split; [apply out_day|]. split; [apply out_count|].
  split; [apply out_velocity|].
  intros p name d Hn Hd.
  destruct (origin _ _ _ _ Hn) as (i & Ei & Hi).
  assert (Hn' := Hn).
  rewrite (nth_error_take_rows _ _ _ _ _ Ei) in Hn' by bound Hi.
  rewrite (nth_error_take_rows _ _ _ _ _ Ei) in Hd by bound Hi.
  rewrite !(nth_error_take_rows _ _ _ _ _ Ei)
    by bound Hi.
  rewrite (nth_error_daily_count _ _ _ _ _ _ Hn' Hd).
  destruct d as [q|]; [|reflexivity]. cbv zeta.
  rewrite (nth_error_transform _ _ _ _ _ _ Hn'), out_count_group.
  assert (Hv : count (amounts_on name q (take_rows EmptyString idx names)
                        (take_rows None idx day) (take_rows None idx amounts))
               = count (group_of day_key_eqb (name, Some q)
                          (combine names day) amounts)).
  { apply count_group_perm.
    apply (take_rows_combine3_perm _ _ _ _ _ _ _ n);
      [apply len_names|apply len_day|apply len_amounts|apply idx_perm]. }
  rewrite Hv. split; [reflexivity|]. split; [reflexivity|].
  split; [apply count_day_le|].
  intros a Ha.
  apply (count_pos a). eapply group_of_own.
  - apply nth_error_combine_both; eassumption.
  - exact Ha.
  - unfold day_key_eqb. simpl. rewrite String.eqb_refl. apply Qeq_bool_refl.
Qed.

End RowFeatures.

Section BuiltFeatures.
Import FeatureBuilder.

Lemma build_features_inv self r h self' h' msg :
  build_features self r h = (self', h', (true, msg)) ->
  exists names steps amounts olds news,
    lookup "nameOrig" (h r) = Some (ObjCol names) /\
    lookup "step" (h r) = Some (NumCol steps) /\
    lookup "amount" (h r) = Some (NumCol amounts) /\
    lookup "oldbalanceOrg" (h r) = Some (NumCol olds) /\
    lookup "newbalanceOrig" (h r) = Some (NumCol news) /\
    h' r = feature_frame names steps amounts olds news (h r).
Proof.
  unfold build_features. destruct (body (h r)) as [df [u|e]] eqn:E;
    intros H; inversion H; subst; clear H.
  apply body_ok in E.
  destruct E as (names & steps & amounts & olds & news
                 & H1 & H2 & H3 & H4 & H5 & E).
  exists names, steps, amounts, olds, news. repeat split; auto.
  unfold update. now rewrite Nat.eqb_refl.
Qed.

(** In the table a successful [build_features] leaves, the two balance
    columns hold on every row what the balances and the amount of that
    same row give, although the rows were reordered after the columns
    were computed: [balance_ratio_orig] is amount / old balance when the
    old balance is positive and 0 otherwise (never a division by zero),
    and [is_full_drain] holds exactly when the old balance is positive
    and the new balance is 0. *)
Theorem built_balance_features self r h self' h' msg :
  rectangular (h r) = true ->
  build_features self r h = (self', h', (true, msg)) ->
  balance_features (h' r).
Proof.
  intros Hr H. apply build_features_inv in H.
  destruct H as (names & steps & amounts & olds & news
                 & H1 & H2 & H3 & H4 & H5 & ->).
  now apply feature_frame_balance.
Qed.

Lemma built_balance_features_witness : balance_features Examples.feature_table.
Proof.
  apply (built_balance_features __init__ 0%nat Examples.store
           (fst (fst Examples.built)) (snd (fst Examples.built))
           (snd (snd Examples.built))).
  - reflexivity.
  - vm_compute. reflexivity.
Defined.

(** In the table a successful [build_features] leaves, [day] and
    [hour_of_day] split the step of the row: the day is a whole number,
    the hour lies in [0, 24), and step = 24 * day + hour.  A row without
    a step has neither. *)
Theorem built_clock_features self r h self' h' msg :
  rectangular (h r) = true ->
  build_features self r h = (self', h', (true, msg)) ->
  clock_features (h' r).
Proof.
  intros Hr H. apply build_features_inv in H.
  destruct H as (names & steps & amounts & olds & news
                 & H1 & H2 & H3 & H4 & H5 & ->).
  now apply feature_frame_clock.
Qed.

Lemma built_clock_features_witness : clock_features Examples.feature_table.
Proof.
  apply (built_clock_features __init__ 0%nat Examples.store
           (fst (fst Examples.built)) (snd (fst Examples.built))
           (snd (snd Examples.built))).
  - reflexivity.
  - vm_compute. reflexivity.
Defined.



(** In the table a successful [build_features] leaves,
    [daily_trns_velocity] is on every row the number of amounts present
    on the rows of the same originator and the same day.  It is at
    least 1 on a row that has an amount and never exceeds
    [trns_count_customer]; a row without a step has no velocity. *)
Theorem built_velocity_features self r h self' h' msg :
  rectangular (h r) = true ->
  build_features self r h = (self', h', (true, msg)) ->
  velocity_features (h' r).
Proof.
  intros Hr H. apply build_features_inv in H.
  destruct H as (names & steps & amounts & olds & news
                 & H1 & H2 & H3 & H4 & H5 & ->).
  now apply feature_frame_velocity.
Qed.

Lemma built_velocity_features_witness : velocity_features Examples.feature_table.
Proof.
  apply (built_velocity_features __init__ 0%nat Examples.store
           (fst (fst Examples.built)) (snd (fst Examples.built))
           (snd (snd Examples.built))).
  - reflexivity.
  - vm_compute. reflexivity.
Defined.

End BuiltFeatures.

(** ** Scoring: the customer table of a successful run *)

Section ScoredTable.
Import RiskScorer.
Variable sqrt : Q -> Q.

Lemma nrows_setitem name c df :
  df <> [] -> col_len c = nrows df -> nrows (setitem name c df) = nrows df.
Proof.
  destruct df as [|[k c0] r]; [contradiction|]. intros _ H. simpl in *.
  now destruct (String.eqb k name).
Qed.

Lemma scored_frame_band self df1 zs :
  lookup "risk_band" (scored_frame self df1 zs)
  = Some (ObjCol (map (get_band (risk_bands self))
                    (risk_of (abs_row_mean zs (nrows df1)) (nrows df1)))).
Proof. unfold scored_frame. now lookup_through. Qed.

Lemma scored_frame_anomaly self df1 zs :
  lookup "is_anomaly" (scored_frame self df1 zs)
  = Some (NumCol (map (fun c => Some (if num_gt c (z_score_threshold self)
                                      then 1 else 0))
                    (abs_row_mean zs (nrows df1)))).
Proof. unfold scored_frame. now lookup_through. Qed.

Lemma risk_of_length comp n : length comp = n -> length (risk_of comp n) = n.
Proof.
  intros H. unfold risk_of. destruct (num_gtn _ _).
  - now rewrite length_map.
  - apply repeat_length.
Qed.

Lemma scored_frame_nrows self df1 zs :
  df1 <> [] -> nrows (scored_frame self df1 zs) = nrows df1.
Proof.
  intros Hne. unfold scored_frame.
  assert (Hc : length (abs_row_mean zs (nrows df1)) = nrows df1)
    by apply abs_row_mean_length.
  assert (Hr : length (risk_of (abs_row_mean zs (nrows df1)) (nrows df1))
               = nrows df1) by now apply risk_of_length.
  set (d1 := setitem "composite_zscore" _ df1).
  assert (E1 : nrows d1 = nrows df1) by (apply nrows_setitem; auto).
  set (d2 := setitem "risk_score" _ d1).
  assert (E2 : nrows d2 = nrows df1).
  { unfold d2. rewrite nrows_setitem; auto.
    - apply setitem_nonempty.
    - cbn [col_len]. now rewrite E1. }
  set (d3 := setitem "risk_band" _ d2).
  assert (E3 : nrows d3 = nrows df1).
  { unfold d3. rewrite nrows_setitem; auto.
    - apply setitem_nonempty.
    - cbn [col_len]. now rewrite length_map, E2. }
  rewrite nrows_setitem; auto.
  - apply setitem_nonempty.
  - cbn [col_len]. now rewrite length_map, E3.
Qed.

(** What a successful run leaves: the table, and the count it reports. *)
Lemma compute_success_table self features self' n k :
  compute_risk_scores sqrt self features = (self', (true, Scored n k)) ->
  exists agg df1 zs,
    _aggregate_to_customer features = Ok agg /\
    _compute_z_scores sqrt (_get_available_features sqrt self agg) agg
      = (df1, Ok tt) /\
    _get_available_features sqrt self agg <> [] /\
    self' = set_risk_scores self (scored_frame self df1 zs) /\
    n = nrows df1 /\
    k = high_count
          (map (get_band (risk_bands self))
             (risk_of (abs_row_mean zs (nrows df1)) (nrows df1))).
Proof.
  intros H. apply compute_success in H.
  destruct H as (agg & df & k' & Hagg & Hne & Hs & -> & Hmsg).
  inversion Hmsg; subst n k'; clear Hmsg.
  destruct (scoring_inv _ _ _ _ _ _ Hs Hne) as (df1 & zs & H1 & _ & Edf).
  exists agg, df1, zs. repeat split; auto.
  - now rewrite Edf.
  - rewrite Edf. apply scored_frame_nrows.
    destruct (_get_available_features sqrt self agg) as [|f fs] eqn:Ef;
      [contradiction|].
    apply compute_z_scores_inv in H1. destruct H1 as (_ & Hin & _).
    intros E. specialize (Hin f (or_introl eq_refl)). rewrite E in Hin.
    destruct Hin.
  - unfold scoring in Hs.
    apply bind_ok in Hs. destruct Hs as (d1 & u1 & _ & Hs).
    apply bind_ok in Hs. destruct Hs as (d2 & u2 & _ & Hs).
    apply bind_ok in Hs. destruct Hs as (d3 & u3 & _ & Hs).
    apply bind_ok in Hs. destruct Hs as (d4 & u4 & _ & Hs).
    rewrite bind_read in Hs.
    destruct (get_obj "risk_band" d4) as [bands|e] eqn:Eb; [|discriminate].
    unfold ret in Hs. inversion Hs; subst d4 k.
    apply get_obj_ok in Eb. rewrite Edf, scored_frame_band in Eb.
    inversion Eb; subst bands. reflexivity.
Qed.

Lemma filter_length_lt {A} (p : A -> bool) l x :
  In x l -> p x = false -> (length (filter p l) < length l)%nat.
Proof.
  induction l as [|a r IH]; simpl; intros Hin Hp; [contradiction|].
  pose proof (filter_length_le p r).
  destruct Hin as [->|Hin].
  - rewrite Hp. lia.
  - specialize (IH Hin Hp). destruct (p a); simpl; lia.
Qed.

Lemma filter_length_pos {A} (p : A -> bool) l x :
  In x l -> p x = true -> (0 < length (filter p l))%nat.
Proof.
  intros Hin Hp.
  assert (H : In x (filter p l)) by (apply filter_In; auto).
  destruct (filter p l); [contradiction|simpl; lia].
Qed.

(** In the customer table of a successful run (with the bands of the
    constructor) the scores always span the whole scale or collapse to
    its middle.  When two customers differ in composite score, the
    customer with the lowest composite has risk score 0 and band Low,
    the one with the highest has risk score 100 and band Critical, so
    the number of high-risk customers in the message is at least 1 and
    less than the number of customers.  When all composite scores are
    equal, every customer has risk score 50 and band High, and the
    message counts every customer as high-risk. *)
Theorem scored_extremes self features self' n k :
  risk_bands self = default_bands ->
  compute_risk_scores sqrt self features = (self', (true, Scored n k)) ->
  exists df composite risk bands,
    risk_scores self' = Some df /\
    lookup "composite_zscore" df = Some (NumCol composite) /\
    lookup "risk_score" df = Some (NumCol risk) /\
    lookup "risk_band" df = Some (ObjCol bands) /\
    length bands = n /\
    k = high_count bands /\
    ((exists a b, In (Some a) composite /\ In (Some b) composite /\ ~ a == b) ->
     (exists i r, nth_error risk i = Some (Some r) /\ r == 0 /\
                  nth_error bands i = Some "Low") /\
     (exists j r, nth_error risk j = Some (Some r) /\ r == 100 /\
                  nth_error bands j = Some "Critical") /\
     (1 <= k < n)%nat) /\
    ((forall a b, In (Some a) composite -> In (Some b) composite -> a == b) ->
     (forall r, In r risk -> r = Some 50) /\
     (forall b, In b bands -> b = "High") /\
     k = n).
Proof.
  intros Hb H. apply compute_success_table in H.
  destruct H as (agg & df1 & zs & _ & _ & _ & -> & Hn & Hk).
  set (composite := abs_row_mean zs (nrows df1)) in *.
  set (risk := risk_of composite (nrows df1)) in *.
  rewrite Hb in Hk.
  exists (scored_frame self df1 zs), composite, risk,
    (map (get_band default_bands) risk).
  split; [reflexivity|]. split; [apply scored_frame_composite|].
  split; [apply scored_frame_risk|].
  split; [rewrite scored_frame_band, Hb; reflexivity|].
  assert (Hlen : length composite = nrows df1) by apply abs_row_mean_length.
  assert (Hrl : length risk = n)
    by (rewrite Hn; now apply risk_of_length).
  split; [now rewrite length_map|]. split; [exact Hk|].
  destruct (risk_of_minmax sqrt composite (nrows df1) Hlen)
    as (_ & Hspread & Hflat).
  fold risk in Hspread, Hflat.
  split.
  - intros Hdiff. destruct (Hspread Hdiff) as (lo & hi & Hlo & Hhi & Hlt & Hall).
    destruct Hlo as [Hlo _], Hhi as [Hhi _].
    apply In_nth_error in Hlo, Hhi.
    destruct Hlo as [i Hi], Hhi as [j Hj].
    destruct (Hall i lo Hi) as (r0 & Hr0 & _ & _ & Hz & _).
    destruct (Hall j hi Hj) as (r1 & Hr1 & _ & _ & _ & Hh).
    specialize (Hz (Qeq_refl _)). specialize (Hh (Qeq_refl _)).
    assert (Hb0 : get_band default_bands (Some r0) = "Low").
    { apply (get_band_intervals r0). lra. }
    assert (Hb1 : get_band default_bands (Some r1) = "Critical").
    { apply (get_band_intervals r1). lra. }
    assert (Hi' : nth_error (map (get_band default_bands) risk) i = Some "Low")
      by now rewrite nth_error_map, Hr0; cbn [option_map]; rewrite Hb0.
    assert (Hj' : nth_error (map (get_band default_bands) risk) j
                  = Some "Critical")
      by now rewrite nth_error_map, Hr1; cbn [option_map]; rewrite Hb1.
    split; [exists i, r0; auto|]. split; [exists j, r1; auto|].
    rewrite Hk. unfold high_count. split.
    + eapply (filter_length_pos _ _ "Critical");
        [eapply nth_error_In; eauto|reflexivity].
    + rewrite <- Hrl, <- (length_map (get_band default_bands) risk).
      eapply (filter_length_lt _ _ "Low");
        [eapply nth_error_In; eauto|reflexivity].
  - intros Hsame. specialize (Hflat Hsame).
    assert (Hhigh : forall b, In b (map (get_band default_bands) risk) ->
                      b = "High").
    { intros b Hin. apply in_map_iff in Hin. destruct Hin as (r & <- & Hr).
      now rewrite (Hflat r Hr). }
    split; [exact Hflat|]. split; [exact Hhigh|].
    rewrite Hk. unfold high_count. rewrite filter_all.
    + now rewrite length_map.
    + intros b Hin. now rewrite (Hhigh b Hin).
Qed.

End ScoredTable.

Section ScoredViews.
Import RiskScorer.
Variable sqrt : Q -> Q.

(** In the customer table of a successful run [is_anomaly] is never
    missing: it is 1 for a customer whose composite z-score is strictly
    above the threshold the scorer was built with, and 0 for every
    other customer, whatever the risk band. *)
Theorem scored_anomalies self features self' msg :
  compute_risk_scores sqrt self features = (self', (true, msg)) ->
  exists df composite anomaly,
    risk_scores self' = Some df /\
    lookup "composite_zscore" df = Some (NumCol composite) /\
    lookup "is_anomaly" df = Some (NumCol anomaly) /\
    anomaly_marks (z_score_threshold self) composite anomaly.
Proof.
  intros H. apply compute_success in H.
  destruct H as (agg & df & k & _ & Hne & Hs & -> & _).
  apply scoring_inv in Hs; auto. destruct Hs as (df1 & zs & _ & _ & ->).
  do 3 eexists. split; [reflexivity|].
  split; [apply scored_frame_composite|].
  split; [apply scored_frame_anomaly|].
  split; [apply length_map|].
  intros i c Hc. rewrite nth_error_map, Hc. cbn [option_map].
  destruct c as [q|]; cbn [num_gt]; [|reflexivity].
  change (z_score_threshold (set_risk_scores self agg))
    with (z_score_threshold self).
  destruct (Qltb (z_score_threshold self) q) eqn:E; reflect_cmp;
    split; intros; try reflexivity; exfalso; lra.
Qed.

Lemma lookup_app_l name (d1 d2 : DataFrame) c :
  lookup name d1 = Some c -> lookup name (d1 ++ d2) = Some c.
Proof.
  induction d1 as [|[k c0] r IH]; simpl; [discriminate|].
  destruct (String.eqb k name); auto.
Qed.

Lemma lookup_app_r name (d1 d2 : DataFrame) :
  lookup name d1 = None -> lookup name (d1 ++ d2) = lookup name d2.
Proof.
  induction d1 as [|[k c0] r IH]; simpl; auto.
  destruct (String.eqb k name); [discriminate|auto].
Qed.

(** A projection shows the chosen columns as they are and no other. *)
Lemma lookup_project names df c :
  lookup c (project names df) = if mem c names then lookup c df else None.
Proof.
  unfold project, mem. induction names as [|a r IH]; simpl; auto.
  rewrite String.eqb_sym.
  destruct (String.eqb_spec a c) as [->|Hne]; cbn [orb].
  - destruct (lookup c df) as [col|] eqn:E.
    + simpl. now rewrite String.eqb_refl.
    + simpl. rewrite IH. now destruct (existsb _ r).
  - destruct (lookup a df) as [col|]; simpl; auto.
    apply String.eqb_neq in Hne. now rewrite Hne.
Qed.

Lemma columns_project names df :
  columns (project names df) = filter (fun c => has_col c df) names.
Proof.
  unfold project, columns, has_col. induction names as [|a r IH]; simpl; auto.
  rewrite map_app, IH. now destruct (lookup a df).
Qed.

Lemma aggregate_has_id features agg :
  _aggregate_to_customer features = Ok agg ->
  has_col "nameOrig" agg = has_col "nameOrig" features.
Proof.
  intros H. destruct (has_col "nameOrig" features) eqn:E.
  - unfold has_col in E.
    destruct (lookup "nameOrig" features) as [[xs|bs|ids]|] eqn:El;
      try discriminate;
      try (unfold _aggregate_to_customer, has_col, groupby_agg, get_obj,
             getitem in H; rewrite El in H; discriminate).
    destruct (aggregate_inv _ _ _ El H) as (cols & -> & _). reflexivity.
  - rewrite aggregate_no_id in H by assumption. now inversion H; subst.
Qed.

Lemma scored_has_id self features self' msg df :
  compute_risk_scores sqrt self features = (self', (true, msg)) ->
  risk_scores self' = Some df ->
  has_col "nameOrig" df = has_col "nameOrig" features.
Proof.
  intros H Hdf. apply compute_success in H.
  destruct H as (agg & df' & k & Hagg & Hne & Hs & -> & _).
  inversion Hdf; subst df'; clear Hdf.
  apply scoring_inv in Hs; auto. destruct Hs as (df1 & zs & H1 & _ & ->).
  rewrite <- (aggregate_has_id _ _ Hagg).
  apply compute_z_scores_inv in H1. destruct H1 as (_ & _ & _ & Hsame).
  unfold has_col, scored_frame. lookup_through. rewrite Hsame; auto.
  intros f _ E. pose proof (endswith_zname f) as Hz. rewrite <- E in Hz.
  vm_compute in Hz. discriminate.
Qed.

(** After a successful run [get_risk_scores] shows the originator
    column, when the feature table had one, and the four columns of the
    scoring, in that order, each as it stands in the customer table;
    the aggregated features and their z-scores are not shown.  Before
    any run it returns nothing. *)
Theorem risk_scores_view self features self' msg :
  compute_risk_scores sqrt self features = (self', (true, msg)) ->
  get_risk_scores (__init__ (z_score_threshold self)) = None /\
  exists df view,
    risk_scores self' = Some df /\
    get_risk_scores self' = Some view /\
    columns view
    = (if has_col "nameOrig" features then [ "nameOrig" ] else [])
      ++ [ "composite_zscore"; "risk_score"; "risk_band"; "is_anomaly" ] /\
    forall c, lookup c view = if mem c score_columns then lookup c df else None.
Proof.
  intros H. split; [reflexivity|].
  assert (Hid := fun df => scored_has_id _ _ _ _ df H).
  apply compute_success in H.
  destruct H as (agg & df & k & _ & Hne & Hs & -> & _).
  specialize (Hid df eq_refl).
  apply scoring_inv in Hs; auto. destruct Hs as (df1 & zs & _ & _ & Edf).
  exists df, (project score_columns df).
  split; [reflexivity|]. split; [reflexivity|]. split.
  - rewrite columns_project. unfold score_columns. cbn [filter]. rewrite Hid.
    assert (Hc : has_col "composite_zscore" df = true)
      by (unfold has_col; now rewrite Edf, scored_frame_composite).
    assert (Hr : has_col "risk_score" df = true)
      by (unfold has_col; now rewrite Edf, scored_frame_risk).
    assert (Hb : has_col "risk_band" df = true)
      by (unfold has_col; now rewrite Edf, scored_frame_band).
    assert (Ha : has_col "is_anomaly" df = true)
      by (unfold has_col; now rewrite Edf, scored_frame_anomaly).
    rewrite Hc, Hr, Hb, Ha. now destruct (has_col "nameOrig" features).
  - intros c. apply lookup_project.
Qed.

End ScoredViews.

Section ScoredExamples.
Import RiskScorer.

Lemma scored_extremes_witness :
  exists df bands,
    risk_scores Cases.scored_transfers = Some df /\
    lookup "risk_band" df = Some (ObjCol bands) /\
    length bands = 3%nat /\
    2%nat = high_count bands.
Proof.
  assert (Hrun : compute_risk_scores Examples.sqrt_floor Examples.scorer
                   Cases.transfers
                 = (Cases.scored_transfers, (true, Scored 3 2)))
    by (vm_compute; reflexivity).
  destruct (scored_extremes Examples.sqrt_floor Examples.scorer
              Cases.transfers Cases.scored_transfers 3 2 eq_refl Hrun)
    as (df & composite & risk & bands & Hdf & _ & _ & Hb & Hlen & Hk & _).
  exists df, bands.
  split; [exact Hdf|]. split; [exact Hb|]. split; [exact Hlen|exact Hk].
Defined.

Lemma scored_anomalies_witness :
  exists df composite anomaly,
    risk_scores Cases.scored_transfers = Some df /\
    lookup "composite_zscore" df = Some (NumCol composite) /\
    lookup "is_anomaly" df = Some (NumCol anomaly) /\
    anomaly_marks 2 composite anomaly.
Proof.
  assert (Hrun : compute_risk_scores Examples.sqrt_floor Examples.scorer
                   Cases.transfers
                 = (Cases.scored_transfers, (true, Scored 3 2)))
    by (vm_compute; reflexivity).
  exact (scored_anomalies Examples.sqrt_floor Examples.scorer
           Cases.transfers Cases.scored_transfers (Scored 3 2) Hrun).
Defined.

Lemma risk_scores_view_witness :
  exists view,
    get_risk_scores Cases.scored_transfers = Some view /\
    columns view = score_columns.
Proof.
  assert (Hrun : compute_risk_scores Examples.sqrt_floor Examples.scorer
                   Cases.transfers
                 = (Cases.scored_transfers, (true, Scored 3 2)))
    by (vm_compute; reflexivity).
  destruct (risk_scores_view Examples.sqrt_floor Examples.scorer
              Cases.transfers Cases.scored_transfers (Scored 3 2) Hrun)
    as (_ & df & view & _ & Hview & Hcols & _).
  exists view. split; [exact Hview|exact Hcols].
Defined.

End ScoredExamples.

(** ** Scoring: the summary and the high-risk customers *)

Section RiskSummaries.
Import RiskScorer RiskReports.
Variable sqrt : Q -> Q.

Lemma get_band_names bands s :
  get_band bands s = "Critical" \/ In (get_band bands s) (map fst bands).
Proof.
  induction bands as [|[b [lo hi]] r IH]; simpl; auto.
  destruct (num_ge s lo && num_lt s hi); auto.
  destruct IH; auto.
Qed.

Lemma get_band_default s : In (get_band default_bands s) band_names.
Proof.
  destruct (get_band_names default_bands s) as [-> | H].
  - simpl. tauto.
  - simpl in H. simpl. tauto.
Qed.

Lemma band_counts_add_up l :
  (forall b, In b l -> In b band_names) ->
  (TransactionFlagger.count_eq "Low" l + TransactionFlagger.count_eq "Medium" l
   + TransactionFlagger.count_eq "High" l
   + TransactionFlagger.count_eq "Critical" l = length l)%nat.
Proof.
  unfold TransactionFlagger.count_eq.
  induction l as [|b r IH]; intros H; [reflexivity|].
  assert (Hr : forall x, In x r -> In x band_names)
    by (intros x Hx; apply H; now right).
  specialize (IH Hr).
  destruct (H b (or_introl eq_refl)) as [<-|[<-|[<-|[<-|[]]]]];
    cbn [filter];
    repeat match goal with
    | |- context [String.eqb ?a ?b] =>
        let v := eval vm_compute in (String.eqb a b) in
        change (String.eqb a b) with v
    end;
    cbn [length]; lia.
Qed.

Lemma high_count_split l :
  high_count l
  = (TransactionFlagger.count_eq "High" l
     + TransactionFlagger.count_eq "Critical" l)%nat.
Proof.
  unfold high_count, TransactionFlagger.count_eq.
  rewrite (filter_ext _ (fun b => String.eqb "High" b || String.eqb "Critical" b)).
  - induction l as [|b r IH]; [reflexivity|]. cbn [filter].
    destruct (String.eqb_spec "High" b) as [<-|H1]; cbn [orb].
    + cbn [length]. rewrite IH.
      change (String.eqb "Critical" "High") with false. cbn iota. lia.
    + destruct (String.eqb "Critical" b); cbn [length]; rewrite IH; lia.
  - intros b. unfold mem. cbn [existsb]. rewrite orb_false_r.
    now rewrite (String.eqb_sym b "High"), (String.eqb_sym b "Critical").
Qed.

Lemma count_eq_le s l : (TransactionFlagger.count_eq s l <= length l)%nat.
Proof. unfold TransactionFlagger.count_eq. apply filter_length_le. Qed.

(** A sum of marks 0 and 1 is the number of marks 1. *)
Lemma Qsum_marks {A} (p : A -> bool) l :
  Qsum (map (fun c => if p c then 1 else 0) l)
  = inject_Z (Z.of_nat (length (filter p l))).
Proof.
  induction l as [|a r IH]; [reflexivity|].
  cbn [map Qsum fold_right filter]. unfold Qsum in IH. rewrite IH.
  unfold inject_Z, Qplus. cbn [Qnum Qden].
  destruct (p a); cbn [length Qnum Qden]; f_equal; lia.
Qed.

Lemma dropna_map_some {A} (f : A -> Q) l :
  dropna (map (fun c => Some (f c)) l) = map f l.
Proof. induction l as [|a r IH]; simpl; congruence. Qed.

Lemma int_inject z : TransactionFlagger.int (inject_Z z) = z.
Proof. unfold TransactionFlagger.int, inject_Z. simpl. apply Z.quot_1_r. Qed.

Lemma round_half_even_bounds q lo hi :
  inject_Z lo <= q -> q <= inject_Z hi ->
  (lo <= TransactionFlagger.round_half_even q <= hi)%Z.
Proof.
  intros Hlo Hhi. unfold TransactionFlagger.round_half_even. cbv zeta.
  set (f := Qfloor q).
  assert (H1 : (lo <= f)%Z).
  { rewrite <- (Qfloor_Z lo). now apply Qfloor_resp_le. }
  assert (H2 : (f <= hi)%Z).
  { rewrite <- (Qfloor_Z hi). now apply Qfloor_resp_le. }
  assert (H3 : (f = hi)%Z -> q - inject_Z f < 1 # 2).
  { intros E. rewrite E. lra. }
  destruct (Qcompare (q - inject_Z f) (1 # 2)) eqn:E.
  - destruct (Z.even f); [lia|].
    destruct (Z.eq_dec f hi) as [Ef|Ef]; [|lia].
    apply H3 in Ef. apply (proj1 (Qlt_alt _ _)) in Ef. congruence.
  - lia.
  - destruct (Z.eq_dec f hi) as [Ef|Ef]; [|lia].
    apply H3 in Ef. apply (proj1 (Qlt_alt _ _)) in Ef. congruence.
Qed.

(** A rounded percentage stays between 0 and 100. *)
Lemma round2_percent c total :
  (c <= total)%nat -> (0 < total)%nat ->
  0 <= TransactionFlagger.round2 (Qofnat c / Qofnat total * 100) <= 100.
Proof.
  intros Hc Ht. unfold TransactionFlagger.round2.
  set (x := Qofnat c / Qofnat total * 100).
  assert (Hpos : 0 < Qofnat total) by now apply Qofnat_pos.
  assert (Hcn : 0 <= Qofnat c) by apply Qofnat_nonneg.
  assert (Hct : Qofnat c <= Qofnat total).
  { unfold Qofnat. rewrite <- Zle_Qle. lia. }
  assert (Hq1 : 0 <= Qofnat c / Qofnat total)
    by (apply Qle_shift_div_l; lra).
  assert (Hq2 : Qofnat c / Qofnat total <= 1)
    by (apply Qle_shift_div_r; lra).
  destruct (round_half_even_bounds (x * 100) 0 10000) as [H1 H2].
  - unfold x. change (inject_Z 0) with 0. lra.
  - unfold x. change (inject_Z 10000) with 10000. lra.
  - rewrite Zle_Qle in H1, H2.
    change (inject_Z 0) with 0 in H1. change (inject_Z 10000) with 10000 in H2.
    split.
    + apply Qle_shift_div_l; lra.
    + apply Qle_shift_div_r; lra.
Qed.

(** After a successful run (with the bands of the constructor)
    [get_risk_summary] accounts for every customer: the total is the
    number of customers in the message, the four band counts add up to
    it, High and Critical together give the number of high-risk
    customers of the message, every percentage lies between 0 and 100,
    and [anomalies] is the number of customers whose composite z-score
    is above the threshold. *)
Theorem risk_summary_adds_up self features self' n k :
  risk_bands self = default_bands ->
  compute_risk_scores sqrt self features = (self', (true, Scored n k)) ->
  exists df composite s low medium high critical,
    risk_scores self' = Some df /\
    lookup "composite_zscore" df = Some (NumCol composite) /\
    get_risk_summary self' = Ok (Some s) /\
    total_customers s = n /\
    bands s = [ ("Low", low); ("Medium", medium);
                ("High", high); ("Critical", critical) ] /\
    (count low + count medium + count high + count critical = n)%nat /\
    (count high + count critical = k)%nat /\
    (forall e, In e [low; medium; high; critical] -> 0 <= percent e <= 100) /\
    anomalies s
    = Z.of_nat (length (filter (fun c => num_gt c (z_score_threshold self))
                          composite)).
Proof.
  intros Hb H. apply compute_success_table in H.
  destruct H as (agg & df1 & zs & _ & H1 & Hne & -> & Hn & Hk).
  set (composite := abs_row_mean zs (nrows df1)) in *.
  set (risk := risk_of composite (nrows df1)) in *.
  rewrite Hb in Hk.
  set (bs := map (get_band default_bands) risk) in *.
  assert (Hdf1 : df1 <> []).
  { destruct (_get_available_features sqrt self agg) as [|f fs] eqn:Ef;
      [contradiction|].
    apply compute_z_scores_inv in H1. destruct H1 as (_ & Hin & _).
    intros E. specialize (Hin f (or_introl eq_refl)). rewrite E in Hin.
    destruct Hin. }
  assert (Hlen : length bs = n).
  { unfold bs, risk. rewrite length_map, Hn. apply risk_of_length.
    apply abs_row_mean_length. }
  assert (Hbands : lookup "risk_band" (scored_frame self df1 zs)
                   = Some (ObjCol bs))
    by (rewrite scored_frame_band, Hb; reflexivity).
  assert (Hrows : nrows (scored_frame self df1 zs) = n)
    by (rewrite Hn; now apply scored_frame_nrows).
  assert (Hnames : forall b, In b bs -> In b band_names).
  { intros b Hin. apply in_map_iff in Hin. destruct Hin as (r & <- & _).
    apply get_band_default. }
  exists (scored_frame self df1 zs), composite.
  unfold get_risk_summary. cbn [risk_scores set_risk_scores].
  apply get_obj_ok in Hbands. rewrite Hbands. cbn [rbind].
  unfold get_num, getitem. rewrite scored_frame_anomaly. cbn [rbind as_num].
  do 5 eexists. split; [reflexivity|].
  split; [apply scored_frame_composite|].
  split; [reflexivity|]. cbn [total_customers bands anomalies map band_names].
  split; [exact Hrows|]. split; [reflexivity|]. cbn [count percent].
  split; [rewrite band_counts_add_up; auto|].
  split; [now rewrite Hk, high_count_split|].
  split.
  - intros e He.
    assert (Hcase : forall c, (c <= n)%nat ->
              0 <= (if (0 <? n)%nat
                    then TransactionFlagger.round2 (Qofnat c / Qofnat n * 100)
                    else 0) <= 100).
    { intros c Hc. destruct (0 <? n)%nat eqn:E.
      - apply Nat.ltb_lt in E. now apply round2_percent.
      - split; lra. }
    cbn [In] in He.
    destruct He as [<-|[<-|[<-|[<-|[]]]]]; cbn [percent]; rewrite Hrows;
      apply Hcase; rewrite <- Hlen; apply count_eq_le.
  - unfold nansum. fold composite.
    rewrite (dropna_map_some
               (fun c => if num_gt c (z_score_threshold self) then 1 else 0)).
    rewrite Qsum_marks. apply int_inject.
Qed.

End RiskSummaries.

Section HighRisk.
Import RiskScorer RiskReports Selection.
Variable sqrt : Q -> Q.

Lemma lookup_on_rows f name df :
  lookup name (on_rows f df) = option_map (on_cells f) (lookup name df).
Proof.
  unfold on_rows. induction df as [|[k c] r IH]; simpl; auto.
  destruct (String.eqb k name); auto.
Qed.

Lemma mask_rows_nil {A} mask : mask_rows mask (@nil A) = [].
Proof. unfold mask_rows. now rewrite combine_nil. Qed.

Lemma mask_rows_cons {A} m mask (x : A) l :
  mask_rows (m :: mask) (x :: l)
  = if m then x :: mask_rows mask l else mask_rows mask l.
Proof. unfold mask_rows. simpl. now destruct m. Qed.

Lemma mask_rows_filter {A} (p : A -> bool) l :
  mask_rows (map p l) l = filter p l.
Proof.
  induction l as [|a r IH]; [reflexivity|].
  cbn [map]. rewrite mask_rows_cons, IH. reflexivity.
Qed.

Lemma mask_rows_combine {A B} (p : A -> bool) (l : list A) (l' : list B) :
  combine (mask_rows (map p l) l) (mask_rows (map p l) l')
  = filter (fun x => p (fst x)) (combine l l').
Proof.
  revert l'. induction l as [|a r IH]; intros [|b r']; try reflexivity.
  - cbn [map combine filter]. rewrite mask_rows_nil. apply combine_nil.
  - cbn [map combine filter fst]. rewrite !mask_rows_cons.
    destruct (p a); cbn [combine]; now rewrite IH.
Qed.

Lemma mask_rows_length {A B} (p : A -> bool) (l : list A) (l' : list B) :
  length l' = length l ->
  length (mask_rows (map p l) l') = length (filter p l).
Proof.
  revert l'. induction l as [|a r IH]; intros [|b r'] H; try discriminate;
    [reflexivity|].
  cbn [map filter]. rewrite mask_rows_cons.
  simpl in H. destruct (p a); cbn [length]; rewrite IH; auto.
Qed.

Lemma desc_leb_total x y : desc_leb x y = false -> desc_leb y x = true.
Proof.
  destruct x as [a|], y as [b|]; simpl; try discriminate; auto.
  intros H. reflect_cmp. apply Qle_bool_iff. lra.
Qed.

Lemma desc_leb_trans x y t :
  desc_leb x y = true -> desc_leb y t = true -> desc_leb x t = true.
Proof.
  destruct x as [a|], y as [b|], t as [c|]; simpl; try discriminate; auto.
  intros H1 H2. reflect_cmp. apply Qle_bool_iff. lra.
Qed.

Lemma argsort_desc_perm xs : Permutation (argsort_desc xs) (seq 0 (length xs)).
Proof.
  unfold argsort_desc. rewrite <- (map_snd_combine_seq xs 0) at 2.
  apply Permutation_map, Permutation_sym, sort_by_perm.
Qed.

Lemma take_rows_argsort_desc xs :
  take_rows None (argsort_desc xs) xs
  = map fst (sort_by (fun a b => desc_leb (fst a) (fst b))
               (combine xs (seq 0 (length xs)))).
Proof.
  unfold argsort_desc, take_rows. rewrite map_map.
  apply map_ext_in. intros [x i] Hin.
  apply (Permutation_in _ (Permutation_sym (sort_by_perm _ _))) in Hin.
  apply In_combine_seq in Hin. destruct Hin as [_ Hin].
  rewrite Nat.sub_0_r in Hin. simpl. now apply nth_error_nth.
Qed.

Lemma argsort_desc_sorted xs :
  StronglySorted desc_le (take_rows None (argsort_desc xs) xs).
Proof.
  rewrite take_rows_argsort_desc. apply Sorted_StronglySorted.
  - intros a b c. apply desc_leb_trans.
  - apply Sorted_map. apply sort_by_sorted.
    intros x y. apply desc_leb_total.
Qed.

(** After a successful run [get_high_risk_customers] returns exactly
    the customers of band High or Critical, as many as the message of
    the run counted, with the highest risk score first.  Before any run
    it returns an empty table. *)
Theorem high_risk_customers_sorted self features self' n k :
  compute_risk_scores sqrt self features = (self', (true, Scored n k)) ->
  get_high_risk_customers (__init__ (z_score_threshold self)) = Ok [] /\
  exists df bands0 risk0 view bands risk,
    risk_scores self' = Some df /\
    lookup "risk_band" df = Some (ObjCol bands0) /\
    lookup "risk_score" df = Some (NumCol risk0) /\
    get_high_risk_customers self' = Ok view /\
    lookup "risk_band" view = Some (ObjCol bands) /\
    lookup "risk_score" view = Some (NumCol risk) /\
    length bands = k /\
    length risk = k /\
    (forall b, In b bands -> b = "High" \/ b = "Critical") /\
    StronglySorted desc_le risk /\
    Permutation (combine bands risk)
      (filter (fun p => mem (fst p) high_bands) (combine bands0 risk0)).
Proof.
  intros H. split; [reflexivity|]. apply compute_success_table in H.
  destruct H as (agg & df1 & zs & _ & _ & _ & -> & Hn & Hk).
  set (df := scored_frame self df1 zs).
  set (risk0 := risk_of (abs_row_mean zs (nrows df1)) (nrows df1)) in *.
  set (bands0 := map (get_band (risk_bands self)) risk0) in *.
  assert (Hb0 : lookup "risk_band" df = Some (ObjCol bands0))
    by apply scored_frame_band.
  assert (Hr0 : lookup "risk_score" df = Some (NumCol risk0))
    by apply scored_frame_risk.
  set (p := fun b => mem b high_bands).
  set (mask := map p bands0).
  set (bh := mask_rows mask bands0).
  set (rh := mask_rows mask risk0).
  set (idx := argsort_desc rh).
  assert (Hlen0 : length risk0 = length bands0)
    by (unfold bands0; now rewrite length_map).
  assert (Hbh : length bh = k).
  { unfold bh, mask. rewrite mask_rows_filter. now rewrite Hk. }
  assert (Hrh : length rh = k).
  { unfold rh, mask. rewrite mask_rows_length by exact Hlen0. now rewrite Hk. }
  exists df, bands0, risk0,
    (take_frame idx (mask_frame mask df)),
    (take_rows EmptyString idx bh), (take_rows None idx rh).
  split; [reflexivity|]. split; [exact Hb0|]. split; [exact Hr0|].
  split.
  { unfold get_high_risk_customers. cbn [risk_scores set_risk_scores]. fold df.
    apply get_obj_ok in Hb0. rewrite Hb0. cbn [rbind]. fold p mask.
    unfold get_num, getitem, mask_frame. rewrite lookup_on_rows, Hr0.
    reflexivity. }
  split.
  { rewrite lookup_take_frame. unfold mask_frame.
    rewrite lookup_on_rows, Hb0. reflexivity. }
  split.
  { rewrite lookup_take_frame. unfold mask_frame.
    rewrite lookup_on_rows, Hr0. reflexivity. }
  assert (Hidx : Permutation idx (seq 0 k))
    by (rewrite <- Hrh; apply argsort_desc_perm).
  split; [now rewrite take_rows_length, (Permutation_length Hidx), length_seq|].
  split; [now rewrite take_rows_length, (Permutation_length Hidx), length_seq|].
  split.
  { intros b Hin.
    apply (Permutation_in _ (take_rows_perm _ _ _
             ltac:(rewrite Hbh; exact Hidx))) in Hin.
    unfold bh, mask in Hin. rewrite mask_rows_filter in Hin.
    apply filter_In in Hin. destruct Hin as [_ Hin].
    unfold p, mem, high_bands in Hin. cbn [existsb] in Hin.
    rewrite orb_false_r in Hin. apply orb_prop in Hin.
    destruct Hin as [Hin|Hin]; apply String.eqb_eq in Hin; auto. }
  split; [apply argsort_desc_sorted|].
  eapply perm_trans.
  - apply (take_rows_combine_perm _ _ _ _ _ k); auto.
  - unfold bh, rh, mask. rewrite mask_rows_combine. apply Permutation_refl.
Qed.

End HighRisk.

(** ** Aggregation to customer level *)

Section CustomerTable.
Import RiskScorer.

Lemma dedup_sorted_sorted (R : string -> string -> Prop) l :
  StronglySorted R l -> StronglySorted R (dedup_sorted l).
Proof.
  induction 1 as [|x r Hs IH Hd]; [constructor|].
  cbn [dedup_sorted]. destruct r as [|y t]; [repeat constructor|].
  destruct (String.eqb x y); [exact IH|].
  constructor; [exact IH|].
  apply Forall_forall. intros z Hz. apply (proj1 (dedup_sorted_In _ _)) in Hz.
  rewrite Forall_forall in Hd. now apply Hd.
Qed.

Lemma unique_sorted_sorted l : StronglySorted str_le (unique_sorted l).
Proof. apply dedup_sorted_sorted, sort_by_str_sorted. Qed.

Lemma aggregate_cells features ids groups (l : list string) cols :
  mapM (fun ch : string * aggfunc =>
          rbind (get_num (fst ch) features) (fun xs =>
            Ok (fst ch,
                NumCol (map (fun k => agg (snd ch) (group_of String.eqb k ids xs))
                          groups))))
       (map (fun col => (col, if mem col sum_columns then AggSum else AggMean)) l)
  = Ok cols ->
  forall c xs, In c l -> lookup c features = Some (NumCol xs) ->
    lookup c cols
    = Some (NumCol (map (fun k => customer_cell c (group_of String.eqb k ids xs))
                      groups)).
Proof.
  revert cols. induction l as [|a r IH]; intros cols H c xs Hin Hc;
    [destruct Hin|].
  cbn [map mapM fst snd] in H.
  destruct (get_num a features) as [ys|e] eqn:Ea; [|discriminate].
  cbn [rbind] in H.
  destruct (mapM _ (map _ r)) as [cols'|e] eqn:Er; [|discriminate].
  cbn [rbind] in H. inversion H; subst cols; clear H.
  cbn [lookup]. destruct (String.eqb_spec a c) as [->|Hne].
  - apply get_num_ok in Ea. rewrite Hc in Ea. inversion Ea; subst ys.
    do 2 f_equal. apply map_ext. intros k.
    unfold customer_cell, mem, sum_columns. cbn [existsb].
    destruct (_ || _); reflexivity.
  - destruct Hin as [->|Hin]; [contradiction|].
    now apply (IH cols' eq_refl).
Qed.

(** The customer table has one row per originator of the feature
    table, the originators in ascending order without repetition, and
    one column per numeric column of the feature table, in the same
    order.  The cell of a customer in such a column is computed from
    the cells of that column on the customer's rows alone: their sum
    for [trns_count_customer] and [daily_trns_velocity], their mean for
    every other column. *)
Theorem aggregate_to_customer_cells features ids customer_data :
  lookup "nameOrig" features = Some (ObjCol ids) ->
  _aggregate_to_customer features = Ok customer_data ->
  let customers := unique_sorted ids in
  lookup "nameOrig" customer_data = Some (ObjCol customers) /\
  StronglySorted str_le customers /\
  NoDup customers /\
  (forall x, In x customers <-> In x ids) /\
  columns customer_data = "nameOrig" :: select_dtypes_number features /\
  rectangular customer_data = true /\
  nrows customer_data = length customers /\
  forall c xs, lookup c features = Some (NumCol xs) ->
    exists ys,
      lookup c customer_data = Some (NumCol ys) /\
      length ys = length customers /\
      forall p k, nth_error customers p = Some k ->
        nth_error ys p
        = Some (customer_cell c (group_of String.eqb k ids xs)).
Proof.
  intros Hid Hagg. cbv zeta.
  destruct (aggregate_inv _ _ _ Hid Hagg) as (cols & E & Hcols & Hsel).
  split; [subst; reflexivity|].
  split; [apply unique_sorted_sorted|].
  split; [apply unique_sorted_NoDup|].
  split; [intros x; apply unique_sorted_In|].
  split; [subst; unfold columns in *; cbn [map fst]; now rewrite Hsel|].
  split.
  { apply (uniform_rectangular (length (unique_sorted ids))). subst.
    constructor; [reflexivity|].
    eapply Forall_impl; [|exact Hcols].
    intros p (ys & Ey & Hy). now rewrite Ey. }
  split; [subst; reflexivity|].
  intros c xs Hc.
  assert (Hne : c <> "nameOrig") by (intros ->; congruence).
  assert (Hin : In c (select_dtypes_number features)).
  { unfold select_dtypes_number. apply in_map_iff.
    exists (c, NumCol xs). split; [reflexivity|].
    apply filter_In. split; [now apply lookup_In|reflexivity]. }
  unfold _aggregate_to_customer, has_col in Hagg. rewrite Hid in Hagg.
  cbn [negb] in Hagg. unfold groupby_agg in Hagg.
  assert (Hid' := Hid). apply get_obj_ok in Hid'. rewrite Hid' in Hagg.
  cbn [rbind] in Hagg.
  destruct (map _ (select_dtypes_number features)) as [|ch0 rest] eqn:Ed;
    [discriminate|].
  rewrite <- Ed in Hagg.
  destruct (mapM _ (map _ (select_dtypes_number features))) as [cols'|e] eqn:Em;
    [|discriminate].
  cbn [rbind] in Hagg. inversion Hagg; subst customer_data; clear Hagg.
  inversion H0; subst cols'; clear H0.
  pose proof (aggregate_cells _ _ _ _ _ Em c xs Hin Hc) as Hl.
  eexists. split.
  - cbn [lookup]. apply String.eqb_neq in Hne. rewrite String.eqb_sym, Hne.
    exact Hl.
  - split; [apply length_map|].
    intros p k Hk. now rewrite nth_error_map, Hk.
Qed.

End CustomerTable.

(** ** Flagging: the table, the summary and what is read off them *)

Section FlaggedTable.
Import TransactionFlagger.

Lemma flag_transactions_full
    (self : TransactionFlagger) (transactions risk_scores : DataFrame)
    (names ids bands : list string) (scores anoms : list num) :
  lookup "nameOrig" transactions = Some (ObjCol names) ->
  lookup "nameOrig" risk_scores = Some (ObjCol ids) ->
  lookup "risk_score" risk_scores = Some (NumCol scores) ->
  lookup "risk_band" risk_scores = Some (ObjCol bands) ->
  lookup "is_anomaly" risk_scores = Some (NumCol anoms) ->
  let fl := flags_under (risk_threshold self) (joined_scores ids scores names) in
  let df := flagged_frame (risk_threshold self) ids bands scores anoms names
              transactions in
  flag_transactions self transactions risk_scores
  = ({| flagged_data := Some df;
        risk_threshold := risk_threshold self;
        _summary :=
          Some {| total_transactions := nrows df;
                  flagged_transactions := count_true fl;
                  flagged_percentage :=
                    if (0 <? nrows df)%nat
                    then round2 (Qofnat (count_true fl) / Qofnat (nrows df) * 100)
                    else 0;
                  by_risk_band :=
                    [ ("Critical", count_eq "Critical" (joined_bands ids bands names));
                      ("High", count_eq "High" (joined_bands ids bands names));
                      ("Medium", count_eq "Medium" (joined_bands ids bands names)) ];
                  risk_threshold_used := risk_threshold self;
                  anomalies := int (nansum (joined_scores ids anoms names)) |};
        _is_flagged := true |},
     (true, Flagged (count_true fl) (nrows df))).
Proof.
  intros Hn Hi Hs Hb Ha fl df.
  apply get_obj_ok in Hi. apply get_num_ok in Hs.
  apply get_obj_ok in Hb. apply get_num_ok in Ha.
  unfold flag_transactions, flagging.
  repeat (rewrite bind_read; cbv beta; rewrite ?Hi, ?Hs, ?Hb, ?Ha).
  assert (Hn0 := Hn). apply get_obj_ok in Hn0. rewrite Hn0.
  rewrite bind_assign.
  rewrite bind_read.
  replace (get_obj "nameOrig" _) with (Ok (A := list string) names)
    by (symmetry; apply get_obj_ok; lookup_through; exact Hn).
  rewrite bind_assign, bind_read.
  replace (get_obj "nameOrig" _) with (Ok (A := list string) names)
    by (symmetry; apply get_obj_ok; lookup_through; exact Hn).
  rewrite bind_assign, bind_read.
  rewrite get_num_setitem_ne by discriminate.
  rewrite get_num_setitem_ne by discriminate.
  rewrite get_num_setitem_eq.
  rewrite bind_assign.
  rewrite bind_read. cbv beta. rewrite bind_read.
  unfold getitem at 1. rewrite lookup_setitem_eq. cbn [rbind].
  rewrite bind_read.
  rewrite !get_obj_setitem_ne by discriminate. rewrite get_obj_setitem_eq.
  rewrite bind_read.
  rewrite get_num_setitem_ne by discriminate. rewrite get_num_setitem_eq.
  reflexivity.
Qed.

End FlaggedTable.

Section FlaggedSummary.
Import TransactionFlagger Selection FlaggedRows.

Lemma count_true_le bs : (count_true bs <= length bs)%nat.
Proof. unfold count_true. apply filter_length_le. Qed.

Lemma joined_scores_length ids scores names :
  length (joined_scores ids scores names) = length names.
Proof. unfold joined_scores, map_fillna_num. apply length_map. Qed.

Lemma joined_bands_length ids bands names :
  length (joined_bands ids bands names) = length names.
Proof. unfold joined_bands, map_fillna_obj. apply length_map. Qed.

Lemma flags_under_length thr risk : length (flags_under thr risk) = length risk.
Proof. unfold flags_under. apply length_map. Qed.

Lemma flagged_frame_uniform thr ids bands scores anoms names transactions :
  rectangular transactions = true ->
  lookup "nameOrig" transactions = Some (ObjCol names) ->
  uniform (nrows transactions)
    (flagged_frame thr ids bands scores anoms names transactions).
Proof.
  intros Hr Hn. assert (Hlen := rectangular_lookup _ _ _ Hr Hn).
  cbn [col_len] in Hlen. unfold flagged_frame.
  repeat apply uniform_setitem; cbn [col_len];
    rewrite ?flags_under_length, ?joined_scores_length, ?joined_bands_length;
    auto.
  now apply rectangular_uniform.
Qed.

Lemma flagged_frame_nrows thr ids bands scores anoms names transactions :
  rectangular transactions = true ->
  lookup "nameOrig" transactions = Some (ObjCol names) ->
  nrows (flagged_frame thr ids bands scores anoms names transactions)
  = nrows transactions.
Proof.
  intros Hr Hn. apply uniform_nrows.
  - now apply flagged_frame_uniform.
  - unfold flagged_frame. apply setitem_nonempty.
Qed.

Lemma three_bands_le l :
  (count_eq "Critical" l + count_eq "High" l + count_eq "Medium" l
   <= length l)%nat.
Proof.
  unfold count_eq. induction l as [|b r IH]; [simpl; lia|].
  cbn [filter].
  destruct (String.eqb_spec "Critical" b) as [<-|H1].
  - change (String.eqb "High" "Critical") with false.
    change (String.eqb "Medium" "Critical") with false.
    cbn [length]. lia.
  - destruct (String.eqb_spec "High" b) as [<-|H2].
    + change (String.eqb "Medium" "High") with false. cbn [length]. lia.
    + destruct (String.eqb "Medium" b); cbn [length]; lia.
Qed.

(** The summary of a successful [flag_transactions] is consistent with
    the table: the total is the number of transfers, the flagged count
    is the number reported in the message and never exceeds the total,
    the percentage lies between 0 and 100 (it is 0 on an empty table:
    there is no division by zero), the threshold is the one of the
    flagger, and the three band counts together do not exceed the
    total. *)
Theorem flag_summary_consistent
    (self : TransactionFlagger) (transactions risk_scores : DataFrame)
    (names ids bands : list string) (scores anoms : list num) :
  lookup "nameOrig" transactions = Some (ObjCol names) ->
  lookup "nameOrig" risk_scores = Some (ObjCol ids) ->
  lookup "risk_score" risk_scores = Some (NumCol scores) ->
  lookup "risk_band" risk_scores = Some (ObjCol bands) ->
  lookup "is_anomaly" risk_scores = Some (NumCol anoms) ->
  rectangular transactions = true ->
  exists self' s k critical high medium,
    flag_transactions self transactions risk_scores
    = (self', (true, Flagged k (nrows transactions))) /\
    is_flagged self' = true /\
    get_flag_summary self' = Some s /\
    total_transactions s = nrows transactions /\
    flagged_transactions s = k /\
    (k <= nrows transactions)%nat /\
    0 <= flagged_percentage s <= 100 /\
    (nrows transactions = 0%nat -> flagged_percentage s = 0) /\
    risk_threshold_used s = risk_threshold self /\
    by_risk_band s
    = [ ("Critical", critical); ("High", high); ("Medium", medium) ] /\
    (critical + high + medium <= nrows transactions)%nat.
Proof.
  intros Hn Hi Hs Hb Ha Hr.
  pose proof (flag_transactions_full self transactions risk_scores names ids
                bands scores anoms Hn Hi Hs Hb Ha) as Hrun.
  cbv zeta in Hrun.
  rewrite (flagged_frame_nrows _ _ _ _ _ _ _ Hr Hn) in Hrun.
  assert (Hlen := rectangular_lookup _ _ _ Hr Hn). cbn [col_len] in Hlen.
  set (fl := flags_under (risk_threshold self) (joined_scores ids scores names))
    in *.
  assert (Hk : (count_true fl <= nrows transactions)%nat).
  { rewrite <- Hlen, <- (joined_scores_length ids scores names),
      <- (flags_under_length (risk_threshold self)).
    apply count_true_le. }
  do 6 eexists. split; [exact Hrun|].
  cbn [is_flagged get_flag_summary _is_flagged _summary total_transactions
       flagged_transactions flagged_percentage risk_threshold_used
       by_risk_band].
  do 5 (split; [reflexivity || exact Hk|]).
  split; [|split; [|split; [reflexivity|split; [reflexivity|]]]].
  - cbn [flagged_percentage].
    destruct (0 <? nrows transactions)%nat eqn:E.
    + apply Nat.ltb_lt in E. now apply round2_percent.
    + split; lra.
  - cbn [flagged_percentage]. intros E. now rewrite E.
  - rewrite <- Hlen, <- (joined_bands_length ids bands names).
    apply three_bands_le.
Qed.

Lemma flag_summary_consistent_witness :
  exists self' s k,
    flag_transactions Examples.flagger Examples.transactions Examples.risk_table
    = (self', (true, Flagged k 3)) /\
    get_flag_summary self' = Some s /\
    total_transactions s = 3%nat.
Proof.
  destruct (flag_summary_consistent
              Examples.flagger Examples.transactions Examples.risk_table
              ["A"; "Z"; "B"] ["A"; "B"] ["Medium"; "Critical"]
              [Examples.z 30; Examples.z 80] [Examples.z 0; Examples.z 1]
              eq_refl eq_refl eq_refl eq_refl eq_refl eq_refl)
    as (self' & s & k & c & h & m & Hrun & _ & Hs & Ht & _).
  exists self', s, k. split; [exact Hrun|]. split; [exact Hs|exact Ht].
Defined.

End FlaggedSummary.

Section FlaggedViews.
Import TransactionFlagger Selection FlaggedRows.

Lemma mask_rows_count {A} mask (l : list A) :
  length l = length mask -> length (mask_rows mask l) = count_true mask.
Proof.
  unfold count_true. revert l.
  induction mask as [|m r IH]; intros [|x l] H; try discriminate;
    [reflexivity|].
  rewrite mask_rows_cons. simpl in H. cbn [filter].
  destruct m; cbn [length]; rewrite IH; auto.
Qed.

Lemma mask_rows_self mask : mask_rows mask mask = repeat true (count_true mask).
Proof.
  unfold count_true. induction mask as [|m r IH]; [reflexivity|].
  rewrite mask_rows_cons. cbn [filter].
  destruct m; cbn [length repeat]; now rewrite IH.
Qed.

Lemma firstn_repeat_true {A} (x : A) m c :
  firstn m (repeat x c) = repeat x (Nat.min m c).
Proof.
  revert c. induction m as [|m IH]; intros [|c]; simpl; auto.
  now rewrite IH.
Qed.

Lemma col_len_on_cells f c n :
  (forall A (l : list A), length (f A l) = n) -> col_len (on_cells f c) = n.
Proof. intros H. destruct c; simpl; apply H. Qed.

Lemma on_cells_ext f g c n :
  col_len c = n ->
  (forall A (l : list A), length l = n -> f A l = g A l) ->
  on_cells f c = on_cells g c.
Proof. intros Hc H. destruct c; simpl in *; f_equal; now apply H. Qed.

Lemma nrows_on_rows f df :
  nrows (on_rows f df)
  = match df with [] => 0%nat | (_, c) :: _ => col_len (on_cells f c) end.
Proof. now destruct df as [|[k c] r]. Qed.

(** After a successful [flag_transactions], [get_flagged_transactions]
    returns the flagged rows of the table and no other, in the order of
    the table, cut to the first [max_rows] of them when there are more;
    [get_flagged_count] returns the number of flagged rows, which is the
    number the summary holds.  Before any run the first returns nothing
    and the second 0. *)
Theorem flagged_transactions_view
    (self : TransactionFlagger) (transactions risk_scores : DataFrame)
    (names ids bands : list string) (scores anoms : list num) (max_rows : Z) :
  lookup "nameOrig" transactions = Some (ObjCol names) ->
  lookup "nameOrig" risk_scores = Some (ObjCol ids) ->
  lookup "risk_score" risk_scores = Some (NumCol scores) ->
  lookup "risk_band" risk_scores = Some (ObjCol bands) ->
  lookup "is_anomaly" risk_scores = Some (NumCol anoms) ->
  rectangular transactions = true ->
  (0 <= max_rows)%Z ->
  get_flagged_transactions (__init__ (risk_threshold self)) max_rows = Ok None /\
  get_flagged_count (__init__ (risk_threshold self)) = Ok 0%Z /\
  exists self' df fl view s,
    fst (flag_transactions self transactions risk_scores) = self' /\
    flagged_data self' = Some df /\
    lookup "is_flagged" df = Some (BoolCol fl) /\
    get_flagged_transactions self' max_rows = Ok (Some view) /\
    nrows view = Nat.min (Z.to_nat max_rows) (count_true fl) /\
    lookup "is_flagged" view = Some (BoolCol (repeat true (nrows view))) /\
    (forall c col, lookup c df = Some col ->
       lookup c view
       = Some (on_cells (fun A l => firstn (Z.to_nat max_rows) (mask_rows fl l))
                 col)) /\
    get_flagged_count self' = Ok (Z.of_nat (count_true fl)) /\
    get_flag_summary self' = Some s /\
    flagged_transactions s = count_true fl.
Proof.
  intros Hn Hi Hs Hb Ha Hr Hmax.
  split; [reflexivity|]. split; [reflexivity|].
  pose proof (flag_transactions_full self transactions risk_scores names ids
                bands scores anoms Hn Hi Hs Hb Ha) as Hrun.
  cbv zeta in Hrun.
  set (fl := flags_under (risk_threshold self) (joined_scores ids scores names))
    in *.
  set (df := flagged_frame (risk_threshold self) ids bands scores anoms names
               transactions) in *.
  set (m := Z.to_nat max_rows).
  assert (Hu : uniform (nrows transactions) df)
    by now apply flagged_frame_uniform.
  assert (Hrows : nrows df = nrows transactions)
    by now apply flagged_frame_nrows.
  assert (Hlen : length fl = nrows transactions).
  { unfold fl. rewrite flags_under_length, joined_scores_length.
    exact (rectangular_lookup _ _ _ Hr Hn). }
  assert (Hfl : lookup "is_flagged" df = Some (BoolCol fl))
    by (unfold df, flagged_frame; now rewrite lookup_setitem_eq).
  assert (Hne : df <> []) by (unfold df, flagged_frame; apply setitem_nonempty).
  set (cut := fun (A : Type) (l : list A) => firstn m (mask_rows fl l)).
  assert (Hcut : forall A (l : list A), length l = nrows transactions ->
                   length (cut A l) = Nat.min m (count_true fl)).
  { intros A l Hl. unfold cut. rewrite length_firstn, mask_rows_count; auto.
    congruence. }
  assert (Hview : get_flagged_transactions
                    (fst (flag_transactions self transactions risk_scores))
                    max_rows
                  = Ok (Some (on_rows cut df))).
  { rewrite Hrun. unfold get_flagged_transactions. cbn [fst flagged_data].
    unfold getitem. rewrite Hfl. cbn [rbind eq_one].
    assert (Hmasked : nrows (mask_frame fl df) = count_true fl).
    { unfold mask_frame. rewrite nrows_on_rows.
      destruct df as [|[k c] r] eqn:Ed; [contradiction|].
      inversion Hu as [|? ? Hc _]; subst. cbn [snd] in Hc.
      destruct c; cbn [on_cells col_len] in *; apply mask_rows_count;
        congruence. }
    rewrite Hmasked.
    assert (Hsame : forall count_le : (count_true fl <= m)%nat,
               mask_frame fl df = on_rows cut df).
    { intros Hle. unfold mask_frame, on_rows. apply map_ext_in.
      intros [k c] Hin. cbn [fst snd]. f_equal.
      apply (on_cells_ext _ _ _ (nrows transactions)).
      - unfold uniform in Hu. rewrite Forall_forall in Hu. exact (Hu _ Hin).
      - intros A l Hl. unfold cut. symmetry. apply firstn_all2.
        rewrite mask_rows_count by congruence. exact Hle. }
    destruct (max_rows <? Z.of_nat (count_true fl))%Z eqn:E.
    - do 2 f_equal. unfold head, head_count.
      replace (max_rows <? 0)%Z with false by (symmetry; apply Z.ltb_ge; lia).
      fold m. unfold mask_frame, on_rows. rewrite map_map.
      apply map_ext. intros [k c]. cbn [fst snd]. f_equal.
      now destruct c.
    - do 2 f_equal. apply Hsame. apply Z.ltb_ge in E. unfold m. lia. }
  assert (Hnv : nrows (on_rows cut df) = Nat.min m (count_true fl)).
  { rewrite nrows_on_rows. destruct df as [|[k c] r] eqn:Ed; [contradiction|].
    inversion Hu as [|? ? Hc _]; subst. cbn [snd] in Hc.
    destruct c; cbn [on_cells col_len] in *; now apply Hcut. }
  exists (fst (flag_transactions self transactions risk_scores)), df, fl,
    (on_rows cut df).
  eexists.
  split; [reflexivity|].
  split; [rewrite Hrun; reflexivity|].
  split; [exact Hfl|]. split; [exact Hview|]. split; [exact Hnv|].
  split.
  { rewrite lookup_on_rows, Hfl, Hnv. cbn [option_map on_cells]. unfold cut.
    now rewrite mask_rows_self, firstn_repeat_true. }
  split.
  { intros c col Hc. rewrite lookup_on_rows, Hc. reflexivity. }
  split.
  { rewrite Hrun. unfold get_flagged_count. cbn [fst flagged_data].
    unfold getitem. now rewrite Hfl. }
  rewrite Hrun. cbn [fst get_flag_summary _summary]. split; reflexivity.
Qed.

Lemma flagged_transactions_view_witness :
  exists view,
    get_flagged_transactions (fst Examples.flagged) default_max_rows
    = Ok (Some view) /\
    nrows view = 1%nat.
Proof.
  destruct (flagged_transactions_view
              Examples.flagger Examples.transactions Examples.risk_table
              ["A"; "Z"; "B"] ["A"; "B"] ["Medium"; "Critical"]
              [Examples.z 30; Examples.z 80] [Examples.z 0; Examples.z 1]
              default_max_rows
              eq_refl eq_refl eq_refl eq_refl eq_refl eq_refl
              ltac:(discriminate))
    as (_ & _ & self' & df & fl & view & s & Hself & Hdf & Hfl & Hview & Hrows & _).
  exists view. split.
  - rewrite <- Hview, <- Hself. reflexivity.
  - rewrite Hrows.
    assert (E : Some (BoolCol fl) = Some (BoolCol [false; false; true])).
    { rewrite <- Hfl.
      assert (Ed : Some df = flagged_data (fst Examples.flagged))
        by (rewrite <- Hdf, <- Hself; reflexivity).
      vm_compute in Ed. inversion Ed. reflexivity. }
    inversion E. reflexivity.
Defined.

(** Raising the threshold never flags more: under two flaggers that
    differ only in their threshold, every transfer flagged under the
    higher threshold is flagged under the lower one, and the count
    reported for the higher threshold is at most the other. *)
Theorem raising_threshold_flags_fewer
    (low high : TransactionFlagger) (transactions risk_scores : DataFrame)
    (names ids bands : list string) (scores anoms : list num) :
  lookup "nameOrig" transactions = Some (ObjCol names) ->
  lookup "nameOrig" risk_scores = Some (ObjCol ids) ->
  lookup "risk_score" risk_scores = Some (NumCol scores) ->
  lookup "risk_band" risk_scores = Some (ObjCol bands) ->
  lookup "is_anomaly" risk_scores = Some (NumCol anoms) ->
  risk_threshold low <= risk_threshold high ->
  exists low' high' df_low df_high fl_low fl_high k_low k_high n_low n_high,
    flag_transactions low transactions risk_scores
    = (low', (true, Flagged k_low n_low)) /\
    flag_transactions high transactions risk_scores
    = (high', (true, Flagged k_high n_high)) /\
    flagged_data low' = Some df_low /\
    flagged_data high' = Some df_high /\
    lookup "is_flagged" df_low = Some (BoolCol fl_low) /\
    lookup "is_flagged" df_high = Some (BoolCol fl_high) /\
    lookup "risk_score" df_low = lookup "risk_score" df_high /\
    (forall i, nth_error fl_high i = Some true -> nth_error fl_low i = Some true) /\
    (k_high <= k_low)%nat.
Proof.
  intros Hn Hi Hs Hb Ha Hle.
  pose proof (flag_transactions_full low transactions risk_scores names ids
                bands scores anoms Hn Hi Hs Hb Ha) as Hlow.
  pose proof (flag_transactions_full high transactions risk_scores names ids
                bands scores anoms Hn Hi Hs Hb Ha) as Hhigh.
  cbv zeta in Hlow, Hhigh.
  assert (Himp : forall r, num_ge r (risk_threshold high) = true ->
                   num_ge r (risk_threshold low) = true).
  { intros [q|]; cbn [num_ge]; [|discriminate].
    intros H. reflect_cmp. apply Qle_bool_iff. lra. }
  do 10 eexists.
  split; [exact Hlow|]. split; [exact Hhigh|].
  split; [reflexivity|]. split; [reflexivity|].
  split; [unfold flagged_frame; now rewrite lookup_setitem_eq|].
  split; [unfold flagged_frame; now rewrite lookup_setitem_eq|].
  split; [unfold flagged_frame; now lookup_through|].
  split.
  - intros i. unfold flags_under. rewrite !nth_error_map.
    destruct (nth_error (joined_scores ids scores names) i) as [r|];
      cbn [option_map]; [|intros H; discriminate H].
    intros H. injection H as H'. now rewrite (Himp r H').
  - unfold count_true, flags_under. clear Hlow Hhigh.
    induction (joined_scores ids scores names) as [|r t IH]; [simpl; lia|].
    cbn [map filter].
    destruct (num_ge r (risk_threshold high)) eqn:E.
    + rewrite (Himp r E). cbn [length]. lia.
    + destruct (num_ge r (risk_threshold low)); cbn [length]; lia.
Qed.

Lemma raising_threshold_flags_fewer_witness :
  exists low' high' k_low k_high n_low n_high,
    flag_transactions (__init__ 20) Examples.transactions Examples.risk_table
    = (low', (true, Flagged k_low n_low)) /\
    flag_transactions Examples.flagger Examples.transactions Examples.risk_table
    = (high', (true, Flagged k_high n_high)) /\
    (k_high <= k_low)%nat.
Proof.
  destruct (raising_threshold_flags_fewer
              (__init__ 20) Examples.flagger
              Examples.transactions Examples.risk_table
              ["A"; "Z"; "B"] ["A"; "B"] ["Medium"; "Critical"]
              [Examples.z 30; Examples.z 80] [Examples.z 0; Examples.z 1]
              eq_refl eq_refl eq_refl eq_refl eq_refl
              ltac:(vm_compute; discriminate))
    as (low' & high' & d1 & d2 & f1 & f2 & k1 & k2 & n1 & n2
        & H1 & H2 & _ & _ & _ & _ & _ & _ & Hk).
  exists low', high', k1, k2, n1, n2.
  split; [exact H1|]. split; [exact H2|exact Hk].
Defined.

(** When the customer risk table lacks one of the four columns that
    [flag_transactions] reads, the call fails; the flagger is then not
    flagged, its summary is the one it had, and the table of transfers
    it holds is the one it was handed, with no column added. *)
Theorem flag_transactions_missing_column
    (self : TransactionFlagger) (transactions risk_scores : DataFrame) c :
  In c risk_columns ->
  has_col c risk_scores = false ->
  exists e,
    flag_transactions self transactions risk_scores
    = ({| flagged_data := Some transactions;
          risk_threshold := risk_threshold self;
          _summary := _summary self;
          _is_flagged := false |},
       (false, Error e)).
Proof.
  intros Hc Hmiss. unfold flag_transactions, flagging.
  rewrite bind_read. cbv beta.
  destruct (get_obj "nameOrig" risk_scores) as [ids|e] eqn:E1;
    [|eexists; reflexivity].
  rewrite bind_read. cbv beta.
  destruct (get_num "risk_score" risk_scores) as [scores|e] eqn:E2;
    [|eexists; reflexivity].
  rewrite bind_read. cbv beta. rewrite bind_read. cbv beta.
  destruct (get_obj "risk_band" risk_scores) as [bands|e] eqn:E3;
    [|eexists; reflexivity].
  rewrite bind_read. cbv beta. rewrite bind_read. cbv beta.
  destruct (get_num "is_anomaly" risk_scores) as [anoms|e] eqn:E4;
    [|eexists; reflexivity].
  exfalso.
  apply get_obj_ok in E1, E3. apply get_num_ok in E2, E4.
  unfold has_col in Hmiss. simpl in Hc.
  destruct Hc as [<-|[<-|[<-|[<-|[]]]]];
    match goal with
    | H : lookup ?n _ = Some _ |- _ =>
        match type of Hmiss with context [lookup n _] => rewrite H in Hmiss end
    end; discriminate.
Qed.

End FlaggedViews.

Section FlaggedViewsExamples.
Import TransactionFlagger.

Lemma flag_transactions_missing_column_witness :
  exists e,
    flag_transactions Examples.flagger Examples.no_id_table Cases.anonymous_scores
    = ({| flagged_data := Some Examples.no_id_table;
          risk_threshold := risk_threshold Examples.flagger;
          _summary := _summary Examples.flagger;
          _is_flagged := false |},
       (false, Error e)).
Proof.
  apply (flag_transactions_missing_column Examples.flagger Examples.no_id_table
           Cases.anonymous_scores "nameOrig").
  - left. reflexivity.
  - vm_compute. reflexivity.
Defined.

End FlaggedViewsExamples.

(** ** From scoring to flagging *)

Section Pipeline.
Import RiskScorer TransactionFlagger.
Variable sqrt : Q -> Q.

(** The two stages fit: the table [get_risk_scores] shows after a
    successful scoring of a feature table can always be used to flag
    the transfers of that same feature table, and no transfer falls
    back on the defaults: every transfer finds its originator in the
    customer table, once, and receives that customer's risk score, band
    and anomaly mark; it is flagged exactly when that score reaches the
    threshold of the flagger. *)
Theorem scored_customers_flag_every_transfer
    (self : RiskScorer) (features : DataFrame) (ids : list string)
    (self' : RiskScorer) (msg : RiskScorer.message)
    (flagger : TransactionFlagger) :
  lookup "nameOrig" features = Some (ObjCol ids) ->
  compute_risk_scores sqrt self features = (self', (true, msg)) ->
  exists view customers scores bands anoms flagger' df k total rs bs ans fl,
    get_risk_scores self' = Some view /\
    lookup "nameOrig" view = Some (ObjCol customers) /\
    lookup "risk_score" view = Some (NumCol scores) /\
    lookup "risk_band" view = Some (ObjCol bands) /\
    lookup "is_anomaly" view = Some (NumCol anoms) /\
    NoDup customers /\
    flag_transactions flagger features view
    = (flagger', (true, Flagged k total)) /\
    flagged_data flagger' = Some df /\
    lookup "risk_score" df = Some (NumCol rs) /\
    lookup "risk_band" df = Some (ObjCol bs) /\
    lookup "is_anomaly" df = Some (NumCol ans) /\
    lookup "is_flagged" df = Some (BoolCol fl) /\
    forall i name, nth_error ids i = Some name ->
      exists p s b a,
        nth_error customers p = Some name /\
        nth_error scores p = Some s /\
        nth_error bands p = Some b /\
        nth_error anoms p = Some a /\
        nth_error rs i = Some (Some (or0 s)) /\
        nth_error bs i = Some b /\
        nth_error ans i = Some (Some (or0 a)) /\
        nth_error fl i = Some (Qle_bool (risk_threshold flagger) (or0 s)).
Proof.
  intros Hid H. apply compute_success in H.
  destruct H as (agg & dfS & k0 & Hagg & Hne & Hs & -> & _).
  destruct (scoring_inv _ _ _ _ _ _ Hs Hne) as (df1 & zs & H1 & _ & Edf).
  destruct (aggregate_inv _ _ _ Hid Hagg) as (cols & E & _ & _).
  destruct (compute_z_scores_head _ _ _ _ _ _ _ _ H1 E eq_refl) as (r' & E1).
  set (g := unique_sorted ids) in *.
  set (self1 := set_risk_scores self agg) in *.
  set (composite := abs_row_mean zs (nrows df1)) in *.
  set (scores := risk_of composite (nrows df1)).
  set (bands := map (get_band (risk_bands self1)) scores).
  set (anoms := map (fun c => Some (if num_gt c (z_score_threshold self1)
                                    then 1 else 0) : num) composite).
  assert (Hrows : nrows df1 = length g) by (rewrite E1; reflexivity).
  assert (Hg : lookup "nameOrig" dfS = Some (ObjCol g)).
  { rewrite Edf. unfold scored_frame. lookup_through. rewrite E1.
    reflexivity. }
  assert (Hsc : lookup "risk_score" dfS = Some (NumCol scores))
    by (rewrite Edf; apply scored_frame_risk).
  assert (Hbd : lookup "risk_band" dfS = Some (ObjCol bands))
    by (rewrite Edf; apply scored_frame_band).
  assert (Han : lookup "is_anomaly" dfS = Some (NumCol anoms))
    by (rewrite Edf; apply scored_frame_anomaly).
  set (view := project score_columns dfS).
  assert (Vg : lookup "nameOrig" view = Some (ObjCol g))
    by (unfold view; rewrite lookup_project; exact Hg).
  assert (Vsc : lookup "risk_score" view = Some (NumCol scores))
    by (unfold view; rewrite lookup_project; exact Hsc).
  assert (Vbd : lookup "risk_band" view = Some (ObjCol bands))
    by (unfold view; rewrite lookup_project; exact Hbd).
  assert (Van : lookup "is_anomaly" view = Some (NumCol anoms))
    by (unfold view; rewrite lookup_project; exact Han).
  pose proof (flag_transactions_full flagger features view ids g bands scores
                anoms Hid Vg Vsc Vbd Van) as Hrun.
  cbv zeta in Hrun.
  assert (Lc : length composite = length g)
    by (unfold composite; now rewrite abs_row_mean_length).
  assert (Ls : length scores = length g)
    by (unfold scores; rewrite risk_of_length; auto; congruence).
  assert (Lb : length bands = length g)
    by (unfold bands; now rewrite length_map).
  assert (La : length anoms = length g)
    by (unfold anoms; now rewrite length_map).
  exists view, g, scores, bands, anoms. do 8 eexists.
  split; [reflexivity|].
  split; [exact Vg|]. split; [exact Vsc|]. split; [exact Vbd|].
  split; [exact Van|]. split; [apply unique_sorted_NoDup|].
  split; [exact Hrun|]. split; [reflexivity|]. unfold flagged_frame.
  split; [now lookup_through|]. split; [now lookup_through|].
  split; [now lookup_through|]. split; [now lookup_through|].
  intros i name Hname.
  assert (Hin : In name g).
  { apply unique_sorted_In. eapply nth_error_In; eauto. }
  apply In_nth_error in Hin. destruct Hin as [p Hp].
  assert (Hlt : (p < length g)%nat) by (apply nth_error_Some; congruence).
  destruct (nth_error scores p) as [s|] eqn:Es;
    [|apply nth_error_None in Es; lia].
  destruct (nth_error bands p) as [b|] eqn:Eb;
    [|apply nth_error_None in Eb; lia].
  destruct (nth_error anoms p) as [a|] eqn:Ea;
    [|apply nth_error_None in Ea; lia].
  exists p, s, b, a.
  do 4 (split; [reflexivity || assumption|]).
  unfold flags_under, joined_scores, joined_bands, map_fillna_num,
    map_fillna_obj.
  rewrite !nth_error_map, Hname. cbn [option_map].
  rewrite (dict_zip_hit name g scores p s),
          (dict_zip_hit name g bands p b),
          (dict_zip_hit name g anoms p a)
    by (assumption || apply unique_sorted_NoDup).
  destruct s, a; repeat split.
Qed.

End Pipeline.

(** ** Cleaning: negative amounts *)

Section InvalidValues.
Import TransactionCleaner.

Lemma cleaned_amount_id amount :
  negatives amount = 0%nat -> map cleaned_amount amount = amount.
Proof.
  unfold negatives, TransactionFlagger.count_true, cleaned_amount.
  induction amount as [|x r IH]; [reflexivity|].
  cbn [map filter]. destruct (num_lt x 0); cbn [length]; [discriminate|].
  intros H. now rewrite IH.
Qed.

Lemma negatives_cleaned amount : negatives (map cleaned_amount amount) = 0%nat.
Proof.
  unfold negatives, TransactionFlagger.count_true, cleaned_amount.
  induction amount as [|x r IH]; [reflexivity|].
  cbn [map filter]. destruct (num_lt x 0) eqn:E.
  - cbn [num_lt]. change (Qltb 0 0) with false. exact IH.
  - rewrite E. exact IH.
Qed.

Lemma setitem_same name c df :
  lookup name df = Some c -> setitem name c df = df.
Proof.
  induction df as [|[k c0] r IH]; simpl; [discriminate|].
  destruct (String.eqb k name) eqn:E.
  - intros H. inversion H. reflexivity.
  - intros H. now rewrite IH.
Qed.

Lemma columns_setitem_present name c df :
  has_col name df = true -> columns (setitem name c df) = columns df.
Proof.
  unfold has_col, columns. induction df as [|[k c0] r IH]; simpl;
    [discriminate|].
  destruct (String.eqb k name); simpl; [reflexivity|].
  intros H. now rewrite IH.
Qed.

(** [_handle_invalid_values] replaces every negative amount by 0 and
    touches nothing else: the other amounts, the missing ones included,
    the other columns and the order of the columns stay as they are, so
    that no negative amount is left.  The number of amounts replaced is
    added to the count the cleaner already had, which therefore runs on
    from one cleaning to the next, while the two other counters are not
    changed.  A second pass changes neither the table nor the count. *)
Theorem handle_invalid_values_zeroes_negatives self df amount :
  lookup "amount" df = Some (NumCol amount) ->
  exists df' self',
    _handle_invalid_values self df = (df', Ok self') /\
    lookup "amount" df' = Some (NumCol (map cleaned_amount amount)) /\
    (forall c, c <> "amount" -> lookup c df' = lookup c df) /\
    columns df' = columns df /\
    (forall i x, nth_error amount i = Some x ->
       nth_error (map cleaned_amount amount) i
       = Some match x with
              | Some q => if Qltb q 0 then Some 0 else Some q
              | None => None
              end) /\
    (forall q, In (Some q) (map cleaned_amount amount) -> 0 <= q) /\
    invalid_value_count self'
    = (invalid_value_count self + Z.of_nat (negatives amount))%Z /\
    missing_value_count self' = missing_value_count self /\
    duplicate_count self' = duplicate_count self /\
    exists self'',
      _handle_invalid_values self' df' = (df', Ok self'') /\
      invalid_value_count self'' = invalid_value_count self'.
Proof.
  intros Ha.
  assert (Hrun : forall s d xs,
             lookup "amount" d = Some (NumCol xs) ->
             _handle_invalid_values s d
             = ((if (0 <? negatives xs)%nat
                 then setitem "amount" (NumCol (map cleaned_amount xs)) d
                 else d),
                Ok {| missing_value_count := missing_value_count s;
                      duplicate_count := duplicate_count s;
                      invalid_value_count :=
                        (invalid_value_count s + Z.of_nat (negatives xs))%Z |})).
  { intros s d xs Hx. unfold _handle_invalid_values, has_col. rewrite Hx.
    rewrite bind_read. apply get_num_ok in Hx. rewrite Hx. cbv zeta.
    fold (negatives xs).
    destruct (0 <? negatives xs)%nat; reflexivity. }
  set (df' := if (0 <? negatives amount)%nat
              then setitem "amount" (NumCol (map cleaned_amount amount)) df
              else df).
  assert (Ha' : lookup "amount" df' = Some (NumCol (map cleaned_amount amount))).
  { unfold df'. destruct (0 <? negatives amount)%nat eqn:E.
    - apply lookup_setitem_eq.
    - apply Nat.ltb_ge in E. rewrite cleaned_amount_id by lia. exact Ha. }
  do 2 eexists. split; [apply (Hrun self df amount Ha)|]. fold df'.
  split; [exact Ha'|].
  split.
  { intros c Hc. unfold df'. destruct (0 <? negatives amount)%nat; auto.
    apply lookup_setitem_ne. congruence. }
  split.
  { unfold df'. destruct (0 <? negatives amount)%nat; auto.
    apply columns_setitem_present. unfold has_col. now rewrite Ha. }
  split.
  { intros i x Hx. rewrite nth_error_map, Hx. cbn [option_map].
    unfold cleaned_amount. destruct x as [q|]; reflexivity. }
  split.
  { intros q Hq. apply in_map_iff in Hq. destruct Hq as (x & Hx & _).
    unfold cleaned_amount in Hx. destruct x as [v|]; cbn [num_lt] in Hx.
    - destruct (Qltb v 0) eqn:E; inversion Hx; subst; reflect_cmp; lra.
    - discriminate. }
  cbn [invalid_value_count missing_value_count duplicate_count].
  do 3 (split; [reflexivity|]).
  eexists. split.
  - rewrite (Hrun _ df' _ Ha'). rewrite negatives_cleaned. reflexivity.
  - cbn [invalid_value_count]. lia.
Qed.

End InvalidValues.

(** ** Validation of the loaded table *)

Section Validation.
Import DataManager.

Lemma filter_nil_iff {A} (p : A -> bool) l :
  filter p l = [] <-> forall x, In x l -> p x = false.
Proof.
  induction l as [|a r IH]; simpl.
  - split; [intros _ x []|reflexivity].
  - destruct (p a) eqn:E.
    + split; [discriminate|]. intros H. specialize (H a (or_introl eq_refl)).
      congruence.
    + rewrite IH. split.
      * intros H x [<-|Hx]; auto.
      * intros H x Hx. apply H. now right.
Qed.

Lemma is_nil_iff {A} (l : list A) : is_nil l = true <-> l = [].
Proof. destruct l; simpl; split; congruence. Qed.

(** [validate_data] accepts exactly the loaded tables that have every
    required column and at least one row, and what it returns is what
    it leaves in [_validation_errors].  With the required columns of
    the constructor, an accepted table has every column that
    [build_features] reads. *)
Theorem validate_data_accepts (self : DataManager) :
  let '(self', (is_valid, errors)) := validate_data self in
  _validation_errors self' = errors /\
  raw_data self' = raw_data self /\
  (is_valid = true <-> errors = []) /\
  (is_valid = true <->
   exists df,
     is_loaded self = true /\ raw_data self = Some df /\
     (forall c, In c (required_columns self) -> has_col c df = true) /\
     (0 < nrows df)%nat) /\
  (is_valid = true ->
   required_columns self = required_columns __init__ ->
   forall df, raw_data self = Some df ->
     forall c, In c inputs -> has_col c df = true).
Proof.
  unfold validate_data.
  destruct (is_loaded self) eqn:El, (raw_data self) as [df|] eqn:Ed;
    try (cbn [_validation_errors raw_data set_errors];
         split; [reflexivity|]; split; [exact Ed|];
         split; [split; intros H; discriminate H|];
         split; [|intros H; discriminate H];
         split; [intros H; discriminate H|];
         intros (d & H1 & H2 & _); discriminate).
  set (missing := filter (fun col => negb (has_col col df)) (required_columns self)).
  assert (Hmiss : missing = [] <->
                  forall c, In c (required_columns self) -> has_col c df = true).
  { unfold missing. rewrite filter_nil_iff. split; intros H c Hc.
    - specialize (H c Hc). now apply negb_false_iff in H.
    - apply negb_false_iff. now apply H. }
  assert (Hvalid : (if (nrows df =? 0)%nat
                    then (if is_nil missing then []
                          else [("Missing required columns: "
                                 ++ String.concat ", " missing)%string])
                         ++ ["Dataset is empty"]
                    else (if is_nil missing then []
                          else [("Missing required columns: "
                                 ++ String.concat ", " missing)%string]))
                   = [] <->
                   missing = [] /\ (0 < nrows df)%nat).
  { destruct (nrows df =? 0)%nat eqn:En.
    - apply Nat.eqb_eq in En. split.
      + intros H. apply app_eq_nil in H. destruct H; discriminate.
      + intros [_ H]. lia.
    - apply Nat.eqb_neq in En. destruct missing; simpl; split.
      + intros _. split; [reflexivity|lia].
      + reflexivity.
      + discriminate.
      + intros [H _]. discriminate. }
  cbv zeta. fold missing. cbn [_validation_errors raw_data set_errors].
  rewrite is_nil_iff.
  split; [reflexivity|]. split; [exact Ed|]. split; [reflexivity|].
  split.
  - rewrite Hvalid, Hmiss. split.
    + intros [H1 H2]. exists df. auto.
    + intros (d & _ & E & H1 & H2). inversion E; subst d. auto.
  - intros Hok Hreq d E c Hc. inversion E; subst d.
    apply Hvalid in Hok. destruct Hok as [Hok _].
    apply (proj1 Hmiss Hok). rewrite Hreq.
    simpl in Hc. simpl.
    repeat (destruct Hc as [<-|Hc]; [tauto|]). contradiction.
Qed.

Lemma validate_data_accepts_witness :
  fst (snd (validate_data Cases.loaded)) = true.
Proof.
  pose proof (validate_data_accepts Cases.loaded) as H.
  change (validate_data Cases.loaded)
    with (fst (validate_data Cases.loaded),
          (fst (snd (validate_data Cases.loaded)),
           snd (snd (validate_data Cases.loaded)))) in H.
  cbv beta iota in H. destruct H as (_ & _ & _ & H & _).
  apply H. exists Cases.raw_table.
  split; [reflexivity|]. split; [reflexivity|]. split.
  - intros c Hc. simpl in Hc.
    repeat (destruct Hc as [<-|Hc]; [reflexivity|]). contradiction.
  - simpl. lia.
Defined.

End Validation.

(** ** The progress flags of the controller *)

Section Controller.
Import MainController.

(** A state with the five flags, in the order of the dictionary. *)
Lemma step_shape st c :
  (exists loaded cleaned built scored flagged,
     st = [ ("data_loaded", loaded); ("data_cleaned", cleaned);
            ("features_built", built); ("customers_scored", scored);
            ("transactions_flagged", flagged) ] /\
     (flagged = true -> scored = true) /\
     (scored = true -> built = true) /\
     (built = true -> cleaned = true) /\
     (cleaned = true -> loaded = true)) ->
  exists loaded cleaned built scored flagged,
    step st c
    = [ ("data_loaded", loaded); ("data_cleaned", cleaned);
        ("features_built", built); ("customers_scored", scored);
        ("transactions_flagged", flagged) ] /\
    (flagged = true -> scored = true) /\
    (scored = true -> built = true) /\
    (built = true -> cleaned = true) /\
    (cleaned = true -> loaded = true).
Proof.
  intros (b1 & b2 & b3 & b4 & b5 & -> & H1 & H2 & H3 & H4).
  destruct c as [[]|[]|[]|[]|[]], b1, b2, b3, b4, b5;
    do 5 eexists; (split; [vm_compute; reflexivity|]);
    repeat split; intros; try reflexivity; try discriminate; auto.
Qed.

Lemma run_shape calls :
  exists loaded cleaned built scored flagged,
    run calls
    = [ ("data_loaded", loaded); ("data_cleaned", cleaned);
        ("features_built", built); ("customers_scored", scored);
        ("transactions_flagged", flagged) ] /\
    (flagged = true -> scored = true) /\
    (scored = true -> built = true) /\
    (built = true -> cleaned = true) /\
    (cleaned = true -> loaded = true).
Proof.
  unfold run.
  assert (H0 : exists loaded cleaned built scored flagged,
             initial_state
             = [ ("data_loaded", loaded); ("data_cleaned", cleaned);
                 ("features_built", built); ("customers_scored", scored);
                 ("transactions_flagged", flagged) ] /\
             (flagged = true -> scored = true) /\
             (scored = true -> built = true) /\
             (built = true -> cleaned = true) /\
             (cleaned = true -> loaded = true)).
  { exists false, false, false, false, false. repeat split; auto. }
  revert H0. generalize initial_state.
  induction calls as [|c r IH]; intros st H; [exact H|].
  cbn [fold_left]. apply IH. now apply step_shape.
Qed.

(** Whatever stage methods are called, in whatever order and with
    whatever outcome, the controller never marks a stage as done
    unless every stage before it is: the dictionary keeps its five
    flags and they are in order.  The reports are therefore generated
    only when all five stages are done, and a successful load marks
    every later stage as not done. *)
Theorem controller_flags_in_order (calls : list call) (is_flagged : bool) :
  map fst (run calls) = order /\
  in_order (run calls) /\
  (export_reports is_flagged (run calls) = true ->
   is_flagged = true /\ forall k, In k order -> flag k (run calls) = true) /\
  (forall k, In k order -> k <> "data_loaded" ->
     flag k (step (run calls) (LoadDataset true)) = false).
Proof.
  destruct (run_shape calls) as (b1 & b2 & b3 & b4 & b5 & -> & H1 & H2 & H3 & H4).
  split; [reflexivity|]. split; [|split].
  - unfold in_order. repeat split; intros H; vm_compute in H; vm_compute; auto.
  - unfold export_reports.
    change (flag "transactions_flagged" _) with b5.
    destruct b5; [|discriminate]. destruct is_flagged; [|discriminate].
    intros _. split; [reflexivity|].
    rewrite (H1 eq_refl) in *. rewrite (H2 eq_refl) in *.
    rewrite (H3 eq_refl) in *. rewrite (H4 eq_refl) in *.
    intros k Hk. simpl in Hk.
    repeat (destruct Hk as [<-|Hk]; [reflexivity|]). contradiction.
  - intros k Hk Hne. simpl in Hk.
    destruct Hk as [<-|Hk]; [contradiction|].
    repeat (destruct Hk as [<-|Hk]; [reflexivity|]). contradiction.
Qed.

Lemma controller_flags_in_order_witness :
  in_order (run Cases.session) /\
  flag "features_built" (run Cases.session) = false.
Proof.
  destruct (controller_flags_in_order Cases.session true) as (_ & H & _).
  split; [exact H|reflexivity].
Defined.

End Controller.

(** ** Z-scores are standardised *)

Section Standardised.
Import RiskScorer.

(** When the square root is exact on the population variance of the
    values and that variance is positive, the z-scores that
    [scipy.stats.zscore] gives are all present, add up to 0, and their
    squares add up to the number of values: they have mean 0 and
    population variance 1. *)
Theorem zscore_standardised (sqrt : Q -> Q) (xs : list Q) :
  0 < pstd sqrt xs ->
  pstd sqrt xs * pstd sqrt xs == population_variance xs ->
  exists zs,
    zscore sqrt xs = map Some zs /\
    length zs = length xs /\
    Qsum zs == 0 /\
    Qsum (map (fun z => z * z) zs) == Qofnat (length xs).
Proof.
  intros Hpos Hexact.
  exists (map (fun x => (x - Qmean xs) / pstd sqrt xs) xs).
  split; [|split; [apply length_map|]].
  - unfold zscore. cbv zeta.
    destruct (Qeq_bool (pstd sqrt xs) 0) eqn:E.
    + reflect_cmp. lra.
    + now rewrite map_map.
  - exact (population_zscores_standard sqrt xs Hpos Hexact).
Qed.

Lemma zscore_standardised_witness :
  exists zs,
    zscore Examples.sqrt_floor [2; 4; 4; 4; 5; 5; 7; 9] = map Some zs /\
    Qsum zs == 0.
Proof.
  destruct (zscore_standardised Examples.sqrt_floor [2; 4; 4; 4; 5; 5; 7; 9])
    as (zs & H1 & _ & H2 & _).
  - vm_compute. reflexivity.
  - vm_compute. reflexivity.
  - exists zs. split; [exact H1|exact H2].
Defined.

End Standardised.

(** ** The properties above on the scenario *)

Section Scenario.
Import RiskScorer.

Lemma risk_summary_adds_up_witness :
  exists s,
    RiskReports.get_risk_summary Cases.scored_transfers = Ok (Some s) /\
    RiskReports.total_customers s = 3%nat.
Proof.
  assert (Hrun : compute_risk_scores Examples.sqrt_floor Examples.scorer
                   Cases.transfers
                 = (Cases.scored_transfers, (true, Scored 3 2)))
    by (vm_compute; reflexivity).
  destruct (risk_summary_adds_up Examples.sqrt_floor Examples.scorer
              Cases.transfers Cases.scored_transfers 3 2 eq_refl Hrun)
    as (df & composite & s & low & medium & high & critical
        & _ & _ & Hs & Ht & _).
  exists s. split; [exact Hs|exact Ht].
Defined.

Lemma high_risk_customers_sorted_witness :
  exists view risk,
    RiskReports.get_high_risk_customers Cases.scored_transfers = Ok view /\
    lookup "risk_score" view = Some (NumCol risk) /\
    length risk = 2%nat /\
    StronglySorted desc_le risk.
Proof.
  assert (Hrun : compute_risk_scores Examples.sqrt_floor Examples.scorer
                   Cases.transfers
                 = (Cases.scored_transfers, (true, Scored 3 2)))
    by (vm_compute; reflexivity).
  destruct (high_risk_customers_sorted Examples.sqrt_floor Examples.scorer
              Cases.transfers Cases.scored_transfers 3 2 Hrun)
    as (_ & df & bands0 & risk0 & view & bands & risk
        & _ & _ & _ & Hview & _ & Hrisk & _ & Hlen & _ & Hsorted & _).
  exists view, risk.
  split; [exact Hview|]. split; [exact Hrisk|].
  split; [exact Hlen|exact Hsorted].
Defined.

Lemma aggregate_to_customer_cells_witness :
  lookup "nameOrig" Examples.customer_table
  = Some (ObjCol (unique_sorted Examples.feature_ids)) /\
  nrows Examples.customer_table = length (unique_sorted Examples.feature_ids).
Proof.
  destruct (aggregate_to_customer_cells Examples.feature_table
              Examples.feature_ids Examples.customer_table)
    as (H1 & _ & _ & _ & _ & _ & H2 & _).
  - vm_compute. reflexivity.
  - vm_compute. reflexivity.
  - split; [exact H1|exact H2].
Defined.

Lemma scored_customers_flag_every_transfer_witness :
  exists view flagger' k total,
    get_risk_scores Cases.scored_transfers = Some view /\
    TransactionFlagger.flag_transactions Examples.flagger
      Cases.transfers view
    = (flagger', (true, TransactionFlagger.Flagged k total)).
Proof.
  assert (Hrun : compute_risk_scores Examples.sqrt_floor Examples.scorer
                   Cases.transfers
                 = (Cases.scored_transfers, (true, Scored 3 2)))
    by (vm_compute; reflexivity).
  assert (Hid : lookup "nameOrig" Cases.transfers
                = Some (ObjCol Cases.transfer_ids))
    by (vm_compute; reflexivity).
  destruct (scored_customers_flag_every_transfer Examples.sqrt_floor
              Examples.scorer Cases.transfers Cases.transfer_ids
              Cases.scored_transfers (Scored 3 2) Examples.flagger Hid Hrun)
    as (view & customers & scores & bands & anoms & flagger' & df & k & total
        & rs & bs & ans & fl & Hview & _ & _ & _ & _ & _ & Hflag & _).
  exists view, flagger', k, total. split; [exact Hview|exact Hflag].
Defined.

Lemma handle_invalid_values_zeroes_negatives_witness :
  exists df' self',
    TransactionCleaner._handle_invalid_values TransactionCleaner.__init__
      Cases.raw_amounts = (df', Ok self') /\
    TransactionCleaner.invalid_value_count self' = 2%Z.
Proof.
  destruct (handle_invalid_values_zeroes_negatives TransactionCleaner.__init__
              Cases.raw_amounts
              [Examples.z 5; Examples.z (-3); None; Some (-1 # 2)] eq_refl)
    as (df' & self' & Hrun & _ & _ & _ & _ & _ & Hcount & _).
  exists df', self'. split; [exact Hrun|exact Hcount].
Defined.

End Scenario.

(** ** Which features are scored *)

Section Eligibility.
Import RiskScorer.
Variable sqrt : Q -> Q.




End Eligibility.

Section EligibilityExamples.
Import RiskScorer.


End EligibilityExamples.

(** ** Flagging with a customer table that repeats an originator *)

Section Duplicates.
Import TransactionFlagger.

Lemma dict_zip_last {V} k ids (vals : list V) p v :
  nth_error ids p = Some k -> nth_error vals p = Some v ->
  (forall q, (p < q)%nat -> nth_error ids q <> Some k) ->
  dict_get k (dict_zip ids vals) = Some v.
Proof.
  unfold dict_zip. generalize (@nil (string * V)).
  revert ids vals. induction p as [|p IH]; intros [|x ids] [|y vals] d;
    simpl; try discriminate.
  - intros E1 E2 Hlast. inversion E1; inversion E2; subst.
    rewrite dict_get_fold_absent.
    + rewrite dict_get_set. now rewrite String.eqb_refl.
    + intros Hin. apply map_fst_combine_incl in Hin.
      apply In_nth_error in Hin. destruct Hin as [q Hq].
      apply (Hlast (S q)); [lia|exact Hq].
  - intros E1 E2 Hlast. apply IH; auto.
    intros q Hq. apply (Hlast (S q)). lia.
Qed.

(** When the customer risk table lists an originator more than once,
    [flag_transactions] still succeeds, and the transfers of that
    originator receive the score and the band of the last such row. *)
Theorem flag_uses_last_duplicate
    (self : TransactionFlagger) (transactions risk_scores : DataFrame)
    (names ids bands : list string) (scores anoms : list num) :
  lookup "nameOrig" transactions = Some (ObjCol names) ->
  lookup "nameOrig" risk_scores = Some (ObjCol ids) ->
  lookup "risk_score" risk_scores = Some (NumCol scores) ->
  lookup "risk_band" risk_scores = Some (ObjCol bands) ->
  lookup "is_anomaly" risk_scores = Some (NumCol anoms) ->
  exists self' df k total rs bs fl,
    flag_transactions self transactions risk_scores
    = (self', (true, Flagged k total)) /\
    flagged_data self' = Some df /\
    lookup "risk_score" df = Some (NumCol rs) /\
    lookup "risk_band" df = Some (ObjCol bs) /\
    lookup "is_flagged" df = Some (BoolCol fl) /\
    forall i name p s b,
      nth_error names i = Some name ->
      nth_error ids p = Some name ->
      (forall q, (p < q)%nat -> nth_error ids q <> Some name) ->
      nth_error scores p = Some s ->
      nth_error bands p = Some b ->
      nth_error rs i = Some (Some (or0 s)) /\
      nth_error bs i = Some b /\
      nth_error fl i = Some (Qle_bool (risk_threshold self) (or0 s)).
Proof.
  intros Hn Hi Hs Hb Ha.
  pose proof (flag_transactions_full self transactions risk_scores names ids
                bands scores anoms Hn Hi Hs Hb Ha) as Hrun.
  cbv zeta in Hrun.
  do 7 eexists. split; [exact Hrun|]. split; [reflexivity|].
  unfold flagged_frame.
  split; [now lookup_through|]. split; [now lookup_through|].
  split; [now lookup_through|].
  intros i name p s b Hname Hp Hlast Hsp Hbp.
  unfold flags_under, joined_scores, joined_bands, map_fillna_num,
    map_fillna_obj.
  rewrite !nth_error_map, Hname. cbn [option_map].
  rewrite (dict_zip_last name ids scores p s),
          (dict_zip_last name ids bands p b) by assumption.
  destruct s; repeat split.
Qed.

End Duplicates.

Section DuplicatesExamples.
Import TransactionFlagger.

Lemma flag_uses_last_duplicate_witness :
  exists self' df k total rs,
    flag_transactions Examples.flagger Examples.transactions
      Cases.repeated_risk_table
    = (self', (true, Flagged k total)) /\
    flagged_data self' = Some df /\
    lookup "risk_score" df = Some (NumCol rs) /\
    nth_error rs 0 = Some (Some (or0 (Examples.z 90))).
Proof.
  destruct (flag_uses_last_duplicate
              Examples.flagger Examples.transactions Cases.repeated_risk_table
              ["A"; "Z"; "B"] ["A"; "B"; "A"]
              ["Medium"; "Critical"; "Critical"]
              [Examples.z 30; Examples.z 80; Examples.z 90]
              [Examples.z 0; Examples.z 1; Examples.z 1]
              eq_refl eq_refl eq_refl eq_refl eq_refl)
    as (self' & df & k & total & rs & bs & fl & Hrun & Hdf & Hrs & _ & _ & Hrow).
  exists self', df, k, total, rs.
  split; [exact Hrun|]. split; [exact Hdf|]. split; [exact Hrs|].
  destruct (Hrow 0%nat "A" 2%nat (Examples.z 90) "Critical"
              eq_refl eq_refl) as (H & _).
  - intros [|[|[|q]]] Hq; try lia; destruct q; discriminate.
  - reflexivity.
  - reflexivity.
  - exact H.
Defined.

End DuplicatesExamples.

(** ** Cleaning: duplicate rows *)

Section DuplicateRows.
Import TransactionCleaner Selection.

Lemma cell_eqb_refl a : cell_eqb a a = true.
Proof.
  destruct a as [[q|]|b|s]; simpl; auto.
  - apply Qeq_bool_refl.
  - apply eqb_reflx.
  - apply String.eqb_refl.
Qed.

Lemma cell_eqb_trans a b c :
  cell_eqb a b = true -> cell_eqb b c = true -> cell_eqb a c = true.
Proof.
  destruct a as [[x|]|x|x], b as [[y|]|y|y], c as [[z|]|z|z]; simpl;
    try discriminate; auto.
  - apply Qeq_bool_trans.
  - intros H1 H2. apply eqb_prop in H1, H2. subst. apply eqb_reflx.
  - intros H1 H2. apply String.eqb_eq in H1, H2. subst. apply String.eqb_refl.
Qed.

Lemma row_eqb_refl r : row_eqb r r = true.
Proof. induction r as [|a t IH]; simpl; auto. now rewrite cell_eqb_refl. Qed.

Lemma row_eqb_trans r1 : forall r2 r3,
  row_eqb r1 r2 = true -> row_eqb r2 r3 = true -> row_eqb r1 r3 = true.
Proof.
  induction r1 as [|a t IH]; intros [|b t2] [|c t3]; simpl; try discriminate;
    auto.
  intros H1 H2. apply andb_true_iff in H1, H2.
  destruct H1 as [H1 H1'], H2 as [H2 H2'].
  rewrite (cell_eqb_trans _ _ _ H1 H2). simpl. eauto.
Qed.

(** *** The rows a mask keeps *)

Lemma positions_count mask s :
  length (positions mask s) = TransactionFlagger.count_true mask.
Proof.
  unfold TransactionFlagger.count_true. revert s.
  induction mask as [|m r IH]; intros s; [reflexivity|].
  cbn [positions filter]. destruct m; cbn [length]; now rewrite IH.
Qed.

Lemma positions_In mask s i :
  In i (positions mask s) <->
  (s <= i)%nat /\ nth_error mask (i - s) = Some true.
Proof.
  revert s. induction mask as [|m r IH]; intros s.
  - simpl. split; [intros []|]. intros [_ H]. destruct (i - s)%nat; discriminate.
  - cbn [positions].
    assert (Hshift : (S s <= i)%nat ->
              nth_error (m :: r) (i - s) = nth_error r (i - S s)).
    { intros H. replace (i - s)%nat with (S (i - S s)) by lia. reflexivity. }
    destruct m.
    + cbn [In]. rewrite IH. split.
      * intros [<-|[H1 H2]].
        -- split; [lia|]. now rewrite Nat.sub_diag.
        -- split; [lia|]. now rewrite Hshift.
      * intros [H1 H2]. destruct (Nat.eq_dec s i) as [->|Hne]; [now left|].
        right. split; [lia|]. rewrite <- Hshift; auto. lia.
    + rewrite IH. split.
      * intros [H1 H2]. split; [lia|]. now rewrite Hshift.
      * intros [H1 H2]. destruct (Nat.eq_dec s i) as [->|Hne].
        -- rewrite Nat.sub_diag in H2. discriminate.
        -- split; [lia|]. rewrite <- Hshift; auto. lia.
Qed.

Lemma positions_sorted mask s : StronglySorted lt (positions mask s).
Proof.
  revert s. induction mask as [|m r IH]; intros s; [constructor|].
  cbn [positions]. destruct m; [|apply IH].
  constructor; [apply IH|].
  apply Forall_forall. intros i Hi. apply positions_In in Hi. lia.
Qed.

Lemma mask_rows_positions {A} (d : A) mask : forall l s,
  length l = length mask ->
  mask_rows mask l = map (fun i => nth (i - s) l d) (positions mask s).
Proof.
  induction mask as [|m r IH]; intros [|x l] s H; try discriminate;
    [reflexivity|].
  rewrite mask_rows_cons. cbn [positions]. simpl in H.
  assert (Hrest : mask_rows r l
                  = map (fun i => nth (i - s) (x :: l) d) (positions r (S s))).
  { rewrite (IH l (S s)) by lia. apply map_ext_in. intros i Hi.
    apply positions_In in Hi.
    replace (i - s)%nat with (S (i - S s)) by lia. reflexivity. }
  destruct m; [|exact Hrest].
  cbn [map]. rewrite Nat.sub_diag. cbn [nth]. now rewrite Hrest.
Qed.

Lemma nth_mask_rows {A} (d : A) mask l j :
  length l = length mask -> (j < TransactionFlagger.count_true mask)%nat ->
  nth j (mask_rows mask l) d = nth (nth j (positions mask 0) 0%nat) l d.
Proof.
  intros Hl Hj. rewrite (mask_rows_positions d mask l 0 Hl).
  rewrite <- positions_count with (s := 0%nat) in Hj.
  rewrite (nth_indep _ d (nth (0 - 0) l d)) by now rewrite length_map.
  rewrite (map_nth (fun i => nth (i - 0) l d)). now rewrite Nat.sub_0_r.
Qed.

Lemma masked_row mask df j :
  uniform (length mask) df -> (j < TransactionFlagger.count_true mask)%nat ->
  row (mask_frame mask df) j = row df (nth j (positions mask 0) 0%nat).
Proof.
  intros Hu Hj. unfold row, mask_frame, on_rows. rewrite map_map.
  apply map_ext_in. intros [k c] Hin. cbn [fst snd].
  unfold uniform in Hu. rewrite Forall_forall in Hu.
  specialize (Hu _ Hin). cbn [snd] in Hu.
  destruct c; cbn [on_cells cell_at col_len] in *; f_equal;
    now apply nth_mask_rows.
Qed.

Lemma masked_uniform mask df :
  uniform (length mask) df ->
  uniform (TransactionFlagger.count_true mask) (mask_frame mask df).
Proof.
  intros Hu. unfold uniform, mask_frame, on_rows in *.
  rewrite Forall_map. eapply Forall_impl; [|exact Hu].
  intros [k c] Hc. cbn [fst snd] in *.
  destruct c; cbn [on_cells col_len] in *; now apply mask_rows_count.
Qed.

Lemma masked_nrows mask df :
  uniform (length mask) df -> df <> [] ->
  nrows (mask_frame mask df) = TransactionFlagger.count_true mask.
Proof.
  intros Hu Hne. apply uniform_nrows; [now apply masked_uniform|].
  destruct df; [contradiction|discriminate].
Qed.

Lemma mask_rows_all {A} (s : list nat) (l : list A) :
  length l = length s -> mask_rows (map (fun _ => true) s) l = l.
Proof.
  revert l. induction s as [|a r IH]; intros [|x l] H; try discriminate;
    [reflexivity|].
  cbn [map]. rewrite mask_rows_cons. simpl in H. now rewrite IH by lia.
Qed.

Lemma nth_positions_bound mask j :
  (j < TransactionFlagger.count_true mask)%nat ->
  (nth j (positions mask 0) 0 < length mask)%nat /\
  nth_error mask (nth j (positions mask 0) 0%nat) = Some true.
Proof.
  intros Hj. rewrite <- positions_count with (s := 0%nat) in Hj.
  assert (Hin : In (nth j (positions mask 0) 0%nat) (positions mask 0))
    by now apply nth_In.
  apply positions_In in Hin. rewrite Nat.sub_0_r in Hin.
  destruct Hin as [_ Hin]. split; [|exact Hin].
  apply nth_error_Some. congruence.
Qed.

Lemma sorted_nth_lt l i j :
  StronglySorted lt l -> (i < j)%nat -> (j < length l)%nat ->
  (nth i l 0 < nth j l 0)%nat.
Proof.
  intros Hs. revert i j. induction Hs as [|x r Hs IH Hd]; intros i j Hij Hj.
  - simpl in Hj. lia.
  - destruct j as [|j]; [lia|]. simpl in Hj. destruct i as [|i]; simpl.
    + rewrite Forall_forall in Hd. apply Hd. apply nth_In. lia.
    + apply IH; lia.
Qed.

(** *** What [duplicated] marks *)

Lemma duplicated_length df : length (duplicated df) = nrows df.
Proof. unfold duplicated. now rewrite length_map, length_seq. Qed.

Lemma duplicated_nth df i :
  (i < nrows df)%nat ->
  nth_error (duplicated df) i
  = Some (existsb (fun j => row_eqb (row df j) (row df i)) (seq 0 i)).
Proof.
  intros Hi. unfold duplicated.
  rewrite nth_error_map, nth_error_seq_lt by assumption. reflexivity.
Qed.

Lemma kept_nth df i :
  (i < nrows df)%nat ->
  nth_error (map negb (duplicated df)) i = Some true ->
  forall j, (j < i)%nat -> row_eqb (row df j) (row df i) = false.
Proof.
  intros Hi H j Hj. rewrite nth_error_map, duplicated_nth in H by assumption.
  cbn [option_map] in H. injection H as H. apply negb_true_iff in H.
  destruct (row_eqb (row df j) (row df i)) eqn:E; auto.
  assert (Hex : existsb (fun j => row_eqb (row df j) (row df i)) (seq 0 i) = true).
  { apply existsb_exists. exists j. split; [apply in_seq; lia|exact E]. }
  congruence.
Qed.

(** [_remove_duplicates] keeps one row of every set of equal rows: the
    table it leaves has the same columns, no two of its rows hold the
    same values, each of its rows is a row of the table it was given,
    and every row of that table has an equal in it (a missing value
    counting as equal to a missing value).  The counter is set to the
    number of rows removed, whatever it was, and the two other counters
    are not changed.  A second pass removes nothing. *)
Theorem remove_duplicates_keeps_one_of_each self df :
  rectangular df = true ->
  exists df' self',
    _remove_duplicates self df = (df', Ok self') /\
    columns df' = columns df /\
    rectangular df' = true /\
    (nrows df' <= nrows df)%nat /\
    duplicate_count self'
    = (Z.of_nat (nrows df) - Z.of_nat (nrows df'))%Z /\
    missing_value_count self' = missing_value_count self /\
    invalid_value_count self' = invalid_value_count self /\
    distinct_rows df' /\
    (forall j, (j < nrows df')%nat ->
       exists i, (i < nrows df)%nat /\ row df' j = row df i) /\
    (forall i, (i < nrows df)%nat ->
       exists j, (j < nrows df')%nat /\ same_row df' j df i) /\
    drop_duplicates df' = df'.
Proof.
  intros Hr.
  exists (drop_duplicates df). eexists. split; [reflexivity|].
  cbn [duplicate_count missing_value_count invalid_value_count].
  assert (Hcase : df = [] \/ df <> [])
    by (destruct df; [left|right]; congruence).
  destruct Hcase as [->|Hne].
  { repeat split; try reflexivity; try (simpl; lia);
      unfold distinct_rows; intros; simpl in *; lia. }
  set (keep := map negb (duplicated df)).
  assert (Hk : length keep = nrows df)
    by (unfold keep; now rewrite length_map, duplicated_length).
  assert (Hu : uniform (length keep) df)
    by (rewrite Hk; now apply rectangular_uniform).
  assert (Hrows : nrows (drop_duplicates df) = TransactionFlagger.count_true keep)
    by (unfold drop_duplicates; fold keep; now apply masked_nrows).
  assert (Hrow : forall j, (j < TransactionFlagger.count_true keep)%nat ->
             row (drop_duplicates df) j
             = row df (nth j (positions keep 0) 0%nat))
    by (intros j Hj; unfold drop_duplicates; fold keep; now apply masked_row).
  assert (Hdistinct : distinct_rows (drop_duplicates df)).
  { intros i j Hij Hj. unfold same_row. rewrite Hrows in Hj.
    rewrite !Hrow by lia.
    destruct (nth_positions_bound keep j Hj) as [Hb Hkeep].
    assert (Hb' : (nth j (positions keep 0) 0 < nrows df)%nat) by lia.
    rewrite (kept_nth df _ Hb' Hkeep); [discriminate|].
    apply sorted_nth_lt; auto using positions_sorted.
    now rewrite positions_count. }
  split.
  { unfold drop_duplicates, mask_frame, on_rows, columns.
    rewrite map_map. reflexivity. }
  split.
  { eapply uniform_rectangular. unfold drop_duplicates. fold keep.
    now apply masked_uniform. }
  split.
  { rewrite Hrows, <- Hk. unfold TransactionFlagger.count_true.
    apply filter_length_le. }
  do 3 (split; [reflexivity|]).
  split; [exact Hdistinct|].
  split.
  { intros j Hj. rewrite Hrows in Hj.
    exists (nth j (positions keep 0) 0%nat). split; [|now apply Hrow].
    rewrite <- Hk. now apply nth_positions_bound. }
  split.
  { intros i. induction i as [i IH] using lt_wf_ind. intros Hi.
    destruct (existsb (fun j => row_eqb (row df j) (row df i)) (seq 0 i)) eqn:E.
    - apply existsb_exists in E. destruct E as (i0 & Hin & Heq).
      apply in_seq in Hin.
      destruct (IH i0 ltac:(lia) ltac:(lia)) as (j & Hj & Hsame).
      exists j. split; [exact Hj|].
      unfold same_row in *. eapply row_eqb_trans; eauto.
    - assert (Hkeep : nth_error keep i = Some true).
      { unfold keep. rewrite nth_error_map, duplicated_nth by assumption.
        cbn [option_map]. now rewrite E. }
      assert (Hin : In i (positions keep 0)).
      { apply positions_In. rewrite Nat.sub_0_r. split; [lia|exact Hkeep]. }
      apply (In_nth _ _ 0%nat) in Hin. destruct Hin as (j & Hj & Hnth).
      rewrite positions_count in Hj.
      exists j. split; [now rewrite Hrows|].
      unfold same_row. rewrite Hrow by assumption. rewrite Hnth.
      apply row_eqb_refl. }
  set (df' := drop_duplicates df) in *.
  assert (Hnone : duplicated df' = map (fun _ => false) (seq 0 (nrows df'))).
  { unfold duplicated. apply map_ext_in. intros j Hj. apply in_seq in Hj.
    destruct (existsb _ (seq 0 j)) eqn:E; auto.
    apply existsb_exists in E. destruct E as (i & Hin & Heq).
    apply in_seq in Hin. exfalso.
    apply (Hdistinct i j); [lia|lia|exact Heq]. }
  unfold drop_duplicates at 1. rewrite Hnone, map_map.
  unfold mask_frame, on_rows.
  assert (Hu' : uniform (nrows df') df').
  { rewrite Hrows. unfold df', drop_duplicates. fold keep.
    now apply masked_uniform. }
  rewrite <- (map_id df') at 2. apply map_ext_in. intros [k c] Hin.
  cbn [fst snd]. f_equal.
  unfold uniform in Hu'. rewrite Forall_forall in Hu'.
  specialize (Hu' _ Hin). cbn [snd] in Hu'.
  destruct c; cbn [on_cells col_len] in *; f_equal; apply mask_rows_all;
    now rewrite length_seq.
Qed.

Lemma remove_duplicates_keeps_one_of_each_witness :
  exists df' self',
    _remove_duplicates __init__ Cases.raw_repeated = (df', Ok self') /\
    duplicate_count self' = 1%Z.
Proof.
  destruct (remove_duplicates_keeps_one_of_each __init__ Cases.raw_repeated
              eq_refl)
    as (df' & self' & Hrun & _ & _ & _ & Hcount & _).
  exists df', self'. split; [exact Hrun|].
  rewrite Hcount.
  assert (E : fst (_remove_duplicates __init__ Cases.raw_repeated) = df')
    by now rewrite Hrun.
  rewrite <- E. reflexivity.
Defined.

End DuplicateRows.
